(** * The article collection-and-selection pipeline of the AI news agent

    A shallow embedding of [agents/news_fetcher_agent.py],
    [agents/base_agent.py], [agents/summarizer_agent.py],
    [agents/compiler_agent.py], [config.py], [orchestrator.py] and the
    selection made by [export_latest_digest.py], followed by the
    properties of the pipeline.

    Articles are Python dicts with string values, modelled as
    [gmap string string].  A Python [str] is held as its UTF-8 bytes;
    [len], slices, [strip] and [int] work on its characters, as in
    Python 3.11.  Python exceptions are values of [exn]; a computation
    that may raise returns a [res].  Code that prints, reads the clock
    or calls a collaborator (feed parser, chat completion client) runs
    in the monad [M], a state monad over the outside world and the lines
    printed so far, with exceptions. *)

From Stdlib Require Import ZArith NArith QArith String Ascii List Lia Bool Permutation Sorted
  SpecFloat.
From stdpp Require Import base option gmap strings list sorting pretty.

Local Open Scope string_scope.
Local Open Scope list_scope.
Local Open Scope Z_scope.

(** ** Exceptions and results *)

Inductive exn : Type :=
| KeyError (key : string)
| ValueError (msg : string)
| TypeError (msg : string)
| OverflowError (msg : string)
| Exception (msg : string).

(** [str(e)] *)
Definition str_exn (e : exn) : string :=
  match e with
  | KeyError key => "'" +:+ key +:+ "'"
  | ValueError msg | TypeError msg | OverflowError msg | Exception msg => msg
  end.

Inductive res (A : Type) : Type :=
| Ok (a : A)
| Raise (e : exn).
Arguments Ok {A} a.
Arguments Raise {A} e.

#[global] Instance exn_eq_dec : EqDecision exn.
Proof. solve_decision. Defined.

#[global] Instance res_eq_dec {A} `{EqDecision A} : EqDecision (res A).
Proof. solve_decision. Defined.

(** Sequencing in [res]: the first exception raised ends the computation. *)
Definition bind_res {A B} (r : res A) (f : A -> res B) : res B :=
  match r with
  | Ok a => f a
  | Raise e => Raise e
  end.

Declare Scope res_scope.
Delimit Scope res_scope with res.
Notation "'let*' x ':=' c 'in' k" := (bind_res c (fun x => k))
  (at level 10, x name, c at level 100, k at level 200) : res_scope.
Local Open Scope res_scope.

(** ** Python built-ins on strings, lists and dicts *)

(** An article, a feed entry, a feed header: a dict with string values. *)
Abbreviation dict := (gmap string string).

(** [d[key]] *)
Definition getitem (d : dict) (key : string) : res string :=
  match d !! key with
  | Some v => Ok v
  | None => Raise (KeyError key)
  end.

(** [d.get(key, default)] *)
Definition get (d : dict) (key default : string) : string :=
  match d !! key with
  | Some v => v
  | None => default
  end.

(** [l[:n]], for any integer [n]: a negative bound counts from the end. *)
Definition slice_to {A} (l : list A) (n : Z) : list A :=
  if 0 <=? n then firstn (Z.to_nat n) l
  else firstn (length l - Z.to_nat (- n)) l.

(** [l.remove(x)]: drops the first element equal to [x]. *)
Fixpoint list_remove {A} `{EqDecision A} (x : A) (l : list A) : res (list A) :=
  match l with
  | [] => Raise (ValueError "list.remove(x): x not in list")
  | y :: l' =>
      if decide (y = x) then Ok l'
      else let* l'' := list_remove x l' in Ok (y :: l'')
  end.

(** ** Text

    A Python [str] is a sequence of code points; a [string] holds its
    UTF-8 encoding, one or more bytes for each code point. *)

(** A byte that continues the encoding of a code point. *)
Definition is_continuation (c : ascii) : bool :=
  let n := nat_of_ascii c in ((128 <=? n) && (n <? 192))%nat.

(** The characters of a text, each with all its bytes: a byte of ASCII is
    a character, any other byte takes the continuation bytes that follow
    it. *)
Fixpoint chars (s : string) : list string :=
  match s with
  | EmptyString => []
  | String c s' =>
      match chars s' with
      | ch :: chs =>
          if (128 <=? nat_of_ascii c)%nat
             && match ch with String c' _ => is_continuation c' | EmptyString => false end
          then String c ch :: chs
          else String c EmptyString :: ch :: chs
      | [] => [String c EmptyString]
      end
  end.

(** [ord(ch)] for a character given by its bytes; a sequence of bytes
    that encodes no code point gets a number beyond all code points. *)
Definition ord (ch : string) : N :=
  let byte c := N_of_ascii c in
  let cont c := (byte c - 128)%N in
  match ch with
  | String a EmptyString =>
      if (byte a <? 128)%N then byte a else 0x110000%N
  | String a (String b EmptyString) =>
      if ((192 <=? byte a) && (byte a <? 224))%N
      then ((byte a - 192) * 64 + cont b)%N else 0x110000%N
  | String a (String b (String c EmptyString)) =>
      if ((224 <=? byte a) && (byte a <? 240))%N
      then ((byte a - 224) * 4096 + cont b * 64 + cont c)%N else 0x110000%N
  | String a (String b (String c (String d EmptyString))) =>
      if ((240 <=? byte a) && (byte a <? 248))%N
      then ((byte a - 240) * 262144 + cont b * 4096 + cont c * 64 + cont d)%N
      else 0x110000%N
  | _ => 0x110000%N
  end.

(** [len(s)] *)
Definition len (s : string) : Z := Z.of_nat (length (chars s)).

(** [s[:n]] for a count [n] that is not negative. *)
Definition str_slice_to (n : nat) (s : string) : string :=
  String.concat "" (firstn n (chars s)).

(** The code points for which [str.isspace] holds. *)
Definition WHITESPACE : list N :=
  [ 0x9; 0xA; 0xB; 0xC; 0xD; 0x1C; 0x1D; 0x1E; 0x1F; 0x20; 0x85; 0xA0; 0x1680;
    0x2000; 0x2001; 0x2002; 0x2003; 0x2004; 0x2005; 0x2006; 0x2007; 0x2008;
    0x2009; 0x200A; 0x2028; 0x2029; 0x202F; 0x205F; 0x3000 ]%N.

Definition isspace (ch : string) : bool := bool_decide (ord ch ∈ WHITESPACE).

Fixpoint lstrip_chars (l : list string) : list string :=
  match l with
  | ch :: l' => if isspace ch then lstrip_chars l' else l
  | [] => []
  end.

(** [s.strip()] *)
Definition strip (s : string) : string :=
  String.concat "" (reverse (lstrip_chars (reverse (lstrip_chars (chars s))))).

(** The first code point of each run of ten decimal digits, in Unicode
    14.0, the database of Python 3.11. *)
Definition DECIMAL_DIGITS : list N :=
  [
    0x30; 0x660; 0x6F0; 0x7C0; 0x966; 0x9E6; 0xA66; 0xAE6; 0xB66; 0xBE6;
    0xC66; 0xCE6; 0xD66; 0xDE6; 0xE50; 0xED0; 0xF20; 0x1040; 0x1090; 0x17E0;
    0x1810; 0x1946; 0x19D0; 0x1A80; 0x1A90; 0x1B50; 0x1BB0; 0x1C40; 0x1C50;
    0xA620; 0xA8D0; 0xA900; 0xA9D0; 0xA9F0; 0xAA50; 0xABF0; 0xFF10; 0x104A0;
    0x10D30; 0x11066; 0x110F0; 0x11136; 0x111D0; 0x112F0; 0x11450; 0x114D0;
    0x11650; 0x116C0; 0x11730; 0x118E0; 0x11950; 0x11C50; 0x11D50; 0x11DA0;
    0x16A60; 0x16AC0; 0x16B50; 0x1D7CE; 0x1D7D8; 0x1D7E2; 0x1D7EC; 0x1D7F6;
    0x1E140; 0x1E2F0; 0x1E950; 0x1FBF0 ]%N.

(** The value of a decimal digit. *)
Definition decimal (cp : N) : option N :=
  match find (fun first => (first <=? cp) && (cp <? first + 10))%N DECIMAL_DIGITS with
  | Some first => Some (cp - first)%N
  | None => None
  end.

(** What [int] makes of a character before it parses: a character of
    ASCII stays, a space becomes a blank, a decimal digit becomes the
    ASCII digit of its value and any other character a question mark. *)
Definition to_ascii (ch : string) : ascii :=
  let cp := ord ch in
  if (cp <? 128)%N then ascii_of_N cp
  else if isspace ch then " "%char
  else match decimal cp with
       | Some d => ascii_of_N (48 + d)
       | None => "?"%char
       end.

(** The white space that the parser of [int] skips. *)
Definition Py_ISSPACE (c : ascii) : bool :=
  let n := nat_of_ascii c in
  ((9 <=? n) && (n <=? 13) || (n =? 32))%nat.

Fixpoint skip_spaces (s : list ascii) : list ascii :=
  match s with
  | c :: s' => if Py_ISSPACE c then skip_spaces s' else s
  | [] => []
  end.

Definition digit_of (c : ascii) : option Z :=
  let n := nat_of_ascii c in
  if ((48 <=? n) && (n <=? 57))%nat then Some (Z.of_nat (n - 48)) else None.

(** The run of digits and underscores at the start of [s]: the number of
    digits, their value and the rest of [s], or nothing when two
    underscores meet or an underscore ends the run.  [prev] tells whether
    the previous character was an underscore. *)
Fixpoint scan_digits (s : list ascii) (prev : bool) (digits : Z) (acc : Z)
    : option (Z * Z * list ascii) :=
  match s with
  | [] => if prev then None else Some (digits, acc, [])
  | c :: s' =>
      match digit_of c with
      | Some d => scan_digits s' false (digits + 1) (10 * acc + d)
      | None =>
          if Ascii.eqb c "_" then (if prev then None else scan_digits s' true digits acc)
          else if prev then None else Some (digits, acc, s)
      end
  end.

(** [sys.get_int_max_str_digits()] *)
Definition MAX_STR_DIGITS : Z := 4300.

(** The sign in front of the digits. *)
Definition split_sign (buffer : list ascii) : bool * list ascii :=
  match buffer with
  | "-"%char :: t => (true, t)
  | "+"%char :: t => (false, t)
  | t => (false, t)
  end.

(** The parser of [int], on the characters that [to_ascii] gives for the
    text [s]: white space around an optional sign and decimal digits with
    single underscores between them; more than 4300 digits are
    refused. *)
Definition parse_int (s : string) (buffer : list ascii) : res Z :=
  let invalid :=
    Raise (ValueError ("invalid literal for int() with base 10: '" +:+ s +:+ "'")) in
  let '(negative, buffer) := split_sign (skip_spaces buffer) in
  if match buffer with c :: _ => Ascii.eqb c "_" | [] => false end then invalid
  else
    match scan_digits buffer false 0 0 with
    | None => invalid
    | Some (digits, n, rest) =>
        if MAX_STR_DIGITS <? digits then
          Raise (ValueError
                   ("Exceeds the limit (4300 digits) for integer string conversion: value has "
                    +:+ pretty digits
                    +:+ " digits; use sys.set_int_max_str_digits() to increase the limit"))
        else if digits =? 0 then invalid
        else match skip_spaces rest with
             | [] => Ok (if negative then - n else n)
             | _ => invalid
             end
    end.

(** [int(s)] *)
Definition int (s : string) : res Z := parse_int s (to_ascii <$> chars s).

(** [str(n)] for an int: the decimal digits, refused when there are more
    than 4300. *)
Definition str_int (n : Z) : res string :=
  if 10 ^ MAX_STR_DIGITS <=? Z.abs n then
    Raise (ValueError
             "Exceeds the limit (4300 digits) for integer string conversion; use sys.set_int_max_str_digits() to increase the limit")
  else Ok (pretty n).

(** [sub in s] *)
Fixpoint contains (sub s : string) : bool :=
  String.prefix sub s ||
  match s with
  | EmptyString => false
  | String _ s' => contains sub s'
  end.

(** [s.split(",")] *)
Fixpoint split_comma (s : string) : list string :=
  match s with
  | EmptyString => [EmptyString]
  | String c s' =>
      if Ascii.eqb c "," then EmptyString :: split_comma s'
      else match split_comma s' with
           | piece :: pieces => String c piece :: pieces
           | [] => [String c EmptyString]
           end
  end.

(** ** Floats *)

(** [float(n)] for an int: the nearest double, ties to even; the ints
    that round to [2 ** 1024] or beyond are refused. *)
Definition float_of_int (n : Z) : res spec_float :=
  if 2 ^ 1024 - 2 ^ 970 <=? Z.abs n
  then Raise (OverflowError "int too large to convert to float")
  else Ok (binary_normalize 53 1024 n 0 false).

(** The double [1.5]. *)
Definition float_1_5 : spec_float := S754_finite false 3 (-1).

(** [n <= x] for an int and a float: the comparison is exact. *)
Definition int_le_float (n : Z) (x : spec_float) : bool :=
  match x with
  | S754_zero _ => n <=? 0
  | S754_infinity s => negb s
  | S754_nan => false
  | S754_finite s m e =>
      let v := if s then Z.neg m else Z.pos m in
      if 0 <=? e then n <=? v * 2 ^ e else n * 2 ^ (- e) <=? v
  end.

(** [n <= count * 1.5] *)
Definition le_one_and_a_half (n count : Z) : res bool :=
  match float_of_int count with
  | Ok x => Ok (int_le_float n (SFmul 53 1024 x float_1_5))
  | Raise e => Raise e
  end.

(** [sep.join(pieces)] *)
Fixpoint join (sep : string) (pieces : list string) : string :=
  match pieces with
  | [] => ""
  | [p] => p
  | p :: ps => p +:+ sep +:+ join sep ps
  end.

(** The newline character of the prompts. *)
Definition nl : string := String (ascii_of_nat 10) EmptyString.

(** ** [config.py]

    The ints of the settings have a few digits; where the program
    prints one of them the embedding uses [pretty], without the limit of
    [str]. *)

Record Config : Type := {
  OPENAI_MODEL : string;
  rss_feeds : list string;
  MAX_ARTICLES : Z;
  SUMMARY_LENGTH : string;
  DIGEST_FORMAT : string;
  ARTICLES_PER_SOURCE : Z;
  DEDUPLICATION_THRESHOLD : Q;
  SMART_RANKING_ENABLED : bool;
  MAX_ARTICLE_AGE_DAYS : Z;
  MAX_EXECUTION_TIME_SECONDS : Z;
  MAX_FEEDS_TO_PROCESS : Z;
  API_CALL_TIMEOUT_SECONDS : Z;
  OUTPUT_DIRECTORY : string;
  OUTPUT_FILENAME_PREFIX : string
}.

(** The settings of the repository.  The threshold is the double nearest
    to 0.85. *)
Definition config_py : Config := {|
  OPENAI_MODEL := "gpt-4o-mini";
  rss_feeds :=
    [ "https://www.artificialintelligence-news.com/feed/";
      "https://www.marktechpost.com/feed/";
      "https://venturebeat.com/category/ai/feed/";
      "https://techcrunch.com/category/artificial-intelligence/feed/";
      "https://www.theverge.com/ai-artificial-intelligence/rss/index.xml" ];
  MAX_ARTICLES := 10;
  SUMMARY_LENGTH := "concise";
  DIGEST_FORMAT := "markdown";
  ARTICLES_PER_SOURCE := 5;
  DEDUPLICATION_THRESHOLD := (7656119366529843 # 9007199254740992)%Q;
  SMART_RANKING_ENABLED := true;
  MAX_ARTICLE_AGE_DAYS := 7;
  MAX_EXECUTION_TIME_SECONDS := 300;
  MAX_FEEDS_TO_PROCESS := 5;
  API_CALL_TIMEOUT_SECONDS := 30;
  OUTPUT_DIRECTORY := "ai_news_digests";
  OUTPUT_FILENAME_PREFIX := "ai_news_digest_"
|}.

(** ** [datetime] and [timedelta] values

    A [datetime] carries its calendar fields; [tzinfo] is [None] for a
    naive value and the UTC offset in seconds for an aware one. *)

Record datetime : Type := {
  year : Z; month : Z; day : Z;
  hour : Z; minute : Z; second : Z; microsecond : Z;
  tzinfo : option Z
}.

(** A [timedelta] is kept normalised as Python does:
    [0 <= seconds < 86400] and [0 <= microseconds < 1000000]. *)
Record timedelta : Type := { days : Z; seconds : Z; microseconds : Z }.

Definition us_per_second : Z := 1000000.
Definition us_per_day : Z := 86400 * us_per_second.

(** The length of a [timedelta] in microseconds. *)
Definition total_us (d : timedelta) : Z :=
  (days d * 86400 + seconds d) * us_per_second + microseconds d.

(** [timedelta(d, s, us)] *)
Definition mk_timedelta (d s us : Z) : timedelta :=
  let total := (d * 86400 + s) * us_per_second + us in
  {| days := total / us_per_day;
     seconds := (total mod us_per_day) / us_per_second;
     microseconds := (total mod us_per_day) mod us_per_second |}.

Definition is_leap (y : Z) : bool :=
  (y mod 4 =? 0) && (negb (y mod 100 =? 0) || (y mod 400 =? 0)).

Definition days_before_year (y : Z) : Z :=
  let y := y - 1 in y * 365 + y / 4 - y / 100 + y / 400.

Definition days_before_month (y m : Z) : Z :=
  nth (Z.to_nat m) [-1; 0; 31; 59; 90; 120; 151; 181; 212; 243; 273; 304; 334] 0
  + (if (2 <? m) && is_leap y then 1 else 0).

(** [d.toordinal()] *)
Definition toordinal (d : datetime) : Z :=
  days_before_year (year d) + days_before_month (year d) (month d) + day d.

(** Microseconds from the start of day 0 to the calendar fields of [d],
    the offset left aside. *)
Definition naive_us (d : datetime) : Z :=
  (toordinal d * 86400 + hour d * 3600 + minute d * 60 + second d) * us_per_second
  + microsecond d.

(** [d.replace(tzinfo=None)] *)
Definition replace_tzinfo_None (d : datetime) : datetime :=
  {| year := year d; month := month d; day := day d;
     hour := hour d; minute := minute d; second := second d;
     microsecond := microsecond d; tzinfo := None |}.

(** [datetime.min] *)
Definition datetime_min : datetime :=
  {| year := 1; month := 1; day := 1; hour := 0; minute := 0; second := 0;
     microsecond := 0; tzinfo := None |}.

(** [a - b] on datetimes: the difference of the calendar fields when both
    are naive, of the instants when both are aware, an error otherwise. *)
Definition datetime_sub (a b : datetime) : res timedelta :=
  let base :=
    mk_timedelta (toordinal a - toordinal b)
      ((second a + minute a * 60 + hour a * 3600) - (second b + minute b * 60 + hour b * 3600))
      (microsecond a - microsecond b) in
  match tzinfo a, tzinfo b with
  | None, None => Ok base
  | Some myoff, Some otoff =>
      Ok (mk_timedelta (days base) (seconds base + otoff - myoff) (microseconds base))
  | _, _ => Raise (TypeError "can't subtract offset-naive and offset-aware datetimes")
  end.

(** [a < b] on datetimes with fields in range: naive values are ordered by
    their fields, aware values by their instants, and a naive value cannot
    be compared with an aware one. *)
Definition datetime_lt (a b : datetime) : res bool :=
  match tzinfo a, tzinfo b with
  | None, None => Ok (naive_us a <? naive_us b)
  | Some myoff, Some otoff =>
      Ok (naive_us a - myoff * us_per_second <? naive_us b - otoff * us_per_second)
  | _, _ => Raise (TypeError "can't compare offset-naive and offset-aware datetimes")
  end.

(** ** The outside world

    What the program does not define itself: the clock, the date parser of
    [dateutil], the similarity ratio of [difflib.SequenceMatcher], the feed
    parser, the chat completion client and the file system ([write_file]
    creates the directory and writes the file).  Reading the clock does not
    change the world; a call to a collaborator may. [date_parser_parse]
    reads the world because [dateutil] completes a partial date from the
    current day.  [lower] is [str.lower], which follows the case mappings
    of the Unicode database of the interpreter. *)

(** The value of [feedparser.parse(url)]: [feed.feed] and [feed.entries]. *)
Record Feed : Type := { feed : dict; entries : list dict }.

Class Env : Type := {
  World : Type;
  datetime_now : World -> datetime;
  datetime_now_naive : forall w, tzinfo (datetime_now w) = None;
  time_time : World -> Q;
  date_parser_parse : string -> World -> res datetime;
  SequenceMatcher_ratio : string -> string -> Q;
  lower : string -> string;
  feedparser_parse : string -> World -> res Feed * World;
  chat_completions_create :
    forall (model instructions task : string) (timeout : Z), World -> res string * World;
  write_file : forall (path content : string), World -> res unit * World
}.

(** ** The monad of the program *)

(** The phases of the workflow, in the order of the coordinator. *)
Inductive phase : Type :=
| Collect | FilterByCriteria | Summarize | IdentifyThemes | Compile | Persist.

#[global] Instance phase_eq_dec : EqDecision phase.
Proof. solve_decision. Defined.

(** What the coordinator does between the phases: it checks the elapsed
    time, and it announces a phase and enters it.  Each event carries the
    world in which it happens; a check carries its outcome. *)
Inductive event `{Env} : Type :=
| Checked (w : World) (exceeded : bool)
| Entered (p : phase) (w : World).

(** The state: the outside world, the lines printed, and the events of the
    coordinator so far. *)
Record State `{Env} : Type := {
  world : World;
  stdout : list string;
  trace : list event
}.

Definition M `{Env} (A : Type) : Type := State -> res A * State.

Definition ret `{Env} {A} (a : A) : M A := fun st => (Ok a, st).

Definition bind `{Env} {A B} (m : M A) (f : A -> M B) : M B := fun st =>
  match m st with
  | (Ok a, st') => f a st'
  | (Raise e, st') => (Raise e, st')
  end.

Declare Scope M_scope.
Delimit Scope M_scope with M.
Notation "'let*' x ':=' c 'in' k" := (bind c (fun x => k))
  (at level 10, x name, c at level 100, k at level 200) : M_scope.

Section Primitives.
Context `{Env}.
Local Open Scope M_scope.

(** [raise e], and the result of a pure computation. *)
Definition lift {A} (r : res A) : M A := fun st => (r, st).

(** [print(line)] *)
Definition print (line : string) : M unit := fun st =>
  (Ok tt, {| world := world st; stdout := stdout st ++ [line]; trace := trace st |}).

(** Reading the world. *)
Definition observe {A} (f : World -> A) : M A := fun st => (Ok (f (world st)), st).

(** [date_parser.parse(s)] *)
Definition parse_date (s : string) : M datetime := fun st =>
  (date_parser_parse s (world st), st).

(** Calling a collaborator. *)
Definition call {A} (f : World -> res A * World) : M A := fun st =>
  let '(r, w) := f (world st) in
  (r, {| world := w; stdout := stdout st; trace := trace st |}).

(** Recording an event of the coordinator. *)
Definition record (e : event) : M unit := fun st =>
  (Ok tt, {| world := world st; stdout := stdout st; trace := trace st ++ [e] |}).

(** The banner [print(">>> PHASE n: ...")] of the coordinator. *)
Definition enter (p : phase) : M unit := fun st => record (Entered p (world st)) st.

(** [try: body  except Exception as e: handler e] *)
Definition try_except {A} (body : M A) (handler : exn -> M A) : M A := fun st =>
  match body st with
  | (Ok a, st') => (Ok a, st')
  | (Raise e, st') => handler e st'
  end.
End Primitives.

(** ** [agents/base_agent.py] *)

Section BaseAgent.
Context `{Env} (config : Config).
Local Open Scope M_scope.

(** [BaseAgent.execute(task)], for an agent with the given system
    instructions.  No caller passes a [context], so the message of the
    user is the task.  Whatever the client raises becomes an error
    string. *)
Definition execute (instructions task : string) : M string :=
  try_except
    (call (chat_completions_create (OPENAI_MODEL config) instructions task
             (API_CALL_TIMEOUT_SECONDS config)))
    (fun e =>
       let error_msg := str_exn e in
       if contains "timeout" (lower error_msg)
       then ret ("Error: API call timed out after "
                  +:+ pretty (API_CALL_TIMEOUT_SECONDS config) +:+ " seconds")
       else ret ("Error executing task: " +:+ error_msg)).
End BaseAgent.

(** ** [agents/news_fetcher_agent.py] *)

Definition AI_KEYWORDS : list string :=
  [ "ai"; "artificial intelligence"; "machine learning"; "ml"; "deep learning";
    "neural network"; "llm"; "large language model"; "gpt"; "openai"; "claude";
    "gemini"; "chatbot"; "generative ai"; "gen ai"; "transformer"; "nlp";
    "natural language processing"; "computer vision"; "reinforcement learning";
    "ai model"; "ai tool"; "ai research"; "ai ethics"; "agi"; "ai safety";
    "anthropic"; "deepmind"; "hugging face"; "stable diffusion"; "midjourney";
    "ai agent"; "autonomous"; "neural"; "embeddings"; "vector database";
    "ai startup"; "ai investment"; "ai regulation"; "ai policy" ].

Definition fetcher_name : string := "AI News Fetcher".

Definition fetcher_instructions : string :=
  join nl
    [ "You are an AI news collection specialist. Your role is to:";
      "1. Fetch ONLY AI-related news articles from various RSS feeds and sources";
      "2. Filter and validate articles for AI/ML relevance and quality";
      "3. Focus exclusively on artificial intelligence, machine learning, AI tools, and AI research news";
      "4. Extract key metadata (title, description, publication date, source)";
      "5. Return structured data about AI news articles only";
      "You prioritize credible tech sources and recent AI developments." ].

(** [_is_ai_related(article_data)] *)
Definition _is_ai_related `{Env} (article_data : dict) : bool :=
  let title := lower (get article_data "title" "") in
  let description := lower (get article_data "description" "") in
  let combined_text := title +:+ " " +:+ description in
  existsb (fun keyword => contains keyword combined_text) AI_KEYWORDS.

Section Recency.
Context `{Env} (config : Config).
Local Open Scope M_scope.

(** [_is_article_recent(published_date, max_age_days)].  The date is
    [None] when the caller passes [None]; [not published_date] holds for
    [None] and for the empty string. *)
Definition _is_article_recent
    (published_date : option string) (max_age_days : option Z) : M bool :=
  let max_age_days :=
    match max_age_days with
    | None => MAX_ARTICLE_AGE_DAYS config
    | Some n => n
    end in
  match published_date with
  | None => ret false
  | Some published_date =>
      if String.eqb published_date "" || String.eqb published_date "Unknown date"
      then ret false
      else
        try_except
          (let* article_date := parse_date published_date in
           let* current_date := observe datetime_now in
           let article_date :=
             match tzinfo article_date with
             | Some _ => replace_tzinfo_None article_date
             | None => article_date
             end in
           let* age := lift (datetime_sub current_date article_date) in
           ret (days age <=? max_age_days))
          (fun e =>
             let* _ := print ("  [!] Could not parse date '" +:+ published_date
                         +:+ "': " +:+ str_exn e) in
             ret false)
  end.
End Recency.

(** [x > y] on the rationals that stand for Python floats. *)
Definition Qgt_bool (x y : Q) : bool := negb (Qle_bool x y).

(** *** [_deduplicate_articles] *)

(** The variables of the loop: the result list, the set of seen links and
    the counter of removed duplicates. *)
Record dedup_vars : Type := {
  deduplicated : list dict;
  seen_urls : gset string;
  duplicates_removed : Z
}.

Section Deduplicator.
Context `{Env} (config : Config).

(** [title_similarity(title1, title2)] *)
Definition title_similarity (title1 title2 : string) : Q :=
  SequenceMatcher_ratio (lower title1) (lower title2).

(** The inner loop [for existing in deduplicated], over the items [todo]
    still to visit.  The boolean is [is_duplicate]; the loop stops at the
    first item whose title is similar enough. *)
Fixpoint dedup_scan (article : dict) (url title : string)
    (todo : list dict) (v : dedup_vars) : res (dedup_vars * bool) :=
  match todo with
  | [] => Ok (v, false)
  | existing :: todo' =>
      let* existing_title := getitem existing "title" in
      let similarity := title_similarity title existing_title in
      if Qgt_bool similarity (DEDUPLICATION_THRESHOLD config) then
        let* description := getitem article "description" in
        let* existing_description := getitem existing "description" in
        if len existing_description <? len description then
          let* without := list_remove existing (deduplicated v) in
          Ok ({| deduplicated := without ++ [article];
                 seen_urls := seen_urls v ∪ {[ url ]};
                 duplicates_removed := duplicates_removed v + 1 |}, true)
        else
          Ok ({| deduplicated := deduplicated v;
                 seen_urls := seen_urls v;
                 duplicates_removed := duplicates_removed v + 1 |}, true)
      else dedup_scan article url title todo' v
  end.

(** The body of the outer loop, for one incoming article. *)
Definition dedup_step (v : dedup_vars) (article : dict) : res dedup_vars :=
  let* url := getitem article "link" in
  let* title := getitem article "title" in
  if decide (url ∈ seen_urls v) then
    Ok {| deduplicated := deduplicated v;
          seen_urls := seen_urls v;
          duplicates_removed := duplicates_removed v + 1 |}
  else
    let* scanned := dedup_scan article url title (deduplicated v) v in
    let '(v', is_duplicate) := scanned in
    if is_duplicate then Ok v'
    else Ok {| deduplicated := deduplicated v' ++ [article];
               seen_urls := seen_urls v' ∪ {[ url ]};
               duplicates_removed := duplicates_removed v' |}.

(** The outer loop [for article in articles]. *)
Fixpoint dedup_loop (articles : list dict) (v : dedup_vars) : res dedup_vars :=
  match articles with
  | [] => Ok v
  | article :: articles' => let* v' := dedup_step v article in dedup_loop articles' v'
  end.

Definition dedup_init : dedup_vars :=
  {| deduplicated := []; seen_urls := ∅; duplicates_removed := 0 |}.

(** [_deduplicate_articles(articles)].  The two progress lines it prints
    are left out. *)
Definition _deduplicate_articles (articles : list dict) : res (list dict) :=
  let* v := dedup_loop articles dedup_init in
  Ok (deduplicated v).
End Deduplicator.

(** *** [_rank_articles_efficiently] *)

(** [len(l)] on lists. *)
Definition llen {A} (l : list A) : Z := Z.of_nat (length l).

(** [sorted(items, key=..., reverse=True)] once the keys are computed: a
    stable sort by decreasing key.  An item is inserted before the first
    item whose key is not greater, so items with equal keys keep their
    order.  Comparing a naive key with an aware one raises. *)
Fixpoint insert_desc (x : datetime * dict) (l : list (datetime * dict))
    : res (list (datetime * dict)) :=
  match l with
  | [] => Ok [x]
  | y :: l' =>
      let* smaller := datetime_lt (fst x) (fst y) in
      if smaller then let* l'' := insert_desc x l' in Ok (y :: l'')
      else Ok (x :: y :: l')
  end.

Fixpoint sort_desc (l : list (datetime * dict)) : res (list (datetime * dict)) :=
  match l with
  | [] => Ok []
  | x :: l' => let* s := sort_desc l' in insert_desc x s
  end.

(** [[int(num.strip()) - 1 for num in pieces]] *)
Fixpoint parse_indices (pieces : list string) : res (list Z) :=
  match pieces with
  | [] => Ok []
  | num :: pieces' =>
      let* n := int (strip num) in
      let* ns := parse_indices pieces' in
      Ok (n - 1 :: ns)
  end.

(** [[articles[i] for i in selected_indices if 0 <= i < len(articles)]] *)
Definition select_indices (articles : list dict) (selected_indices : list Z) : list dict :=
  omap (fun i => if (0 <=? i) && (i <? llen articles)
                 then articles !! Z.to_nat i else None)
       selected_indices.

(** The numbered lines of the ranking prompt, from number [i + 1] on:
    [f"{i+1}. [{article['source']}] {article['title']}"]. *)
Fixpoint ranking_lines (i : Z) (articles : list dict) : res (list string) :=
  match articles with
  | [] => Ok []
  | article :: articles' =>
      let* source := getitem article "source" in
      let* title := getitem article "title" in
      let* lines := ranking_lines (i + 1) articles' in
      Ok ((pretty (i + 1) +:+ ". [" +:+ source +:+ "] " +:+ title) :: lines)
  end.

Definition ranking_task (n target_count : Z) (articles_text : string) : string :=
  join nl
    [ "Rank these " +:+ pretty n +:+ " AI news articles. Select the top "
        +:+ pretty target_count +:+ " most newsworthy.";
      "";
      "Consider:";
      "- Breaking news and major announcements";
      "- Significant research breakthroughs";
      "- Important industry developments";
      "- Diverse topics (don't pick all from one category)";
      "- Source credibility and variety";
      "";
      "AI Articles:";
      articles_text;
      "";
      "Return ONLY the article numbers (comma-separated) of the top "
        +:+ pretty target_count +:+ " most newsworthy articles, in order of importance.";
      "Example format: 1,5,12,3,8,15,22,9,11,19" ].

Section Selector.
Context `{Env} (config : Config).
Local Open Scope M_scope.

(** The sort key of Tier 1:
    [date_parser.parse(x['published']) if x['published'] != "Unknown date"
     else datetime.min] *)
Definition sort_key (x : dict) : M datetime :=
  let* published := lift (getitem x "published") in
  if negb (String.eqb published "Unknown date") then parse_date published
  else ret datetime_min.

(** The keys of all items, computed in order before any comparison. *)
Fixpoint with_keys (articles : list dict) : M (list (datetime * dict)) :=
  match articles with
  | [] => ret []
  | x :: articles' =>
      let* k := sort_key x in
      let* ks := with_keys articles' in
      ret ((k, x) :: ks)
  end.

(** [sorted(articles, key=..., reverse=True)] *)
Definition sorted_by_date (articles : list dict) : M (list dict) :=
  let* ks := with_keys articles in
  let* s := lift (sort_desc ks) in
  ret (map snd s).

(** The test of Tier 1:
    [not config.SMART_RANKING_ENABLED or len(articles) <= target_count * 1.5].
    The product is computed in floats, which raises [OverflowError] for
    a count beyond their range, and only when ranking is enabled. *)
Definition tier1 (articles : list dict) (target_count : Z) : res bool :=
  if negb (SMART_RANKING_ENABLED config) then Ok true
  else le_one_and_a_half (llen articles) target_count.

(** [_rank_articles_efficiently(articles, target_count)].  Of the lines
    it prints, the report of the handler is kept. *)
Definition _rank_articles_efficiently
    (articles : list dict) (target_count : Z) : M (list dict) :=
  if llen articles <=? target_count then ret articles
  else
  let* cost_free := lift (tier1 articles target_count) in
  if cost_free then
    try_except
      (let* sorted_articles := sorted_by_date articles in
       ret (slice_to sorted_articles target_count))
      (fun _ => ret (slice_to articles target_count))
  else
    let* lines := lift (ranking_lines 0 articles) in
    let articles_text := join nl lines in
    let task := ranking_task (llen articles) target_count articles_text in
    try_except
      (let* response := execute config fetcher_instructions task in
       let* selected_indices := lift (parse_indices (split_comma response)) in
       let ranked_articles := select_indices articles selected_indices in
       let ranked_articles := slice_to ranked_articles target_count in
       ret ranked_articles)
      (fun e =>
         let* _ := print ("[" +:+ fetcher_name +:+ "] Ranking failed (" +:+ str_exn e
                     +:+ "), using first " +:+ pretty target_count +:+ " articles") in
         ret (slice_to articles target_count)).
End Selector.

(** *** [fetch_news] and [filter_articles] *)

(** [str(n).zfill(width)] *)
Definition zfill (width : nat) (n : Z) : string :=
  let digits := pretty n in
  String.concat "" (repeat "0" (width - String.length digits)) +:+ digits.

(** [d.isoformat()] *)
Definition isoformat (d : datetime) : string :=
  zfill 4 (year d) +:+ "-" +:+ zfill 2 (month d) +:+ "-" +:+ zfill 2 (day d)
  +:+ "T" +:+ zfill 2 (hour d) +:+ ":" +:+ zfill 2 (minute d) +:+ ":" +:+ zfill 2 (second d)
  +:+ (if microsecond d =? 0 then "" else "." +:+ zfill 6 (microsecond d))
  +:+ match tzinfo d with
      | None => ""
      | Some off =>
          let a := Z.abs off in
          (if off <? 0 then "-" else "+")
          +:+ zfill 2 (a / 3600) +:+ ":" +:+ zfill 2 ((a mod 3600) / 60)
          +:+ (if a mod 60 =? 0 then "" else ":" +:+ zfill 2 (a mod 60))
      end.

(** [not s] for an optional string: [None] and the empty string are false. *)
Definition truthy (s : option string) : bool :=
  match s with
  | None => false
  | Some s => negb (String.eqb s "")
  end.

(** The variables of the collection loop that outlive one feed. *)
Record collect_vars : Type := {
  fetched_articles : list dict;
  rejected_old_articles : Z;
  rejected_non_ai_articles : Z
}.

(** The article dict built from a feed entry. *)
Definition new_article (entry : dict) (published_date source_name : string)
    (now : datetime) : dict :=
  list_to_map
    [ ("title", get entry "title" "No Title");
      ("description",
        get entry "summary" (get entry "description" "No description available"));
      ("link", get entry "link" "");
      ("published", published_date);
      ("source", source_name);
      ("fetched_at", isoformat now) ].

(** The numbered lines of the filtering prompt:
    [f"{i+1}. {article['title']} - {article['source']}"]. *)
Fixpoint filter_lines (i : Z) (articles : list dict) : res (list string) :=
  match articles with
  | [] => Ok []
  | article :: articles' =>
      let* title := getitem article "title" in
      let* source := getitem article "source" in
      let* lines := filter_lines (i + 1) articles' in
      Ok ((pretty (i + 1) +:+ ". " +:+ title +:+ " - " +:+ source) :: lines)
  end.

Definition filter_task (criteria articles_text : string) : string :=
  join nl
    [ "Review these AI news articles and select the most relevant ones based on: "
        +:+ criteria;
      "        ";
      "AI Articles:";
      articles_text;
      "";
      "Return only the article numbers (comma-separated) of the most relevant AI articles." ].

Section Collector.
Context `{Env} (config : Config).
Local Open Scope M_scope.

(** The inner loop [for entry in feed.entries].  The variables of the
    loop are passed explicitly, since what was appended before an
    exception stays appended; the first component is the exception that
    ended the loop, if any. *)
Fixpoint collect_entries (source_name : string) (entries : list dict)
    (feed_articles_added : Z) (v : collect_vars) (st : State)
    : option exn * collect_vars * State :=
  match entries with
  | [] => (None, v, st)
  | entry :: entries' =>
      if ARTICLES_PER_SOURCE config <=? feed_articles_added then (None, v, st)
      else
        let published_date :=
          get entry "published" (get entry "updated" "Unknown date") in
        match _is_article_recent config (Some published_date) None st with
        | (Raise e, st') => (Some e, v, st')
        | (Ok false, st') =>
            collect_entries source_name entries' feed_articles_added
              {| fetched_articles := fetched_articles v;
                 rejected_old_articles := rejected_old_articles v + 1;
                 rejected_non_ai_articles := rejected_non_ai_articles v |} st'
        | (Ok true, st') =>
            let article :=
              new_article entry published_date source_name (datetime_now (world st')) in
            if negb (_is_ai_related article) then
              collect_entries source_name entries' feed_articles_added
                {| fetched_articles := fetched_articles v;
                   rejected_old_articles := rejected_old_articles v;
                   rejected_non_ai_articles := rejected_non_ai_articles v + 1 |} st'
            else
              collect_entries source_name entries' (feed_articles_added + 1)
                {| fetched_articles := fetched_articles v ++ [article];
                   rejected_old_articles := rejected_old_articles v;
                   rejected_non_ai_articles := rejected_non_ai_articles v |} st'
        end
  end.

(** The body of the outer loop, for one feed: the [try] block and its
    handler. *)
Definition collect_feed (feed_url : string) (v : collect_vars) (st : State)
    : collect_vars * State :=
  let report (e : exn) (st : State) : State :=
    snd (print ("  [-] Error: " +:+ str_slice_to 50 feed_url +:+ ": " +:+ str_exn e) st) in
  match call (feedparser_parse feed_url) st with
  | (Raise e, st') => (v, report e st')
  | (Ok parsed, st') =>
      let source_name := get (feed parsed) "title" "Unknown Source" in
      match collect_entries source_name (entries parsed) 0 v st' with
      | (Some e, v', st'') => (v', report e st'')
      | (None, v', st'') => (v', st'')
      end
  end.

(** The outer loop [for feed_url in feeds]. *)
Fixpoint collect_feeds (feeds : list string) (v : collect_vars) (st : State)
    : collect_vars * State :=
  match feeds with
  | [] => (v, st)
  | feed_url :: feeds' =>
      let '(v', st') := collect_feed feed_url v st in
      collect_feeds feeds' v' st'
  end.

Definition collect_init : collect_vars :=
  {| fetched_articles := []; rejected_old_articles := 0; rejected_non_ai_articles := 0 |}.

(** Phase 1 of [fetch_news]: the articles collected from all feeds. *)
Definition collect (st : State) : collect_vars * State :=
  let feeds := rss_feeds config in
  let feeds := slice_to feeds (MAX_FEEDS_TO_PROCESS config) in
  collect_feeds feeds collect_init st.

(** [fetch_news(max_articles)] *)
Definition fetch_news (max_articles : option Z) : M (list dict) := fun st =>
  let max_articles :=
    match max_articles with
    | None => MAX_ARTICLES config
    | Some n => n
    end in
  let '(v, st') := collect st in
  let articles := fetched_articles v in
  match articles with
  | [] => (Ok articles, st')
  | _ =>
      (let* articles := lift (_deduplicate_articles config articles) in
       if max_articles <? llen articles
       then _rank_articles_efficiently config articles max_articles
       else ret articles) st'
  end.

(** [filter_articles(articles, criteria)] *)
Definition filter_articles (articles : list dict) (criteria : option string)
    : M (list dict) :=
  if negb (truthy criteria) || (llen articles <=? MAX_ARTICLES config) then ret articles
  else
    let* lines := lift (filter_lines 0 articles) in
    let articles_text := join nl lines in
    let task := filter_task (default "" criteria) articles_text in
    let* response := execute config fetcher_instructions task in
    try_except
      (let* selected_indices := lift (parse_indices (split_comma response)) in
       let filtered := select_indices articles selected_indices in
       ret filtered)
      (fun _ => ret articles).
End Collector.

(** ** [agents/summarizer_agent.py] *)

Definition summarizer_name : string := "AI News Summarizer".

Definition summarizer_instructions : string :=
  join nl
    [ "You are a professional AI news analyst and summarizer. Your role is to:";
      "1. Analyze AI news articles for key information and insights";
      "2. Extract important facts about AI/ML developments, tools, and research";
      "3. Create concise, accurate, and engaging summaries focused on AI advancements";
      "4. Identify key themes and connections between AI stories";
      "5. Maintain objectivity and factual accuracy in AI reporting";
      "6. Write in clear, professional language suitable for busy tech readers";
      "7. Highlight implications for AI industry, developers, and businesses";
      "";
      "For each article, provide:";
      "- A compelling headline (if improving the original)";
      "- A 2-3 sentence summary capturing the essence";
      "- Key points in bullet format";
      "- Why this matters for AI (1 sentence impact statement)" ].

Definition summarize_task (title source description summary_length : string) : string :=
  join nl
    [ "Summarize this AI news article:";
      "";
      "Title: " +:+ title;
      "Source: " +:+ source;
      "Description: " +:+ description;
      "";
      "Provide a " +:+ summary_length +:+ " summary including:";
      "1. Main headline (improve if needed)";
      "2. Brief summary (2-3 sentences)";
      "3. Key points (3-5 bullet points)";
      "4. Impact statement (why this matters)";
      "";
      "Format your response as:";
      "HEADLINE: [headline]";
      "SUMMARY: [summary]";
      "KEY POINTS:";
      "- [point 1]";
      "- [point 2]";
      "- [point 3]";
      "IMPACT: [impact statement]" ].

(** The blocks of the themes prompt:
    [f"Article {i+1}: {article['title']}\n{article.get('ai_summary', article['description'])}"];
    the default of [get] is evaluated first. *)
Fixpoint themes_blocks (i : Z) (articles : list dict) : res (list string) :=
  match articles with
  | [] => Ok []
  | article :: articles' =>
      let* title := getitem article "title" in
      let* description := getitem article "description" in
      let* blocks := themes_blocks (i + 1) articles' in
      Ok (("Article " +:+ pretty (i + 1) +:+ ": " +:+ title +:+ nl
           +:+ get article "ai_summary" description) :: blocks)
  end.

Definition themes_task (articles_text : string) : string :=
  join nl
    [ "Analyze these AI news articles and identify 3-5 major AI themes or trends:";
      "";
      articles_text;
      "";
      "List the themes as bullet points with brief explanations." ].

Section Summarizer.
Context `{Env} (config : Config).
Local Open Scope M_scope.

(** [summarize_article(article)]: [{**article, "ai_summary": summary}]. *)
Definition summarize_article (article : dict) : M dict :=
  let* title := lift (getitem article "title") in
  let* source := lift (getitem article "source") in
  let* description := lift (getitem article "description") in
  let task := summarize_task title source description (SUMMARY_LENGTH config) in
  let* summary := execute config summarizer_instructions task in
  let article_summary := <[ "ai_summary" := summary ]> article in
  ret article_summary.

(** The loop of [summarize_articles], at article number [i] of [total],
    with the list [summarized_articles] built so far.  The progress line
    is kept: it reads [article['title']] outside the [try]. *)
Fixpoint summarize_loop (i total : Z) (articles summarized_articles : list dict)
    : M (list dict) :=
  match articles with
  | [] => ret summarized_articles
  | article :: articles' =>
      let* title := lift (getitem article "title") in
      let* _ := print ("  Processing article " +:+ pretty i +:+ "/" +:+ pretty total
                  +:+ ": " +:+ str_slice_to 50 title +:+ "...") in
      let* summarized_articles :=
        try_except
          (let* summarized := summarize_article article in
           ret (summarized_articles ++ [summarized]))
          (fun e =>
             let* _ := print ("  [-] Error summarizing article: " +:+ str_exn e) in
             ret (summarized_articles ++ [article])) in
      summarize_loop (i + 1) total articles' summarized_articles
  end.

(** [summarize_articles(articles)] *)
Definition summarize_articles (articles : list dict) : M (list dict) :=
  let* _ := print (nl +:+ "[" +:+ summarizer_name +:+ "] Summarizing "
              +:+ pretty (llen articles) +:+ " articles...") in
  let* summarized_articles := summarize_loop 1 (llen articles) articles [] in
  let* _ := print (nl +:+ "[" +:+ summarizer_name +:+ "] Completed summarization of "
              +:+ pretty (llen summarized_articles) +:+ " articles") in
  ret summarized_articles.

(** [identify_themes(articles)] *)
Definition identify_themes (articles : list dict) : M string :=
  let* blocks := lift (themes_blocks 0 articles) in
  let articles_text := join (nl +:+ nl) blocks in
  let task := themes_task articles_text in
  let* themes_response := execute config summarizer_instructions task in
  ret themes_response.
End Summarizer.

(** ** [agents/compiler_agent.py] *)

Definition compiler_name : string := "AI Digest Compiler".

Definition compiler_instructions : string :=
  join nl
    [ "You are a professional AI news editor and content organizer. Your role is to:";
      "1. Organize AI news summaries into a coherent, easy-to-read digest";
      "2. Create engaging introductions highlighting key AI developments";
      "3. Group related AI stories together by theme (e.g., LLMs, tools, research, ethics)";
      "4. Format content for optimal readability for tech professionals";
      "5. Add editorial touches that make AI insights compelling";
      "6. Maintain a professional yet accessible tone for AI enthusiasts";
      "";
      "Create AI news digests that busy tech professionals and AI enthusiasts will actually want to read." ].

(** [d.strftime("%B")] *)
Definition month_name (m : Z) : string :=
  nth (Z.to_nat m)
    [ ""; "January"; "February"; "March"; "April"; "May"; "June"; "July";
      "August"; "September"; "October"; "November"; "December" ] "".

(** [d.strftime("%B %d, %Y")] *)
Definition strftime_long (d : datetime) : string :=
  month_name (month d) +:+ " " +:+ zfill 2 (day d) +:+ ", " +:+ zfill 4 (year d).

(** [d.strftime("%Y-%m-%d %H:%M:%S")] *)
Definition strftime_stamp (d : datetime) : string :=
  zfill 4 (year d) +:+ "-" +:+ zfill 2 (month d) +:+ "-" +:+ zfill 2 (day d) +:+ " "
  +:+ zfill 2 (hour d) +:+ ":" +:+ zfill 2 (minute d) +:+ ":" +:+ zfill 2 (second d).

(** [d.strftime("%Y%m%d_%H%M%S")] *)
Definition strftime_compact (d : datetime) : string :=
  zfill 4 (year d) +:+ zfill 2 (month d) +:+ zfill 2 (day d) +:+ "_"
  +:+ zfill 2 (hour d) +:+ zfill 2 (minute d) +:+ zfill 2 (second d).

(** The article blocks of the compilation prompt, from number [i] on. *)
Fixpoint digest_blocks (i : Z) (articles : list dict) : res (list string) :=
  match articles with
  | [] => Ok []
  | article :: articles' =>
      let* title := getitem article "title" in
      let* source := getitem article "source" in
      let* link := getitem article "link" in
      let* description := getitem article "description" in
      let* blocks := digest_blocks (i + 1) articles' in
      Ok ((nl +:+ "Article " +:+ pretty i +:+ ":" +:+ nl
           +:+ "Title: " +:+ title +:+ nl
           +:+ "Source: " +:+ source +:+ nl
           +:+ "Link: " +:+ link +:+ nl
           +:+ "Summary: " +:+ get article "ai_summary" description +:+ nl) :: blocks)
  end.

Definition digest_task (digest_format articles_content themes : string) : string :=
  join nl
    [ "Compile these AI news articles into a professional, engaging AI news digest.";
      "";
      "Format: " +:+ digest_format;
      "";
      "Articles:";
      articles_content;
      "";
      (if String.eqb themes "" then "" else "Identified Themes: " +:+ themes);
      "";
      "Create a digest with:";
      "1. An engaging title for today's AI news digest";
      "2. A brief introduction (2-3 sentences) highlighting key AI stories";
      "3. Well-organized AI article summaries with clear headers";
      "4. Smooth transitions between AI topics";
      "5. A brief conclusion with key AI takeaways";
      "";
      "Make it informative, scannable, and engaging for AI enthusiasts and tech professionals." ].

(** The story sections of the Markdown digest, from number [i] on. *)
Fixpoint markdown_stories (i : Z) (articles : list dict) : res string :=
  match articles with
  | [] => Ok ""
  | article :: articles' =>
      let summary := get article "ai_summary" "" in
      let* title := getitem article "title" in
      let* source := getitem article "source" in
      let* link := getitem article "link" in
      let* stories := markdown_stories (i + 1) articles' in
      Ok ("### " +:+ pretty i +:+ ". " +:+ title +:+ nl +:+ nl
          +:+ "**Source:** " +:+ source +:+ "  " +:+ nl
          +:+ "**Link:** [" +:+ link +:+ "](" +:+ link +:+ ")" +:+ nl +:+ nl
          +:+ summary +:+ nl +:+ nl
          +:+ "---" +:+ nl +:+ nl
          +:+ stories)
  end.

Section Compiler.
Context `{Env} (config : Config).
Local Open Scope M_scope.

(** [compile_digest(articles, themes)] *)
Definition compile_digest (articles : list dict) (themes : string) : M string :=
  let* blocks := lift (digest_blocks 1 articles) in
  let task := digest_task (DIGEST_FORMAT config) (String.concat "" blocks) themes in
  let* digest := execute config compiler_instructions task in
  ret digest.

(** [format_digest_markdown(articles, themes)] *)
Definition format_digest_markdown (articles : list dict) (themes : string) : M string :=
  let* now := observe datetime_now in
  let current_date := strftime_long now in
  let markdown :=
    "# AI News Digest" +:+ nl +:+ "## " +:+ current_date +:+ nl +:+ nl
    +:+ "---" +:+ nl +:+ nl in
  let markdown :=
    if String.eqb themes "" then markdown
    else markdown +:+ "### Today's Key Themes" +:+ nl +:+ themes +:+ nl +:+ nl
         +:+ "---" +:+ nl +:+ nl in
  let markdown := markdown +:+ "## Top Stories" +:+ nl +:+ nl in
  let* stories := lift (markdown_stories 1 articles) in
  let markdown := markdown +:+ stories in
  let* now := observe datetime_now in
  ret (markdown +:+ nl
       +:+ "*This digest was compiled by AI News Researcher Agent*  " +:+ nl
       +:+ "*Generated on " +:+ strftime_stamp now +:+ "*" +:+ nl).

(** [save_digest(digest)], with the generated file name. *)
Definition save_digest (digest : string) : M string :=
  let* now := observe datetime_now in
  let timestamp := strftime_compact now in
  let filename := OUTPUT_FILENAME_PREFIX config +:+ timestamp +:+ ".md" in
  let filepath := OUTPUT_DIRECTORY config +:+ "/" +:+ filename in
  let* _ := call (write_file filepath digest) in
  ret filepath.
End Compiler.

(** ** [orchestrator.py] *)

Section Orchestrator.
Context `{Env} (config : Config).
Local Open Scope M_scope.

(** The check made between phases:
    [elapsed_time = time.time() - start_time;
     elapsed_time > max_execution_time].  Clock readings are rationals
    and the subtraction is exact. *)
Definition time_limit_exceeded (start_time : Q) : M bool := fun st =>
  (let* now := observe time_time in
   let elapsed_time := (now - start_time)%Q in
   let exceeded :=
     Qgt_bool elapsed_time (inject_Z (MAX_EXECUTION_TIME_SECONDS config)) in
   let* _ := record (Checked (world st) exceeded) in
   ret exceeded) st.

(** Steps 3 to 6 of [run]. *)
Definition run_from_summarize (start_time : Q) (articles : list dict)
    : M (option string) :=
  let* exceeded := time_limit_exceeded start_time in
  if exceeded then ret None else
  let* _ := enter Summarize in
  let* summarized_articles := summarize_articles config articles in
  let* exceeded := time_limit_exceeded start_time in
  if exceeded then ret None else
  let* _ := enter IdentifyThemes in
  let* themes := identify_themes config summarized_articles in
  let* exceeded := time_limit_exceeded start_time in
  if exceeded then ret None else
  let* _ := enter Compile in
  let* digest :=
    (if String.eqb (DIGEST_FORMAT config) "markdown"
     then format_digest_markdown summarized_articles themes
     else compile_digest config summarized_articles themes) in
  let* _ := enter Persist in
  let* filepath := save_digest config digest in
  ret (Some filepath).

(** [max_articles or config.MAX_ARTICLES]: [None] and [0] are false. *)
Definition or_default (max_articles : option Z) (default : Z) : Z :=
  match max_articles with
  | Some n => if n =? 0 then default else n
  | None => default
  end.

(** [run(max_articles, filter_criteria)].  The lines it prints are left
    out; the banner of each phase is recorded by [enter] and each time
    check by [time_limit_exceeded].  The text of the count in the line
    [print(f"[NEWS] Maximum AI articles: {max_articles or config.MAX_ARTICLES}")]
    is still computed, since [str] raises for a count of more than 4300
    digits. *)
Definition run (max_articles : option Z) (filter_criteria : option string)
    : M (option string) :=
  let* start_time := observe time_time in
  let* _ := lift (str_int (or_default max_articles (MAX_ARTICLES config))) in
  let* _ := enter Collect in
  let* articles := fetch_news config max_articles in
  let* exceeded := time_limit_exceeded start_time in
  if exceeded then ret None else
  match articles with
  | [] => ret None
  | _ =>
      if truthy filter_criteria then
        let* exceeded := time_limit_exceeded start_time in
        if exceeded then ret None else
        let* _ := enter FilterByCriteria in
        let* articles := filter_articles config articles filter_criteria in
        run_from_summarize start_time articles
      else run_from_summarize start_time articles
  end.
End Orchestrator.

(** ** A scripted world, for the concrete runs

    The world counts the seconds since the start of the run, holds the
    replies the chat client will give, each with its duration in seconds,
    and the files written.  The run starts on 3 November 2026 at noon.
    The date parser knows the dates of the examples, the ratio is 1 for
    equal strings and 0 otherwise, and every feed fetch takes one
    second. *)

Record Script : Type := {
  elapsed : Z;
  replies : list (res string * Z);
  files : list (string * string)
}.

Definition mk_datetime (y mo d h mi s : Z) (tz : option Z) : datetime :=
  {| year := y; month := mo; day := d; hour := h; minute := mi; second := s;
     microsecond := 0; tzinfo := tz |}.

Definition script_now (w : Script) : datetime :=
  let s := 12 * 3600 + elapsed w in
  mk_datetime 2026 11 3 (s / 3600) ((s mod 3600) / 60) (s mod 60) None.

Definition script_dates : list (string * datetime) :=
  [ ("2026-11-04 09:00:00", mk_datetime 2026 11 4 9 0 0 None);
    ("2026-11-03 08:00:00", mk_datetime 2026 11 3 8 0 0 None);
    ("2026-11-02 08:00:00", mk_datetime 2026 11 2 8 0 0 None);
    ("2026-11-01 08:00:00", mk_datetime 2026 11 1 8 0 0 None);
    ("2026-10-27 00:00:00", mk_datetime 2026 10 27 0 0 0 None);
    ("2026-10-26 00:00:00", mk_datetime 2026 10 26 0 0 0 None);
    ("Mon, 02 Nov 2026 08:00:00 +0000", mk_datetime 2026 11 2 8 0 0 (Some 0));
    ("Tue, 27 Oct 2026 13:00:00 +0100", mk_datetime 2026 10 27 13 0 0 (Some 3600)) ].

Fixpoint assoc {A} (key : string) (table : list (string * A)) : option A :=
  match table with
  | [] => None
  | (k, a) :: table' => if String.eqb k key then Some a else assoc key table'
  end.

Definition script_parse (s : string) (w : Script) : res datetime :=
  match assoc s script_dates with
  | Some d => Ok d
  | None => Raise (ValueError ("Unknown string format: " +:+ s))
  end.

Definition script_ratio (a b : string) : Q :=
  if String.eqb a b then 1%Q else 0%Q.

(** The texts of the scripted world are ASCII texts, in which
    [str.lower] changes the letters A to Z. *)
Definition lower_ascii (c : ascii) : ascii :=
  let n := nat_of_ascii c in
  if ((65 <=? n) && (n <=? 90))%nat then ascii_of_nat (n + 32) else c.

Fixpoint script_lower (s : string) : string :=
  match s with
  | EmptyString => EmptyString
  | String c s' => String (lower_ascii c) (script_lower s')
  end.

Definition entry_of (title summary link published : string) : dict :=
  list_to_map
    [ ("title", title); ("summary", summary); ("link", link); ("published", published) ].

Definition script_feeds : list (string * Feed) :=
  [ ("https://a.example/feed",
      {| feed := {[ "title" := "Feed A" ]};
         entries :=
           [ entry_of "New AI model released" "A new model." "https://a.example/1" "2026-11-03 08:00:00";
             entry_of "Gardening tips" "Roses." "https://a.example/2" "2026-11-03 08:00:00";
             entry_of "LLM benchmark results" "Scores." "https://a.example/3" "2026-11-02 08:00:00";
             entry_of "OpenAI ships update" "An update." "https://a.example/4" "2026-10-26 00:00:00";
             entry_of "Chatbot for schools" "A chatbot." "https://a.example/5" "2026-11-01 08:00:00";
             entry_of "GPT in the lab" "Labs." "https://a.example/6" "2026-11-01 08:00:00" ] |});
    ("https://b.example/feed",
      {| feed := ∅;
         entries :=
           [ entry_of "Deep learning course" "A course." "https://b.example/1" "2026-11-02 08:00:00";
             entry_of "Neural network chips" "Chips." "https://b.example/2" "not a date" ] |}) ].

Definition script_fetch (url : string) (w : Script) : res Feed * Script :=
  let w' := {| elapsed := elapsed w + 1; replies := replies w; files := files w |} in
  match assoc url script_feeds with
  | Some f => (Ok f, w')
  | None => (Raise (Exception ("cannot fetch " +:+ url)), w')
  end.

Definition script_chat (model instructions task : string) (timeout : Z) (w : Script)
    : res string * Script :=
  match replies w with
  | [] => (Raise (Exception "Connection error."), w)
  | (reply, duration) :: rest =>
      (reply, {| elapsed := elapsed w + duration; replies := rest; files := files w |})
  end.

Definition script_write (path content : string) (w : Script) : res unit * Script :=
  (Ok tt, {| elapsed := elapsed w; replies := replies w;
             files := files w ++ [(path, content)] |}).

Definition script_env : Env := {|
  World := Script;
  datetime_now := script_now;
  datetime_now_naive := fun _ => eq_refl;
  time_time := fun w => inject_Z (1793707200 + elapsed w);
  date_parser_parse := script_parse;
  SequenceMatcher_ratio := script_ratio;
  lower := script_lower;
  feedparser_parse := script_fetch;
  chat_completions_create := script_chat;
  write_file := script_write
|}.

(** The state at the start of a run with the given replies. *)
Definition start (rs : list (res string * Z)) : @State script_env :=
  @Build_State script_env {| elapsed := 0; replies := rs; files := [] |} [] [].

(** The events of a scripted run, each world shown by its elapsed
    seconds. *)
Inductive shown : Type :=
| ShownChecked (seconds : Z) (exceeded : bool)
| ShownEntered (p : phase) (seconds : Z).

Definition show (e : @event script_env) : shown :=
  match e with
  | Checked w exceeded => ShownChecked (elapsed w) exceeded
  | Entered p w => ShownEntered p (elapsed w)
  end.

(** The articles and settings of the concrete runs. *)

Definition news (link title description published : string) : dict :=
  list_to_map
    [ ("link", link); ("title", title); ("description", description);
      ("published", published); ("source", "Feed A") ].

Definition news_garbled : dict :=
  news "https://a.example/1" "New AI model released" "A new model." "not a date".
Definition news_nov1 : dict :=
  news "https://a.example/2" "LLM benchmark results" "Scores." "2026-11-01 08:00:00".
Definition news_nov2 : dict :=
  news "https://a.example/3" "Chatbot for schools" "A chatbot." "2026-11-02 08:00:00".
Definition news_undated : dict :=
  news "https://a.example/4" "Neural network chips" "Chips." "Unknown date".

(** The settings of the repository, with the feeds of the scripted world,
    three articles per source and a digest compiled by the chat client. *)
Definition example_config : Config := {|
  OPENAI_MODEL := OPENAI_MODEL config_py;
  rss_feeds :=
    [ "https://a.example/feed"; "https://none.example/feed"; "https://b.example/feed" ];
  MAX_ARTICLES := MAX_ARTICLES config_py;
  SUMMARY_LENGTH := SUMMARY_LENGTH config_py;
  DIGEST_FORMAT := "plain";
  ARTICLES_PER_SOURCE := 3;
  DEDUPLICATION_THRESHOLD := DEDUPLICATION_THRESHOLD config_py;
  SMART_RANKING_ENABLED := SMART_RANKING_ENABLED config_py;
  MAX_ARTICLE_AGE_DAYS := MAX_ARTICLE_AGE_DAYS config_py;
  MAX_EXECUTION_TIME_SECONDS := MAX_EXECUTION_TIME_SECONDS config_py;
  MAX_FEEDS_TO_PROCESS := MAX_FEEDS_TO_PROCESS config_py;
  API_CALL_TIMEOUT_SECONDS := API_CALL_TIMEOUT_SECONDS config_py;
  OUTPUT_DIRECTORY := OUTPUT_DIRECTORY config_py;
  OUTPUT_FILENAME_PREFIX := OUTPUT_FILENAME_PREFIX config_py
|}.

(** Four summaries, the themes and the digest; the digest takes 200
    seconds. *)
Definition slow_digest : list (res string * Z) :=
  [ (Ok "s1", 50); (Ok "s2", 50); (Ok "s3", 50); (Ok "s4", 50);
    (Ok "themes", 50); (Ok "digest", 200) ].

(** The complete run in which the digest is slow, and a run in which the
    fourth summary takes 250 seconds. *)
Definition slow_digest_run : res (option string) * @State script_env :=
  @run script_env example_config None None (start slow_digest).

Definition slow_summary_run : res (option string) * @State script_env :=
  @run script_env example_config None None
    (start [ (Ok "s1", 50); (Ok "s2", 50); (Ok "s3", 50); (Ok "s4", 250) ]).

(** * Vocabulary of the properties *)

Section Vocabulary.
Context `{Env} (config : Config).

(** The age, in microseconds, that the recency filter computes for a
    parsed timestamp: the clock reading minus the calendar fields of the
    timestamp, its offset dropped. *)
Definition age_us (w : World) (d : datetime) : Z :=
  naive_us (datetime_now w) - naive_us d.

(** The bound the recency filter compares with. *)
Definition max_age (max_age_days : option Z) : Z :=
  match max_age_days with
  | None => MAX_ARTICLE_AGE_DAYS config
  | Some n => n
  end.

(** The line printed for a timestamp that cannot be parsed. *)
Definition parse_report (s : string) (e : exn) : string :=
  "  [!] Could not parse date '" +:+ s +:+ "': " +:+ str_exn e.

(** The keys the deduplicator reads. *)
Definition has_dedup_keys (a : dict) : Prop :=
  is_Some (a !! "link") /\ is_Some (a !! "title") /\ is_Some (a !! "description").

(** The links of a list of articles. *)
Definition links (l : list dict) : list (option string) := (.!! "link") <$> l.

(** The state of the deduplication loop in which an incoming article is
    dropped as an exact duplicate. *)
Definition dropped (v : dedup_vars) : dedup_vars :=
  {| deduplicated := deduplicated v;
     seen_urls := seen_urls v;
     duplicates_removed := duplicates_removed v + 1 |}.

(** The invariant of the loop: the links of the result are pairwise
    distinct and all belong to the set of seen links. *)
Definition dedup_inv (v : dedup_vars) : Prop :=
  NoDup (links (deduplicated v))
  /\ forall a, a ∈ deduplicated v ->
       exists u, a !! "link" = Some u /\ u ∈ seen_urls v.

(** A link that the loop has seen but that no item of the result
    carries. *)
Definition retired (u : string) (v : dedup_vars) : Prop :=
  u ∈ seen_urls v /\ Some u ∉ links (deduplicated v).

(** An article with the keys the deduplicator reads. *)
Definition article_of (link title description : string) : dict :=
  list_to_map [ ("link", link); ("title", title); ("description", description) ].

(** The instant by which sort keys of one kind are ordered, in
    microseconds: the calendar fields, less the offset for an aware
    value. *)
Definition instant (d : datetime) : Z :=
  naive_us d - match tzinfo d with
               | Some off => off * us_per_second
               | None => 0
               end.

(** Keys that can be compared with each other: all naive or all aware. *)
Definition comparable (l : list (datetime * dict)) : Prop :=
  Forall (fun x => tzinfo (fst x) = None) l
  \/ Forall (fun x => is_Some (tzinfo (fst x))) l.

(** Ordered by decreasing key. *)
Definition key_ge (x y : datetime * dict) : Prop :=
  instant (fst y) <= instant (fst x).

(** The items of [l] whose key is the instant [t], in their order. *)
Definition with_instant (t : Z) (l : list (datetime * dict)) : list (datetime * dict) :=
  filter (fun x => instant (fst x) = t) l.

(** The sort key of Tier 1 in the world [w]. *)
Definition key_of (w : World) (x : dict) : res datetime :=
  let* published := getitem x "published" in
  if negb (String.eqb published "Unknown date") then date_parser_parse published w
  else Ok datetime_min.

Fixpoint keys_of (w : World) (articles : list dict) : res (list (datetime * dict)) :=
  match articles with
  | [] => Ok []
  | x :: articles' =>
      let* k := key_of w x in
      let* ks := keys_of w articles' in
      Ok ((k, x) :: ks)
  end.

(** Tier 1 as the specification words it: an item whose timestamp does
    not parse gets the minimum time as key, the items are sorted by
    decreasing key and truncated. *)
Definition key_as_specified (w : World) (x : dict) : datetime :=
  match x !! "published" with
  | Some published =>
      match date_parser_parse published w with
      | Ok d => d
      | Raise _ => datetime_min
      end
  | None => datetime_min
  end.

Definition tier1_as_specified (w : World) (articles : list dict) (target_count : Z)
    : list dict :=
  match sort_desc (map (fun x => (key_as_specified w x, x)) articles) with
  | Ok s => slice_to (map snd s) target_count
  | Raise _ => slice_to articles target_count
  end.

(** An int of at most 4300 digits: [str] and [int] accept it. *)
Definition printable (n : Z) : Prop := Z.abs n < 10 ^ MAX_STR_DIGITS.

(** A count within the range of the floats: [float] accepts it. *)
Definition fits_float (n : Z) : Prop := Z.abs n < 2 ^ 1024 - 2 ^ 970.

(** The keys the ranking prompt reads. *)
Definition has_prompt_keys (a : dict) : Prop :=
  is_Some (a !! "source") /\ is_Some (a !! "title").

(** What one feed contributes: the articles its loop body appends,
    starting from an empty list in the state [st]. *)
Definition feed_chunk (feed_url : string) (st : State) : list dict * State :=
  let '(v, st') := collect_feed config feed_url collect_init st in
  (fetched_articles v, st').

(** The contributions of the feeds, each in the state its turn starts
    in. *)
Fixpoint feed_chunks (feeds : list string) (st : State) : list (list dict) :=
  match feeds with
  | [] => []
  | feed_url :: feeds' =>
      let '(chunk, st') := feed_chunk feed_url st in
      chunk :: feed_chunks feeds' st'
  end.

(** An output item of [summarize_articles] for the input item [a] that
    has a title: [a] with the string that [execute] returned for its
    task as summary, when [a] has a source and a description, and [a]
    itself when it lacks one of them, which makes [summarize_article]
    raise. *)
Definition summarized_or_kept (a o : dict) : Prop :=
  (exists title source description st response st',
      a !! "title" = Some title /\ a !! "source" = Some source
      /\ a !! "description" = Some description
      /\ execute config summarizer_instructions
           (summarize_task title source description (SUMMARY_LENGTH config)) st
         = (Ok response, st')
      /\ o = <[ "ai_summary" := response ]> a)
  \/ ((a !! "source" = None \/ a !! "description" = None) /\ o = a).

(** A computation that records no event of the coordinator. *)
Definition keeps_trace {A} (m : M A) : Prop :=
  forall st, trace (snd (m st)) = trace st.

(** A step of the outside world in which no file is written: a feed is
    fetched or the chat client is asked. *)
Definition read_step (w w' : World) : Prop :=
  (exists feed_url, w' = snd (feedparser_parse feed_url w))
  \/ (exists model instructions task timeout,
        w' = snd (chat_completions_create model instructions task timeout w)).

(** A computation that writes no file: it changes the outside world by
    such steps only. *)
Definition writes_nothing {A} (m : M A) : Prop :=
  forall st, rtc read_step (world st) (world (snd (m st))).

(** A computation that has written no file when it returns [None]. *)
Definition None_without_write (m : M (option string)) : Prop :=
  forall st st', m st = (Ok None, st') -> rtc read_step (world st) (world st').

(** The outcome of the time check in the world [w], for a run started at
    [start_time]. *)
Definition exceeded (start_time : Q) (w : World) : bool :=
  Qgt_bool (time_time w - start_time) (inject_Z (MAX_EXECUTION_TIME_SECONDS config)).

(** The discipline of the coordinator on a sequence of events that
    follows the event [prev]: a check reports the clock and a failed
    check is the last event; Collect is entered freely, Persist right
    after Compile, and any other phase right after a check that passed
    in the same world. *)
Fixpoint guarded (start_time : Q) (prev : option event) (events : list event) : Prop :=
  match events with
  | [] => True
  | e :: events' =>
      match e with
      | Checked w b => b = exceeded start_time w /\ (b = true -> events' = [])
      | Entered p w =>
          p = Collect
          \/ (p = Persist /\ exists w0, prev = Some (Entered Compile w0))
          \/ (p <> Persist /\ prev = Some (Checked w false))
      end
      /\ guarded start_time (Some e) events'
  end.

(** The discipline of C2 as stated, as a test: every phase other than
    Collect is entered right after a check that passed.  The argument
    [prev] is the event before [events]. *)
Fixpoint entries_checked (prev : option event) (events : list event) : bool :=
  match events with
  | [] => true
  | e :: events' =>
      match e with
      | Entered Collect _ => true
      | Entered _ _ =>
          match prev with
          | Some (Checked _ false) => true
          | _ => false
          end
      | Checked _ _ => true
      end
      && entries_checked (Some e) events'
  end.

(** The outcome of the time check in the worlds in which Persist was
    entered. *)
Definition persist_exceeded (start_time : Q) (events : list event) : list bool :=
  omap (fun e => match e with
                 | Entered Persist w => Some (exceeded start_time w)
                 | _ => None
                 end) events.

(** The phases entered, in order. *)
Definition phases_of (events : list event) : list phase :=
  omap (fun e => match e with Entered p _ => Some p | Checked _ _ => None end) events.

(** The phases of a complete run. *)
Definition pipeline (with_filter : bool) : list phase :=
  Collect :: (if with_filter then [FilterByCriteria] else [])
  ++ [Summarize; IdentifyThemes; Compile; Persist].
End Vocabulary.

(** * The rest of the code *)

(** ** [orchestrator.py]: the interactive mode *)

Section Interactive.
Context `{Env} (config : Config).
Local Open Scope M_scope.

(** [run_interactive()], given the two lines that [input] returns.  A
    [ValueError] of [int] selects the default; the lines it prints are
    left out. *)
Definition run_interactive (answer_max answer_filter : string) : M (option string) :=
  let* max_articles :=
    lift
      (let max_articles := strip answer_max in
       match (if negb (String.eqb max_articles "") then int max_articles
              else Ok (MAX_ARTICLES config)) with
       | Raise (ValueError _) => Ok (MAX_ARTICLES config)
       | max_articles => max_articles
       end) in
  let filter_criteria := strip answer_filter in
  let filter_criteria :=
    if negb (String.eqb filter_criteria "") then Some filter_criteria else None in
  run config (Some max_articles) filter_criteria.
End Interactive.

(** ** [export_latest_digest.py] *)

(** The rest of [name] when [name] starts with [prefix]. *)
Fixpoint after_prefix (prefix name : string) : option string :=
  match prefix, name with
  | EmptyString, _ => Some name
  | String c prefix', String c' name' =>
      if Ascii.eqb c c' then after_prefix prefix' name' else None
  | String _ _, EmptyString => None
  end.

(** [s.endswith(suffix)] *)
Fixpoint ends_with (suffix s : string) : bool :=
  String.eqb suffix s ||
  match s with
  | EmptyString => false
  | String _ s' => ends_with suffix s'
  end.

(** The names that the pattern ["ai_news_digest_*.md"] of [glob]
    matches. *)
Definition is_digest_name (name : string) : bool :=
  match after_prefix "ai_news_digest_" name with
  | Some rest => ends_with ".md" rest
  | None => false
  end.

(** [sorted(paths, reverse=True)] for the files of one directory, each
    given by its name and its text: a stable sort by decreasing name,
    names compared character by character. *)
Fixpoint insert_file (x : string * string) (l : list (string * string))
    : list (string * string) :=
  match l with
  | [] => [x]
  | y :: l' =>
      if String.ltb (fst x) (fst y) then y :: insert_file x l' else x :: y :: l'
  end.

Fixpoint sorted_reverse (l : list (string * string)) : list (string * string) :=
  match l with
  | [] => []
  | x :: l' => insert_file x (sorted_reverse l')
  end.

(** [main()] of the export script, up to the payload that it hands to
    [json.dumps].  The directory of the digests is given by the names
    and the texts of its files, in the order in which [glob] lists them,
    and the clock reading by [now].  The result is the message of
    [SystemExit] when no digest is found. *)
Definition export_payload (files : list (string * string)) (now : datetime)
    : string + list (string * string) :=
  let digest_files :=
    sorted_reverse (filter (fun f => is_digest_name (fst f) = true) files) in
  match digest_files with
  | [] => inl "No digest files found in ai_news_digests/"
  | latest :: _ =>
      inr [ ("filename", fst latest);
            ("generated_at", isoformat now);
            ("markdown", snd latest) ]
  end.

(** ** More settings for the concrete runs *)

(** The settings of the examples with a target of two articles, the
    Markdown digest and the ranking by the chat client switched off. *)
Definition frugal_config : Config := {|
  OPENAI_MODEL := OPENAI_MODEL example_config;
  rss_feeds := rss_feeds example_config;
  MAX_ARTICLES := 2;
  SUMMARY_LENGTH := SUMMARY_LENGTH example_config;
  DIGEST_FORMAT := "markdown";
  ARTICLES_PER_SOURCE := ARTICLES_PER_SOURCE example_config;
  DEDUPLICATION_THRESHOLD := DEDUPLICATION_THRESHOLD example_config;
  SMART_RANKING_ENABLED := false;
  MAX_ARTICLE_AGE_DAYS := MAX_ARTICLE_AGE_DAYS example_config;
  MAX_EXECUTION_TIME_SECONDS := MAX_EXECUTION_TIME_SECONDS example_config;
  MAX_FEEDS_TO_PROCESS := MAX_FEEDS_TO_PROCESS example_config;
  API_CALL_TIMEOUT_SECONDS := API_CALL_TIMEOUT_SECONDS example_config;
  OUTPUT_DIRECTORY := OUTPUT_DIRECTORY example_config;
  OUTPUT_FILENAME_PREFIX := OUTPUT_FILENAME_PREFIX example_config
|}.

(** An answer with a digit that is not ASCII, the Arabic-Indic digit
    three, and an answer that is a no-break space, both in UTF-8. *)
Definition arabic_three : string := String "217" (String "163" EmptyString).
Definition no_break_space : string := String "194" (String "160" EmptyString).

(** A description of two characters, each of two bytes: twice the
    letter e with an acute accent, in UTF-8. *)
Definition e_acute_twice : string :=
  String "195" (String "169" (String "195" (String "169" EmptyString))).

(** Two clock readings, a day apart. *)
Definition nov3_noon : datetime := mk_datetime 2026 11 3 12 7 33 None.
Definition nov4_morning : datetime := mk_datetime 2026 11 4 9 0 0 None.

(** * Vocabulary of the further properties *)

(** A dict that has all the given keys. *)
Definition has_keys (keys : list string) (a : dict) : Prop :=
  Forall (fun key => is_Some (a !! key)) keys.

(** The keys of an article that the collector builds. *)
Definition ARTICLE_KEYS : list string :=
  [ "title"; "description"; "link"; "published"; "source"; "fetched_at" ].

(** An article as the collector appends it: it has the six keys, it
    passed the keyword test and its timestamp is neither empty nor the
    sentinel. *)
Definition well_formed `{Env} (a : dict) : Prop :=
  has_keys ARTICLE_KEYS a
  /\ _is_ai_related a = true
  /\ exists published, a !! "published" = Some published
       /\ published <> "" /\ published <> "Unknown date".

(** A string of decimal digits. *)
Fixpoint digits_only (s : string) : bool :=
  match s with
  | EmptyString => true
  | String c s' => bool_decide (is_Some (digit_of c)) && digits_only s'
  end.

(** A text of ASCII characters. *)
Fixpoint ascii_only (s : string) : bool :=
  match s with
  | EmptyString => true
  | String c s' => (nat_of_ascii c <? 128)%nat && ascii_only s'
  end.

(** The characters of a text, none of which is a space. *)
Definition no_space (l : list string) : Prop := Forall (fun ch => isspace ch = false) l.

(** A string without a comma. *)
Fixpoint comma_free (s : string) : bool :=
  match s with
  | EmptyString => true
  | String c s' => negb (Ascii.eqb c ",") && comma_free s'
  end.

(** The reply that lists the numbers [ns], separated by commas, the way
    the ranking prompt asks for it. *)
Definition numbers_reply (ns : list Z) : string := join "," (pretty <$> ns).

(** The article that the number [n] of the ranking prompt stands for. *)
Definition numbered (articles : list dict) (n : Z) : option dict :=
  if (1 <=? n) && (n <=? llen articles) then articles !! Z.to_nat (n - 1) else None.

(** The progress lines of [summarize_articles], from article number [i]
    on. *)
Fixpoint progress_lines (i total : Z) (articles : list dict) : list string :=
  match articles with
  | [] => []
  | article :: articles' =>
      ("  Processing article " +:+ pretty i +:+ "/" +:+ pretty total +:+ ": "
       +:+ str_slice_to 50 (get article "title" "") +:+ "...")
      :: progress_lines (i + 1) total articles'
  end.

(** The string that [execute] returns when the client raises [e]. *)
Definition error_message `{Env} (config : Config) (e : exn) : string :=
  if contains "timeout" (lower (str_exn e))
  then "Error: API call timed out after "
         +:+ pretty (API_CALL_TIMEOUT_SECONDS config) +:+ " seconds"
  else "Error executing task: " +:+ str_exn e.

(** The name and the path of the file that [save_digest] writes at the
    clock reading [now]. *)
Definition digest_filename (config : Config) (now : datetime) : string :=
  OUTPUT_FILENAME_PREFIX config +:+ strftime_compact now +:+ ".md".

Definition digest_path (config : Config) (now : datetime) : string :=
  OUTPUT_DIRECTORY config +:+ "/" +:+ digest_filename config now.

(** The fields of a clock reading that [save_digest] puts in the file
    name. *)
Definition clock_fields (d : datetime) : list Z :=
  [year d; month d; day d; hour d; minute d; second d].

(** A clock reading with a four-digit year and its other fields in
    range. *)
Definition on_the_clock (d : datetime) : Prop :=
  1000 <= year d <= 9999 /\ 1 <= month d <= 12 /\ 1 <= day d <= 31
  /\ 0 <= hour d <= 23 /\ 0 <= minute d <= 59 /\ 0 <= second d <= 59.

(** The order of tuples of integers. *)
Fixpoint lex_compare (l1 l2 : list Z) : comparison :=
  match l1, l2 with
  | [], [] => Eq
  | [], _ :: _ => Lt
  | _ :: _, [] => Gt
  | x :: l1', y :: l2' =>
      match x ?= y with
      | Eq => lex_compare l1' l2'
      | c => c
      end
  end.

(** The text of a number below 100, padded to two digits. *)
Definition two_digits (r : Z) : string :=
  String (pretty_N_char (Z.to_N (r / 10))) (String (pretty_N_char (Z.to_N (r mod 10))) "").

(** The criteria that [run_interactive] passes on for an answer. *)
Definition criteria_of (answer_filter : string) : option string :=
  if negb (String.eqb (strip answer_filter) "") then Some (strip answer_filter) else None.

Section MoreVocabulary.
Context `{Env} (config : Config).

(** The titles of an incoming article and of an item of the result are
    similar enough for the deduplicator. *)
Definition similar_titles (incoming existing : dict) : Prop :=
  exists t1 t2, incoming !! "title" = Some t1 /\ existing !! "title" = Some t2
    /\ Qgt_bool (title_similarity t1 t2) (DEDUPLICATION_THRESHOLD config) = true.

Definition has_link_and_title (a : dict) : Prop :=
  is_Some (a !! "link") /\ is_Some (a !! "title").

(** Articles that the deduplicator has nothing to do with: each has a
    link and a title, the links are pairwise distinct and no title is
    similar to the title of an earlier article. *)
Definition distinct_stories (articles : list dict) : Prop :=
  Forall has_link_and_title articles
  /\ NoDup (links articles)
  /\ forall l1 a l2 b l3,
       articles = l1 ++ a :: l2 ++ b :: l3 -> ~ similar_titles b a.

(** Counts that [run] can print and turn into floats: the setting, and
    the count that the caller gives, if any. *)
Definition counts_in_range (max_articles : option Z) : Prop :=
  fits_float (MAX_ARTICLES config)
  /\ forall n, max_articles = Some n -> fits_float n.

(** The reply of the chat client to a task, and the world it leaves. *)
Definition client_reply (instructions task : string) (w : World) : res string * World :=
  chat_completions_create (OPENAI_MODEL config) instructions task
    (API_CALL_TIMEOUT_SECONDS config) w.

(** What a run that reaches the last phase returns: the path when the
    file is written, the exception of the write otherwise. *)
Definition saved (digest : string) (w : World) : res (option string) :=
  match fst (write_file (digest_path config (datetime_now w)) digest w) with
  | Ok _ => Ok (Some (digest_path config (datetime_now w)))
  | Raise e => Raise e
  end.
End MoreVocabulary.

(** * Properties *)

(** ** Sequencing *)

Section MonadFacts.
Context `{Env}.

Lemma bind_Ok {A B} (m : M A) (f : A -> M B) st a st' :
  m st = (Ok a, st') -> bind m f st = f a st'.
Proof. unfold bind. by intros ->. Qed.

Lemma bind_Raise {A B} (m : M A) (f : A -> M B) st e st' :
  m st = (Raise e, st') -> bind m f st = (Raise e, st').
Proof. unfold bind. by intros ->. Qed.

Lemma bind_lift {A B} (r : res A) (f : A -> M B) st :
  bind (lift r) f st = match r with Ok a => f a st | Raise e => (Raise e, st) end.
Proof. reflexivity. Qed.

Lemma bind_ret {A B} (a : A) (f : A -> M B) st : bind (ret a) f st = f a st.
Proof. reflexivity. Qed.

Lemma bind_print {B} line (f : unit -> M B) st :
  bind (print line) f st
  = f tt {| world := world st; stdout := stdout st ++ [line]; trace := trace st |}.
Proof. reflexivity. Qed.

Lemma try_except_Ok {A} (body : M A) handler st a st' :
  body st = (Ok a, st') -> try_except body handler st = (Ok a, st').
Proof. unfold try_except. by intros ->. Qed.

Lemma try_except_Raise {A} (body : M A) handler st e st' :
  body st = (Raise e, st') -> try_except body handler st = handler e st'.
Proof. unfold try_except. by intros ->. Qed.
End MonadFacts.

(** ** Text and numbers *)

Section TextFacts.

Lemma chars_cons_ascii c s :
  (nat_of_ascii c < 128)%nat -> chars (String c s) = String c "" :: chars s.
Proof.
  intros Hc. cbn [chars]. destruct (chars s) as [|ch chs]; [done|].
  by replace (128 <=? nat_of_ascii c)%nat with false by (symmetry; apply Nat.leb_gt; lia).
Qed.

Lemma chars_ascii_only s :
  ascii_only s = true -> chars s = (fun c => String c "") <$> list_ascii_of_string s.
Proof.
  induction s as [|c s IH]; [done|]. cbn [ascii_only]. intros [Hc Hs]%andb_true_iff.
  apply Nat.ltb_lt in Hc. rewrite chars_cons_ascii by done. cbn. by rewrite IH.
Qed.

Lemma concat_cons_string x xs : String.concat "" (x :: xs) = x +:+ String.concat "" xs.
Proof.
  destruct xs as [|y xs]; [|done]. cbn [String.concat].
  induction x as [|c x IH]; [done|].
  change (String c x = String c (x +:+ "")). by rewrite <- IH.
Qed.

(** A text is the concatenation of its characters. *)
Lemma concat_chars s : String.concat "" (chars s) = s.
Proof.
  induction s as [|c s IH]; [done|]. cbn [chars].
  destruct (chars s) as [|ch chs] eqn:E.
  - cbn in IH. by subst s.
  - destruct (_ && _).
    + rewrite concat_cons_string. rewrite concat_cons_string in IH.
      change (String c (ch +:+ String.concat "" chs) = String c s). by rewrite IH.
    + rewrite concat_cons_string. by rewrite IH.
Qed.

Lemma lstrip_chars_no_space l : no_space l -> lstrip_chars l = l.
Proof. intros Hl. destruct Hl as [|ch l Hch _]; [done|]. cbn. by rewrite Hch. Qed.

Lemma lstrip_chars_head ch l : isspace ch = false -> lstrip_chars (ch :: l) = ch :: l.
Proof. intros Hch. cbn. by rewrite Hch. Qed.

Lemma lstrip_chars_last l ch :
  isspace ch = false -> exists l', lstrip_chars (l ++ [ch]) = l' ++ [ch].
Proof.
  intros Hch. induction l as [|x l IH].
  - exists []. cbn. by rewrite Hch.
  - cbn. destruct (isspace x); [exact IH|]. by exists (x :: l).
Qed.

(** [strip] leaves a text alone when its first and last characters are
    not spaces. *)
Lemma strip_no_space s : no_space (chars s) -> strip s = s.
Proof.
  intros Hs. unfold strip. rewrite (lstrip_chars_no_space _ Hs).
  rewrite lstrip_chars_no_space by (by apply Forall_reverse).
  by rewrite reverse_involutive, concat_chars.
Qed.

(** [strip] keeps a first character that is not a space. *)
Lemma strip_head s ch chs :
  chars s = ch :: chs -> isspace ch = false -> exists rest, strip s = ch +:+ rest.
Proof.
  intros Hs Hch. unfold strip. rewrite Hs, (lstrip_chars_head _ _ Hch).
  rewrite reverse_cons. destruct (lstrip_chars_last (reverse chs) ch Hch) as [l' ->].
  rewrite reverse_app. cbn [reverse rev_append app]. change (reverse [ch]) with [ch].
  cbn [app]. rewrite concat_cons_string. by eexists.
Qed.

Lemma strip_E rest : exists rest', strip (String "E" rest) = String "E" rest'.
Proof.
  destruct (strip_head (String "E" rest) "E" (chars rest)) as [rest' ->].
  - apply chars_cons_ascii. by apply Nat.ltb_lt.
  - vm_compute. reflexivity.
  - by eexists.
Qed.

Lemma nat_of_ascii_N c : nat_of_ascii c = N.to_nat (N_of_ascii c).
Proof. reflexivity. Qed.

Lemma ord_ascii c : (nat_of_ascii c < 128)%nat -> ord (String c "") = N_of_ascii c.
Proof.
  intros Hc. unfold ord. rewrite nat_of_ascii_N in Hc.
  by replace (N_of_ascii c <? 128)%N with true by (symmetry; apply N.ltb_lt; lia).
Qed.

Lemma to_ascii_ascii c : (nat_of_ascii c < 128)%nat -> to_ascii (String c "") = c.
Proof.
  intros Hc. unfold to_ascii. rewrite (ord_ascii _ Hc). rewrite nat_of_ascii_N in Hc.
  replace (N_of_ascii c <? 128)%N with true by (symmetry; apply N.ltb_lt; lia).
  apply ascii_N_embedding.
Qed.

(** On an ASCII text [int] parses the text itself. *)
Lemma int_ascii_only s :
  ascii_only s = true -> int s = parse_int s (list_ascii_of_string s).
Proof.
  intros Hs. unfold int. f_equal. rewrite (chars_ascii_only _ Hs).
  induction s as [|c s IH]; [done|]. cbn [ascii_only] in Hs.
  apply andb_true_iff in Hs as [Hc Hs]. apply Nat.ltb_lt in Hc.
  cbn. rewrite (to_ascii_ascii _ Hc). f_equal. by apply IH.
Qed.

(** [int] raises nothing but [ValueError]. *)
Lemma int_Raise s e : int s = Raise e -> exists msg, e = ValueError msg.
Proof.
  unfold int, parse_int. generalize (to_ascii <$> chars s). intros buffer.
  destruct (split_sign (skip_spaces buffer)) as [negative body].
  intros Hr.
  repeat match type of Hr with
         | context [match ?x with _ => _ end] => destruct x
         end; try discriminate; injection Hr as <-; by eexists.
Qed.

Lemma int_E rest : exists e, int (String "E" rest) = Raise e.
Proof.
  unfold int. rewrite chars_cons_ascii by (by apply Nat.ltb_lt).
  rewrite fmap_cons. change (to_ascii "E") with "E"%char.
  unfold parse_int. cbn [skip_spaces]. change (Py_ISSPACE "E") with false. cbv iota.
  cbn [split_sign]. change (Ascii.eqb "E" "-") with false.
  cbn. by eexists.
Qed.

Lemma digit_of_pretty_N_char x :
  (x < 10)%N -> digit_of (pretty_N_char x) = Some (Z.of_N x).
Proof.
  intros Hx.
  assert (x = 0 \/ x = 1 \/ x = 2 \/ x = 3 \/ x = 4 \/ x = 5 \/ x = 6
          \/ x = 7 \/ x = 8 \/ x = 9)%N as Hcases by lia.
  repeat (destruct Hcases as [->|Hcases]; [reflexivity|]). by subst.
Qed.

(** A digit is a character of ASCII, and no space and no sign. *)
Lemma digit_of_cases c d :
  digit_of c = Some d ->
  (nat_of_ascii c < 128)%nat /\ isspace (String c "") = false /\ Py_ISSPACE c = false
  /\ Ascii.eqb c "_" = false /\ split_sign [c] = (false, [c]).
Proof.
  destruct c as [[] [] [] [] [] [] [] []]; try discriminate; intros _;
    (split; [by apply Nat.ltb_lt|]); repeat split; vm_compute; reflexivity.
Qed.

Lemma digits_only_pretty_N_go x s :
  digits_only s = true -> digits_only (pretty_N_go x s) = true.
Proof.
  revert s. induction (N.lt_wf_0 x) as [x _ IH]; intros s Hs.
  destruct (decide (x = 0)%N) as [->|Hx]; [by rewrite pretty_N_go_0|].
  rewrite pretty_N_go_step by lia. apply IH; [apply N.div_lt; lia|].
  cbn [digits_only]. rewrite Hs, andb_true_r. apply bool_decide_eq_true.
  rewrite digit_of_pretty_N_char; [by eexists|]. apply N.mod_lt. lia.
Qed.

Lemma pretty_N_go_nonempty x s : (0 < x)%N -> pretty_N_go x s <> "".
Proof.
  revert s. induction (N.lt_wf_0 x) as [x _ IH]; intros s Hx.
  rewrite pretty_N_go_step by done.
  destruct (decide (x `div` 10 = 0)%N) as [Hz|Hnz].
  - by rewrite Hz, pretty_N_go_0.
  - apply IH; [apply N.div_lt; lia|by apply N.neq_0_lt_0].
Qed.

Lemma digits_ascii_only s : digits_only s = true -> ascii_only s = true.
Proof.
  induction s as [|c s IH]; [done|]. cbn [digits_only ascii_only].
  intros [Hc Hs]%andb_true_iff. apply bool_decide_eq_true in Hc as [d Hd].
  destruct (digit_of_cases c d Hd) as (Ha & _). rewrite (IH Hs), andb_true_r.
  by apply Nat.ltb_lt.
Qed.

Lemma digits_no_space s : digits_only s = true -> no_space (chars s).
Proof.
  intros Hs. rewrite (chars_ascii_only _ (digits_ascii_only _ Hs)).
  induction s as [|c s IH]; [constructor|]. cbn [digits_only] in Hs.
  apply andb_true_iff in Hs as [Hc Hs]. apply bool_decide_eq_true in Hc as [d Hd].
  destruct (digit_of_cases c d Hd) as (_ & Hsp & _).
  cbn. constructor; [done|]. by apply IH.
Qed.

Lemma strip_digits s : digits_only s = true -> strip s = s.
Proof. intros Hs. apply strip_no_space. by apply digits_no_space. Qed.

Lemma strip_minus_digits s :
  digits_only s = true -> strip (String "-" s) = String "-" s.
Proof.
  intros Hs. apply strip_no_space. rewrite chars_cons_ascii by (by apply Nat.ltb_lt).
  constructor; [vm_compute; reflexivity|]. by apply digits_no_space.
Qed.

(** The digits of a number, read by the parser: their count and the
    number. *)
Lemma scan_digits_pretty_N_go x s prev :
  (0 < x)%N ->
  scan_digits (list_ascii_of_string (pretty_N_go x s)) prev 0 0
  = scan_digits (list_ascii_of_string s) false
      (Z.of_nat (String.length (pretty_N_go x s)) - Z.of_nat (String.length s))
      (Z.of_N x).
Proof.
  revert s prev. induction (N.lt_wf_0 x) as [x _ IH]; intros s prev Hx.
  rewrite pretty_N_go_step by done.
  assert (Hmod : (x `mod` 10 < 10)%N) by (apply N.mod_lt; lia).
  pose proof (N.div_mod x 10 ltac:(lia)) as Hdm. apply (f_equal Z.of_N) in Hdm.
  rewrite N2Z.inj_add, N2Z.inj_mul in Hdm.
  destruct (decide (x `div` 10 = 0)%N) as [Hz|Hnz].
  - rewrite Hz, pretty_N_go_0. cbn [list_ascii_of_string scan_digits String.length].
    rewrite (digit_of_pretty_N_char _ Hmod). rewrite Hz in Hdm.
    f_equal; lia.
  - rewrite IH; [|apply N.div_lt; lia|by apply N.neq_0_lt_0].
    cbn [list_ascii_of_string scan_digits String.length].
    rewrite (digit_of_pretty_N_char _ Hmod). f_equal; lia.
Qed.

(** A number below [10 ^ k] has at most [k] digits. *)
Lemma length_pretty_N_go (k : nat) x s :
  (x < 10 ^ N.of_nat k)%N ->
  (String.length (pretty_N_go x s) <= k + String.length s)%nat.
Proof.
  revert x s. induction k as [|k IH]; intros x s Hx.
  - assert (x = 0%N) as -> by (cbn in Hx; lia). by rewrite pretty_N_go_0.
  - destruct (decide (x = 0)%N) as [->|Hnz]; [rewrite pretty_N_go_0; lia|].
    rewrite pretty_N_go_step by lia.
    etrans; [apply IH|cbn [String.length]; lia].
    rewrite Nat2N.inj_succ, N.pow_succ_r' in Hx.
    apply N.Div0.div_lt_upper_bound. lia.
Qed.

Lemma list_ascii_of_digits_head s :
  s <> "" -> digits_only s = true ->
  skip_spaces (list_ascii_of_string s) = list_ascii_of_string s
  /\ split_sign (list_ascii_of_string s) = (false, list_ascii_of_string s)
  /\ match list_ascii_of_string s with
     | c :: _ => Ascii.eqb c "_" = false
     | [] => False
     end.
Proof.
  intros Hne Hs. destruct s as [|c s]; [done|]. cbn [digits_only] in Hs.
  apply andb_true_iff in Hs as [Hc _]. apply bool_decide_eq_true in Hc as [d Hd].
  destruct (digit_of_cases c d Hd) as (_ & _ & Hsp & Hu & Hsign).
  cbn [list_ascii_of_string skip_spaces]. rewrite Hsp. split; [done|]. split; [|done].
  revert Hsign. clear. unfold split_sign.
  destruct c as [[] [] [] [] [] [] [] []]; intros; try done.
Qed.

(** What [int] makes of a text of digits, with or without a minus
    sign. *)
Lemma parse_int_digits s t negative :
  t <> "" -> digits_only t = true ->
  (Z.of_nat (String.length t) <= MAX_STR_DIGITS) ->
  split_sign (skip_spaces (list_ascii_of_string s)) = (negative, list_ascii_of_string t) ->
  forall n, scan_digits (list_ascii_of_string t) false 0 0
            = Some (Z.of_nat (String.length t), n, []) ->
  parse_int s (list_ascii_of_string s) = Ok (if negative then - n else n).
Proof.
  intros Hne Ht Hlen Hsign n Hscan. unfold parse_int. rewrite Hsign.
  destruct (list_ascii_of_digits_head t Hne Ht) as (_ & _ & Hu).
  destruct (list_ascii_of_string t) as [|c l] eqn:El; [done|]. rewrite Hu, Hscan.
  destruct (Z.ltb_spec MAX_STR_DIGITS (Z.of_nat (String.length t))) as [?|_]; [lia|].
  destruct (Z.eqb_spec (Z.of_nat (String.length t)) 0) as [Hz|_]; [|done].
  destruct t; [done|]. cbn in Hz. lia.
Qed.

Lemma pretty_N_go_digits (p : positive) :
  Z.pos p < 10 ^ MAX_STR_DIGITS ->
  let t := pretty_N_go (N.pos p) "" in
  t <> "" /\ digits_only t = true /\ Z.of_nat (String.length t) <= MAX_STR_DIGITS
  /\ scan_digits (list_ascii_of_string t) false 0 0
     = Some (Z.of_nat (String.length t), Z.pos p, []).
Proof.
  intros Hp t. split; [by apply pretty_N_go_nonempty|].
  split; [by apply digits_only_pretty_N_go|]. split.
  - pose proof (length_pretty_N_go (Z.to_nat MAX_STR_DIGITS) (N.pos p) "") as Hl.
    fold t in Hl. cbn [String.length] in Hl.
    assert ((N.pos p < 10 ^ N.of_nat (Z.to_nat MAX_STR_DIGITS))%N) as Hlt.
    { apply N2Z.inj_lt. rewrite N2Z.inj_pow. rewrite nat_N_Z, Z2Nat.id by done. done. }
    specialize (Hl Hlt). unfold MAX_STR_DIGITS in *. lia.
  - unfold t. rewrite scan_digits_pretty_N_go by done.
    cbn [list_ascii_of_string scan_digits String.length].
    change (Z.of_nat 0) with 0. by rewrite Z.sub_0_r.
Qed.

(** [int(str(n)) == n] for an int of at most 4300 digits. *)
Lemma int_pretty (n : Z) : Z.abs n < 10 ^ MAX_STR_DIGITS -> int (pretty n) = Ok n.
Proof.
  intros Hn. destruct n as [|p|p].
  - reflexivity.
  - change (pretty (Z.pos p)) with (pretty_N_go (N.pos p) "").
    destruct (pretty_N_go_digits p Hn) as (Hne & Hd & Hlen & Hscan).
    rewrite int_ascii_only by (by apply digits_ascii_only).
    apply (parse_int_digits _ _ false Hne Hd Hlen); [|exact Hscan].
    destruct (list_ascii_of_digits_head _ Hne Hd) as (-> & -> & _). done.
  - change (pretty (Z.neg p)) with (String "-" (pretty_N_go (N.pos p) "")).
    destruct (pretty_N_go_digits p Hn) as (Hne & Hd & Hlen & Hscan).
    rewrite int_ascii_only
      by (cbn [ascii_only]; by rewrite digits_ascii_only).
    apply (parse_int_digits (String "-" (pretty_N_go (N.pos p) "")) _ true Hne Hd Hlen
             eq_refl (Z.pos p)).
    exact Hscan.
Qed.

(** [str(n)] of such an int is its decimal text. *)
Lemma str_int_Ok (n : Z) : Z.abs n < 10 ^ MAX_STR_DIGITS -> str_int n = Ok (pretty n).
Proof.
  intros Hn. unfold str_int.
  by destruct (Z.leb_spec (10 ^ MAX_STR_DIGITS) (Z.abs n)) as [?|_]; [lia|].
Qed.
End TextFacts.

(** ** Recency filter *)

Section RecencyFacts.
Context `{Env} (config : Config).

Lemma naive_us_replace d : naive_us (replace_tzinfo_None d) = naive_us d.
Proof. reflexivity. Qed.

Lemma datetime_sub_naive a b :
  tzinfo a = None -> tzinfo b = None ->
  exists delta, datetime_sub a b = Ok delta
                /\ days delta = (naive_us a - naive_us b) / us_per_day.
Proof.
  intros Ha Hb. unfold datetime_sub. rewrite Ha, Hb.
  eexists; split; [reflexivity|]. cbn [days mk_timedelta].
  f_equal. unfold naive_us. ring.
Qed.

Lemma String_eqb_false (s t : string) : s <> t -> String.eqb s t = false.
Proof. intros Hne. apply String.eqb_neq. exact Hne. Qed.

(** What the filter returns for a timestamp that parses. *)
Lemma is_article_recent_parsed s d max_age_days st :
  s <> "" -> s <> "Unknown date" ->
  date_parser_parse s (world st) = Ok d ->
  _is_article_recent config (Some s) max_age_days st
  = (Ok (age_us (world st) d / us_per_day <=? max_age config max_age_days), st).
Proof.
  intros Hne Hns Hp. unfold _is_article_recent.
  rewrite (String_eqb_false _ _ Hne), (String_eqb_false _ _ Hns). cbn [orb].
  unfold try_except, bind, parse_date, observe, lift, ret. rewrite Hp.
  set (stripped := match tzinfo d with Some _ => replace_tzinfo_None d | None => d end).
  assert (Hnaive : tzinfo stripped = None)
    by (subst stripped; destruct (tzinfo d) eqn:E; [reflexivity | exact E]).
  assert (Hus : naive_us stripped = naive_us d)
    by (subst stripped; destruct (tzinfo d); reflexivity).
  destruct (datetime_sub_naive (datetime_now (world st)) stripped
              (datetime_now_naive _) Hnaive) as (delta & Hsub & Hdays).
  rewrite Hsub, Hdays, Hus. reflexivity.
Qed.

(** What the filter returns for a timestamp that does not parse. *)
Lemma is_article_recent_unparsed s e max_age_days st :
  s <> "" -> s <> "Unknown date" ->
  date_parser_parse s (world st) = Raise e ->
  _is_article_recent config (Some s) max_age_days st
  = (Ok false, {| world := world st;
                  stdout := stdout st ++ [parse_report s e];
                  trace := trace st |}).
Proof.
  intros Hne Hns Hp. unfold _is_article_recent.
  rewrite (String_eqb_false _ _ Hne), (String_eqb_false _ _ Hns). cbn [orb].
  unfold try_except, bind, parse_date, print, ret. rewrite Hp. reflexivity.
Qed.

(** The filter never raises and does not change the world. *)
Lemma is_article_recent_total published_date max_age_days st :
  exists b st', _is_article_recent config published_date max_age_days st = (Ok b, st')
                /\ world st' = world st /\ trace st' = trace st.
Proof.
  destruct published_date as [s|]; [|by eexists _, _].
  destruct (decide (s = "")) as [->|Hne]; [by eexists _, _|].
  destruct (decide (s = "Unknown date")) as [->|Hns]; [by eexists _, _|].
  destruct (date_parser_parse s (world st)) as [d|e] eqn:Hp.
  - rewrite (is_article_recent_parsed s d) by assumption. by eexists _, _.
  - rewrite (is_article_recent_unparsed s e) by assumption. by eexists _, _.
Qed.

(** C3, as the code has it.  For a timestamp that parses, the filter
    returns true exactly when the number of whole days in [now - parsed]
    (the offset of the timestamp dropped, the quotient rounded down) is
    at most [max_age_days], that is when [now - parsed] is less than
    [max_age_days + 1] days.  So a timestamp at most [max_age_days] days
    old is accepted, a future-dated one is accepted as soon as
    [max_age_days] is not negative, and a timestamp [max_age_days + 1]
    days old or older is rejected. *)
Theorem is_article_recent_whole_days s d max_age_days st :
  s <> "" -> s <> "Unknown date" ->
  date_parser_parse s (world st) = Ok d ->
  let age := age_us (world st) d in
  let limit := max_age config max_age_days in
  exists b,
    _is_article_recent config (Some s) max_age_days st = (Ok b, st)
    /\ (b = true <-> age / us_per_day <= limit)
    /\ (b = true <-> age < (limit + 1) * us_per_day)
    /\ (age <= limit * us_per_day -> b = true)
    /\ (age < 0 -> 0 <= limit -> b = true)
    /\ ((limit + 1) * us_per_day <= age -> b = false).
Proof.
  intros Hne Hns Hp age limit.
  exists (age / us_per_day <=? limit). split.
  { exact (is_article_recent_parsed s d max_age_days st Hne Hns Hp). }
  assert (Hday : 0 < us_per_day) by (unfold us_per_day, us_per_second; lia).
  assert (Hiff : age / us_per_day <= limit <-> age < (limit + 1) * us_per_day).
  { split; intros Hle.
    - pose proof (Z.mul_div_le age us_per_day Hday).
      pose proof (Z.mod_pos_bound age us_per_day Hday).
      pose proof (Z.div_mod age us_per_day). nia.
    - apply Z.lt_succ_r. apply Z.div_lt_upper_bound; lia. }
  rewrite Z.leb_le. repeat split; try tauto.
  - intros Hle. apply Hiff. nia.
  - intros Hneg Hlim. apply Hiff. nia.
  - intros Hold. apply Z.leb_gt. apply Z.nle_gt. rewrite Hiff. lia.
Qed.

(** C6.  A timestamp that is missing, empty, the sentinel or does not
    parse is rejected: the filter returns false, and for a timestamp
    that does not parse it prints a line naming the timestamp and the
    error. *)
Theorem is_article_recent_fail_closed published_date max_age_days st :
  published_date = None \/ published_date = Some ""
  \/ published_date = Some "Unknown date"
  \/ (exists s e, published_date = Some s
                  /\ date_parser_parse s (world st) = Raise e) ->
  exists st',
    _is_article_recent config published_date max_age_days st = (Ok false, st')
    /\ world st' = world st
    /\ forall s e, published_date = Some s -> s <> "" -> s <> "Unknown date" ->
         date_parser_parse s (world st) = Raise e ->
         stdout st' = stdout st ++ [parse_report s e].
Proof.
  intros [-> | [-> | [-> | (s & e & -> & Hp)]]].
  - exists st. repeat split; [done..|]. intros; discriminate.
  - exists st. repeat split; [done..|]. intros s e [= <-] Hne; done.
  - exists st. repeat split; [done..|]. intros s e [= <-] _ Hns; done.
  - destruct (decide (s = "")) as [->|Hne].
    { exists st. repeat split; [done..|]. intros s e' [= <-] Hne; done. }
    destruct (decide (s = "Unknown date")) as [->|Hns].
    { exists st. repeat split; [done..|]. intros s e' [= <-] _ Hns; done. }
    eexists. split; [exact (is_article_recent_unparsed s e _ st Hne Hns Hp)|].
    split; [reflexivity|].
    intros s' e' [= <-] _ _ Hp'. rewrite Hp in Hp'. by injection Hp' as <-.
Qed.
End RecencyFacts.

(** ** Deduplicator *)

Section ListRemove.
Context {A : Type} `{EqDecision A}.

Lemma list_remove_Ok (x : A) l l' :
  list_remove x l = Ok l' ->
  exists l1 l2, l = l1 ++ x :: l2 /\ l' = l1 ++ l2 /\ x ∉ l1.
Proof.
  revert l'. induction l as [|y l IH]; intros l' Hr; [discriminate|].
  cbn in Hr. destruct (decide (y = x)) as [->|Hne].
  - injection Hr as <-. exists [], l. repeat split. apply not_elem_of_nil.
  - destruct (list_remove x l) as [l''|] eqn:E; [|discriminate].
    cbn in Hr. injection Hr as <-.
    destruct (IH _ eq_refl) as (l1 & l2 & -> & -> & Hnin).
    exists (y :: l1), l2. repeat split.
    rewrite not_elem_of_cons. by split.
Qed.

Lemma list_remove_elem_of (x : A) l :
  x ∈ l -> exists l', list_remove x l = Ok l'.
Proof.
  induction l as [|y l IH]; intros Hin; [by apply elem_of_nil in Hin|].
  cbn. destruct (decide (y = x)) as [->|Hne]; [by eexists|].
  apply elem_of_cons in Hin as [->|Hin]; [done|].
  destruct (IH Hin) as [l' ->]. by eexists.
Qed.
End ListRemove.

Section DeduplicatorFacts.
Context `{Env} (config : Config).

Lemma getitem_Ok (d : dict) key x : getitem d key = Ok x <-> d !! key = Some x.
Proof. unfold getitem. destruct (d !! key); split; congruence. Qed.

(** The three ways in which the inner loop can end. *)
Lemma dedup_scan_cases article url title todo v v' dup :
  dedup_scan config article url title todo v = Ok (v', dup) ->
  (dup = false /\ v' = v)
  \/ (dup = true /\ v' = dropped v)
  \/ (dup = true /\ exists existing without,
        existing ∈ todo
        /\ list_remove existing (deduplicated v) = Ok without
        /\ deduplicated v' = without ++ [article]
        /\ seen_urls v' = seen_urls v ∪ {[ url ]}).
Proof.
  induction todo as [|existing todo IH]; cbn; intros Hs.
  - left. by injection Hs as <- <-.
  - destruct (getitem existing "title") as [et|]; [cbn in Hs|discriminate].
    destruct (Qgt_bool _ _).
    + destruct (getitem article "description") as [da|]; [cbn in Hs|discriminate].
      destruct (getitem existing "description") as [de|]; [cbn in Hs|discriminate].
      destruct (len de <? len da).
      * destruct (list_remove existing (deduplicated v)) as [without|] eqn:Er;
          [cbn in Hs|discriminate].
        injection Hs as <- <-. right; right. split; [done|].
        exists existing, without. repeat split; [apply list_elem_of_here|done].
      * injection Hs as <- <-. right; left. done.
    + destruct (IH Hs) as [?|[?|(? & e & w & Hin & ?)]]; [by left|by right; left|].
      right; right. split; [done|]. exists e, w. split; [by apply list_elem_of_further|done].
Qed.

(** The four ways in which one iteration of the outer loop can end: the
    article is an exact duplicate, a near-duplicate that is discarded, a
    near-duplicate that replaces an item of the result, or new. *)
Lemma dedup_step_cases v article v' :
  dedup_step config v article = Ok v' ->
  exists url, article !! "link" = Some url /\ is_Some (article !! "title") /\
    (((url ∈ seen_urls v) /\ v' = dropped v)
     \/ ((url ∉ seen_urls v) /\ v' = dropped v)
     \/ ((url ∉ seen_urls v) /\ exists existing without,
           existing ∈ deduplicated v
           /\ list_remove existing (deduplicated v) = Ok without
           /\ deduplicated v' = without ++ [article]
           /\ seen_urls v' = seen_urls v ∪ {[ url ]})
     \/ ((url ∉ seen_urls v)
         /\ deduplicated v' = deduplicated v ++ [article]
         /\ seen_urls v' = seen_urls v ∪ {[ url ]})).
Proof.
  unfold dedup_step. intros Hs.
  destruct (getitem article "link") as [url|] eqn:Hl; [cbn in Hs|discriminate].
  destruct (getitem article "title") as [title|] eqn:Ht; [cbn in Hs|discriminate].
  apply getitem_Ok in Hl, Ht. exists url. split; [done|]. split; [by eexists|].
  destruct (decide (url ∈ seen_urls v)) as [Hin|Hnin].
  - injection Hs as <-. by left.
  - destruct (dedup_scan _ _ _ _ _ _) as [[v1 dup]|] eqn:Es; [cbn in Hs|discriminate].
    apply dedup_scan_cases in Es as [[-> ->]|[[-> ->]|(-> & e & w & ? & ? & ? & ?)]].
    + injection Hs as <-. right; right; right. done.
    + injection Hs as <-. right; left. done.
    + injection Hs as <-. right; right; left. split; [done|]. by exists e, w.
Qed.

Lemma links_app l1 l2 : links (l1 ++ l2) = links l1 ++ links l2.
Proof. unfold links. apply fmap_app. Qed.

Lemma elem_of_links u l : Some u ∈ links l <-> exists a, a ∈ l /\ a !! "link" = Some u.
Proof.
  unfold links. rewrite list_elem_of_fmap. split.
  - intros (a & Heq & Hin). by exists a.
  - intros (a & Hin & Heq). by exists a.
Qed.

Lemma links_cons a l : links (a :: l) = a !! "link" :: links l.
Proof. reflexivity. Qed.

(** Removing an item and appending one with a fresh link keeps the links
    distinct. *)
Lemma NoDup_links_replace l1 e l2 article url :
  NoDup (links (l1 ++ e :: l2)) ->
  article !! "link" = Some url ->
  Some url ∉ links (l1 ++ e :: l2) ->
  NoDup (links ((l1 ++ l2) ++ [article])).
Proof.
  rewrite !links_app, !links_cons. intros Hnd Hurl Hfresh.
  apply NoDup_app in Hnd as (Hn1 & Hdisj & Hn2).
  apply NoDup_cons in Hn2 as [_ Hn2].
  apply NoDup_app. split; [|split].
  - apply NoDup_app. split; [done|]. split; [|done].
    intros x Hx1 Hx2. apply (Hdisj x Hx1). by apply list_elem_of_further.
  - intros x Hx Hx'. cbn in Hx'. rewrite Hurl in Hx'.
    apply list_elem_of_singleton in Hx' as ->. apply Hfresh.
    apply elem_of_app in Hx as [Hx|Hx]; apply elem_of_app; [by left|].
    right. by apply list_elem_of_further.
  - apply NoDup_singleton.
Qed.

Lemma dedup_step_inv v article v' :
  dedup_inv v -> dedup_step config v article = Ok v' -> dedup_inv v'.
Proof.
  intros [Hnd Hseen] Hs.
  assert (Hfresh : forall url, url ∉ seen_urls v -> Some url ∉ links (deduplicated v)).
  { intros url Hnin (a & Hin & Ha)%elem_of_links.
    destruct (Hseen a Hin) as (u & Hu & Hus). congruence. }
  destruct (dedup_step_cases _ _ _ Hs) as (url & Hurl & _ & Hcases).
  destruct Hcases as [[_ ->]|[[_ ->]|[(Hnin & e & w & Hin & Hrm & Hd & Hsn)|(Hnin & Hd & Hsn)]]];
    try (split; [exact Hnd|exact Hseen]).
  - apply list_remove_Ok in Hrm as (l1 & l2 & Hl & -> & _).
    unfold dedup_inv. rewrite Hd, Hsn. rewrite Hl in Hnd, Hseen, Hfresh. split.
    + eapply NoDup_links_replace; eauto.
    + intros a Ha. apply elem_of_app in Ha as [Ha|Ha].
      * destruct (Hseen a) as (u & Hu & Hus).
        { apply elem_of_app in Ha as [Ha|Ha]; apply elem_of_app; [by left|].
          right. by apply list_elem_of_further. }
        exists u. split; [done|]. apply elem_of_union. by left.
      * apply list_elem_of_singleton in Ha as ->. exists url. split; [done|]. apply elem_of_union. right. by apply elem_of_singleton.
  - unfold dedup_inv. rewrite Hd, Hsn. split.
    + rewrite links_app. apply NoDup_app. split; [done|].
      split; [|apply NoDup_singleton].
      intros x Hx Hx'. cbn in Hx'. rewrite Hurl in Hx'.
      apply list_elem_of_singleton in Hx' as ->. by apply (Hfresh url).
    + intros a [Ha|Ha]%elem_of_app.
      * destruct (Hseen a Ha) as (u & Hu & Hus). exists u. split; [done|]. apply elem_of_union. by left.
      * apply list_elem_of_singleton in Ha as ->. exists url. split; [done|]. apply elem_of_union. right. by apply elem_of_singleton.
Qed.

Lemma dedup_loop_inv articles v v' :
  dedup_inv v -> dedup_loop config articles v = Ok v' -> dedup_inv v'.
Proof.
  revert v. induction articles as [|a articles IH]; cbn; intros v Hinv Hl.
  - by injection Hl as <-.
  - destruct (dedup_step config v a) as [v1|] eqn:Es; [cbn in Hl|discriminate].
    eapply IH; [|exact Hl]. eapply dedup_step_inv; eauto.
Qed.

Lemma dedup_init_inv : dedup_inv dedup_init.
Proof.
  split; [apply NoDup_nil_2|]. intros a Ha. by apply elem_of_nil in Ha.
Qed.
End DeduplicatorFacts.

Section DeduplicatorTheorems.
Context `{Env} (config : Config).

Lemma dedup_scan_total article url title todo v :
  is_Some (article !! "description") ->
  (forall x, x ∈ todo -> x ∈ deduplicated v /\ has_dedup_keys x) ->
  exists r, dedup_scan config article url title todo v = Ok r.
Proof.
  intros [da Hda] Htodo. induction todo as [|existing todo IH]; cbn; [by eexists|].
  destruct (Htodo existing (list_elem_of_here _ _)) as (Hin & _ & [et Het] & [de Hde]).
  unfold getitem. rewrite Het, Hde, Hda. cbn.
  destruct (Qgt_bool _ _).
  - destruct (len de <? len da); [|by eexists].
    destruct (list_remove_elem_of existing _ Hin) as [w ->]. by eexists.
  - apply IH. intros x Hx. apply Htodo. by apply list_elem_of_further.
Qed.

Lemma dedup_step_total v article :
  has_dedup_keys article ->
  Forall has_dedup_keys (deduplicated v) ->
  exists v', dedup_step config v article = Ok v'
             /\ Forall has_dedup_keys (deduplicated v').
Proof.
  intros Hart Hall.
  assert (Hok : exists v', dedup_step config v article = Ok v').
  { destruct Hart as ([url Hurl] & [title Ht] & Hdesc).
    unfold dedup_step, getitem. rewrite Hurl, Ht. cbn.
    destruct (decide _); [by eexists|].
    destruct (dedup_scan_total article url title (deduplicated v) v Hdesc) as [[v1 dup] ->].
    { intros x Hx. split; [done|]. by eapply Forall_forall in Hall. }
    cbn. destruct dup; by eexists. }
  destruct Hok as [v' Hs]. exists v'. split; [done|].
  destruct (dedup_step_cases _ _ _ _ Hs) as (url & _ & _ & Hcases).
  destruct Hcases as [[_ ->]|[[_ ->]|[(_ & e & w & _ & Hrm & -> & _)|(_ & -> & _)]]];
    try done.
  - apply list_remove_Ok in Hrm as (l1 & l2 & Hl & -> & _). rewrite Hl in Hall.
    apply Forall_app in Hall as [H1 H2]. apply Forall_cons in H2 as [_ H2].
    repeat (apply Forall_app; split); [done..|]. by apply Forall_singleton.
  - apply Forall_app. split; [done|]. by apply Forall_singleton.
Qed.

Lemma dedup_loop_total articles v :
  Forall has_dedup_keys articles ->
  Forall has_dedup_keys (deduplicated v) ->
  exists v', dedup_loop config articles v = Ok v'.
Proof.
  revert v. induction articles as [|a articles IH]; cbn; intros v Harts Hall; [by eexists|].
  apply Forall_cons in Harts as [Ha Harts].
  destruct (dedup_step_total v a Ha Hall) as (v1 & -> & Hall1). cbn. by apply IH.
Qed.

(** C1.  Whenever the deduplicator returns, every item of its output has
    a link and no two items have the same one; and it does return for
    articles that have a link, a title and a description. *)
Theorem deduplicate_articles_distinct_links articles :
  (forall out, _deduplicate_articles config articles = Ok out ->
     NoDup (links out) /\ Forall (fun a => is_Some (a !! "link")) out)
  /\ (Forall has_dedup_keys articles ->
      exists out, _deduplicate_articles config articles = Ok out).
Proof.
  unfold _deduplicate_articles. split.
  - intros out Hd.
    destruct (dedup_loop config articles dedup_init) as [v|] eqn:El; [|discriminate].
    cbn in Hd. injection Hd as <-.
    destruct (dedup_loop_inv config _ _ _ dedup_init_inv El) as [Hnd Hseen].
    split; [done|]. apply Forall_forall. intros a Ha.
    destruct (Hseen a Ha) as (u & Hu & _). by eexists.
  - intros Hwf.
    destruct (dedup_loop_total articles dedup_init Hwf) as [v ->]; [by constructor|].
    by eexists.
Qed.

(** The set of seen links only grows. *)
Lemma dedup_step_seen_mono v article v' :
  dedup_step config v article = Ok v' -> seen_urls v ⊆ seen_urls v'.
Proof.
  intros Hs. destruct (dedup_step_cases _ _ _ _ Hs) as (url & _ & _ & Hcases).
  destruct Hcases as [[_ ->]|[[_ ->]|[(_ & e & w & _ & _ & _ & ->)|(_ & _ & ->)]]];
    try done; apply union_subseteq_l.
Qed.

(** A retired link stays retired: an article is added to the result only
    when its link has not been seen. *)
Lemma dedup_step_retired u v article v' :
  dedup_inv v -> retired u v -> dedup_step config v article = Ok v' -> retired u v'.
Proof.
  intros Hinv [Hseen Habs] Hs. split; [by eapply dedup_step_seen_mono|].
  destruct (dedup_step_cases _ _ _ _ Hs) as (url & Hurl & _ & Hcases).
  destruct Hcases as [[_ ->]|[[_ ->]|[(Hnin & e & w & _ & Hrm & -> & _)|(Hnin & -> & _)]]];
    try done.
  - apply list_remove_Ok in Hrm as (l1 & l2 & Hl & -> & _). rewrite Hl in Habs.
    rewrite !links_app, links_cons in *. rewrite !elem_of_app in *.
    intros [[?|?]|Hx]; [tauto| |].
    + apply Habs. right. by apply list_elem_of_further.
    + cbn in Hx. rewrite Hurl in Hx. apply list_elem_of_singleton in Hx. congruence.
  - rewrite links_app, elem_of_app. intros [?|Hx]; [done|].
    cbn in Hx. rewrite Hurl in Hx. apply list_elem_of_singleton in Hx. congruence.
Qed.

Lemma dedup_loop_retired u articles v v' :
  dedup_inv v -> retired u v -> dedup_loop config articles v = Ok v' -> retired u v'.
Proof.
  revert v. induction articles as [|a articles IH]; cbn; intros v Hinv Hret Hl.
  - by injection Hl as <-.
  - destruct (dedup_step config v a) as [v1|] eqn:Es; [cbn in Hl|discriminate].
    eapply IH; [| |exact Hl].
    + eapply dedup_step_inv; eauto.
    + eapply dedup_step_retired; eauto.
Qed.

(** An item leaves the result only by a replacement, and its link is
    retired from then on. *)
Lemma dedup_step_replaced v article v' existing :
  dedup_inv v -> dedup_step config v article = Ok v' ->
  existing ∈ deduplicated v -> existing ∉ deduplicated v' ->
  exists u, existing !! "link" = Some u /\ retired u v'.
Proof.
  intros Hinv Hs Hin Hout. destruct (Hinv) as [Hnd Hseen].
  destruct (Hseen existing Hin) as (u & Hu & Hus). exists u. split; [done|].
  split; [by eapply dedup_step_seen_mono|].
  destruct (dedup_step_cases _ _ _ _ Hs) as (url & Hurl & _ & Hcases).
  destruct Hcases as [[_ ->]|[[_ ->]|[(Hnin & e & w & _ & Hrm & Hd & _)|(Hnin & Hd & _)]]];
    try done.
  - apply list_remove_Ok in Hrm as (l1 & l2 & Hl & -> & _).
    rewrite Hd in Hout |- *. rewrite Hl in Hnd, Hin.
    assert (existing = e) as ->.
    { apply elem_of_app in Hin as [?|[->|?]%elem_of_cons]; [|done|];
        exfalso; apply Hout; rewrite !elem_of_app; tauto. }
    rewrite !links_app, links_cons in Hnd. apply NoDup_app in Hnd as (_ & Hdisj & Hn2).
    apply NoDup_cons in Hn2 as [Hn2 _]. rewrite Hu in *.
    rewrite !links_app, !elem_of_app. intros [[Hx|Hx]|Hx].
    + apply (Hdisj _ Hx). apply list_elem_of_here.
    + done.
    + cbn in Hx. rewrite Hurl in Hx. apply list_elem_of_singleton in Hx. congruence.
  - exfalso. apply Hout. rewrite Hd. apply elem_of_app. by left.
Qed.

(** An incoming article whose link has been seen is dropped. *)
Lemma dedup_step_seen v b u :
  b !! "link" = Some u -> is_Some (b !! "title") -> u ∈ seen_urls v ->
  dedup_step config v b = Ok (dropped v).
Proof.
  intros Hu [t Ht] Hin. unfold dedup_step, getitem. rewrite Hu, Ht. cbn.
  by destruct (decide (u ∈ seen_urls v)).
Qed.

Lemma dedup_step_unseen v a url title :
  a !! "link" = Some url -> a !! "title" = Some title -> url ∉ seen_urls v ->
  dedup_step config v a
  = (let* scanned := dedup_scan config a url title (deduplicated v) v in
     let '(v', is_duplicate) := scanned in
     if is_duplicate then Ok v'
     else Ok {| deduplicated := deduplicated v' ++ [a];
                seen_urls := seen_urls v' ∪ {[ url ]};
                duplicates_removed := duplicates_removed v' |}).
Proof.
  intros Hl Ht Hnin. unfold dedup_step, getitem. rewrite Hl, Ht. cbn.
  by destruct (decide (url ∈ seen_urls v)).
Qed.

(** Two articles with the same title, the second with the longer
    description: the second replaces the first. *)
Lemma dedup_example_run :
  Qgt_bool (SequenceMatcher_ratio (lower "t") (lower "t"))
    (DEDUPLICATION_THRESHOLD config) = true ->
  dedup_loop config [article_of "u1" "t" ""; article_of "u2" "t" "x"] dedup_init
  = Ok {| deduplicated := [article_of "u2" "t" "x"];
          seen_urls := ∅ ∪ {[ "u1" ]} ∪ {[ "u2" ]};
          duplicates_removed := 1 |}.
Proof.
  intros Hsim. cbn [dedup_loop].
  rewrite (dedup_step_unseen _ _ "u1" "t"); [|reflexivity|reflexivity|apply not_elem_of_empty].
  cbn [dedup_init deduplicated dedup_scan bind_res seen_urls duplicates_removed app].
  rewrite (dedup_step_unseen _ _ "u2" "t"); [|reflexivity|reflexivity|].
  2:{ cbn. rewrite elem_of_union, elem_of_singleton. intros [Hin|Hin]; [|done].
      by apply not_elem_of_empty in Hin. }
  cbn [deduplicated dedup_scan]. unfold getitem, title_similarity.
  assert (article_of "u1" "t" "" !! "title" = Some "t") as -> by reflexivity.
  cbn [bind_res]. rewrite Hsim.
  assert (article_of "u2" "t" "x" !! "description" = Some "x") as -> by reflexivity.
  assert (article_of "u1" "t" "" !! "description" = Some "") as -> by reflexivity.
  cbn [bind_res]. change (len "" <? len "x") with true. cbv iota.
  cbn [deduplicated list_remove seen_urls duplicates_removed].
  destruct (decide (article_of "u1" "t" "" = article_of "u1" "t" "")); [|done].
  reflexivity.
Qed.

(** C10.  In every state of the loop each item of the result has its
    link in the set of seen links.  The set can be strictly larger: when
    a replacement removes an item, the link of that item stays in the
    set and no item of the result carries it, at that point and in every
    later state, and a later article with that link is dropped as an
    exact duplicate.  Such a state is reached as soon as equal titles
    count as similar. *)
Theorem seen_urls_superset_of_links :
  (forall articles v,
      dedup_loop config articles dedup_init = Ok v ->
      forall a, a ∈ deduplicated v ->
        exists u, a !! "link" = Some u /\ u ∈ seen_urls v)
  /\ (forall articles v article v' existing,
        dedup_loop config articles dedup_init = Ok v ->
        dedup_step config v article = Ok v' ->
        existing ∈ deduplicated v -> existing ∉ deduplicated v' ->
        exists u, existing !! "link" = Some u /\
          forall later v'',
            dedup_loop config later v' = Ok v'' ->
            retired u v''
            /\ forall b, b !! "link" = Some u -> is_Some (b !! "title") ->
                 dedup_step config v'' b = Ok (dropped v''))
  /\ ((forall s, Qgt_bool (SequenceMatcher_ratio s s)
                  (DEDUPLICATION_THRESHOLD config) = true) ->
      exists articles v u,
        dedup_loop config articles dedup_init = Ok v /\ retired u v).
Proof.
  split; [|split].
  - intros articles v Hl.
    exact (proj2 (dedup_loop_inv config _ _ _ dedup_init_inv Hl)).
  - intros articles v article v' existing Hl Hs Hin Hout.
    pose proof (dedup_loop_inv config _ _ _ dedup_init_inv Hl) as Hinv.
    destruct (dedup_step_replaced v article v' existing Hinv Hs Hin Hout)
      as (u & Hu & Hret).
    exists u. split; [done|]. intros later v'' Hlater.
    assert (Hret'' : retired u v'').
    { eapply dedup_loop_retired; [|exact Hret|exact Hlater].
      eapply dedup_step_inv; eauto. }
    split; [done|]. intros b Hb Ht.
    eapply dedup_step_seen; [exact Hb|exact Ht|apply Hret''].
  - intros Hsim.
    exists [article_of "u1" "t" ""; article_of "u2" "t" "x"].
    eexists. exists "u1".
    assert (Hrun : dedup_loop config [article_of "u1" "t" ""; article_of "u2" "t" "x"]
                     dedup_init
                   = Ok {| deduplicated := [article_of "u2" "t" "x"];
                           seen_urls := ∅ ∪ {[ "u1" ]} ∪ {[ "u2" ]};
                           duplicates_removed := 1 |}).
    { apply dedup_example_run. apply Hsim. }
    split; [exact Hrun|]. split.
    + cbn. apply elem_of_union. left. apply elem_of_union. right.
      by apply elem_of_singleton.
    + cbn. intros Hx. apply list_elem_of_singleton in Hx.
      vm_compute in Hx. discriminate.
Qed.
End DeduplicatorTheorems.

(** ** Selector *)

Section SortFacts.

Lemma datetime_lt_Ok a b c :
  datetime_lt a b = Ok c ->
  c = (instant a <? instant b)
  /\ (tzinfo a = None <-> tzinfo b = None).
Proof.
  unfold datetime_lt, instant.
  destruct (tzinfo a), (tzinfo b); intros [= <-]; split; try done.
  - f_equal; lia.
Qed.

Lemma datetime_lt_same_kind a b :
  (tzinfo a = None <-> tzinfo b = None) -> exists c, datetime_lt a b = Ok c.
Proof.
  unfold datetime_lt. destruct (tzinfo a), (tzinfo b); intros [H1 H2]; try by eexists.
  - by specialize (H2 eq_refl).
  - by specialize (H1 eq_refl).
Qed.

(** Where an item is inserted: after the items with a greater key and
    before the first item whose key is not greater. *)
Lemma insert_desc_Ok x l s :
  insert_desc x l = Ok s ->
  exists l1 l2,
    l = l1 ++ l2 /\ s = l1 ++ x :: l2
    /\ Forall (fun y => instant (fst x) < instant (fst y)) l1
    /\ (forall y, head l2 = Some y -> key_ge x y).
Proof.
  revert s. induction l as [|y l IH]; cbn; intros s Hs.
  - injection Hs as <-. exists [], []. by repeat split.
  - destruct (datetime_lt (fst x) (fst y)) as [c|] eqn:Ec; [cbn in Hs|discriminate].
    apply datetime_lt_Ok in Ec as [-> _].
    destruct (Z.ltb_spec (instant (fst x)) (instant (fst y))) as [Hlt|Hge].
    + destruct (insert_desc x l) as [s'|]; [cbn in Hs|discriminate].
      injection Hs as <-. destruct (IH _ eq_refl) as (l1 & l2 & -> & -> & Hall & Hhd).
      exists (y :: l1), l2. repeat split; [|done]. by constructor.
    + injection Hs as <-. exists [], (y :: l). repeat split; [done|].
      intros y' [= <-]. exact Hge.
Qed.

Lemma with_instant_app t l1 l2 :
  with_instant t (l1 ++ l2) = with_instant t l1 ++ with_instant t l2.
Proof. apply filter_app. Qed.

Lemma with_instant_cons t x l :
  with_instant t (x :: l)
  = if decide (instant (fst x) = t) then x :: with_instant t l else with_instant t l.
Proof. unfold with_instant. by rewrite filter_cons. Qed.

Lemma with_instant_greater t l :
  Forall (fun y => t < instant (fst y)) l -> with_instant t l = [].
Proof.
  induction 1 as [|z l Hz Hgt IH]; [done|].
  rewrite with_instant_cons. destruct (decide _); [lia|done].
Qed.

(** What [sort_desc] returns: the same items, by decreasing key, items
    with equal keys in their original order. *)
Lemma sort_desc_Ok l s :
  sort_desc l = Ok s ->
  Permutation l s
  /\ StronglySorted key_ge s
  /\ forall t, with_instant t s = with_instant t l.
Proof.
  revert s. induction l as [|x l IH]; cbn [sort_desc]; intros s Hs.
  - injection Hs as <-. repeat split; constructor.
  - destruct (sort_desc l) as [s'|]; [cbn [bind_res] in Hs|discriminate].
    destruct (IH _ eq_refl) as (Hperm & Hsorted & Hstable).
    apply insert_desc_Ok in Hs as (l1 & l2 & -> & -> & Hgt & Hhd).
    split; [|split].
    + rewrite Hperm. apply Permutation_middle.
    + apply StronglySorted_app in Hsorted as (Hcross & Hs1 & Hs2).
      assert (Hx2 : Forall (key_ge x) l2).
      { destruct l2 as [|y l2]; [constructor|].
        pose proof (Hhd y eq_refl) as Hxy. constructor; [done|].
        apply StronglySorted_cons in Hs2 as [Hy _].
        eapply Forall_impl; [exact Hy|]. unfold key_ge in *. intros z Hz. lia. }
      apply StronglySorted_app. split; [|split; [done|]].
      * intros x1 x2 Hx1 [->|Hx2']%elem_of_cons; [|by apply Hcross].
        eapply Forall_forall in Hgt; [|exact Hx1]. unfold key_ge. lia.
      * apply StronglySorted_cons. by split.
    + intros t. rewrite with_instant_app, !with_instant_cons, <- Hstable, with_instant_app.
      destruct (decide (instant (fst x) = t)) as [<-|Hne]; [|done].
      by rewrite (with_instant_greater _ _ Hgt).
Qed.

Lemma insert_desc_total x l :
  (forall y, head l = Some y -> (tzinfo (fst x) = None <-> tzinfo (fst y) = None)) ->
  comparable l -> exists s, insert_desc x l = Ok s.
Proof.
  induction l as [|y l IH]; cbn; intros Hhd Hcmp; [by eexists|].
  destruct (datetime_lt_same_kind (fst x) (fst y) (Hhd y eq_refl)) as [c ->]. cbn.
  destruct c; [|by eexists].
  destruct IH as [s ->]; [| |by eexists].
  - intros z Hz. destruct l as [|z' l]; [done|]. injection Hz as ->.
    rewrite (Hhd y eq_refl).
    destruct Hcmp as [Hn|Ha].
    + apply Forall_cons in Hn as [Hy Hn]. apply Forall_cons in Hn as [Hz _]. by rewrite Hy, Hz.
    + apply Forall_cons in Ha as [[oy Hy] Ha]. apply Forall_cons in Ha as [[oz Hz] _].
      rewrite Hy, Hz. done.
  - destruct Hcmp as [Hn|Ha]; [left|right];
      [by apply Forall_cons in Hn as [_ Hn]|by apply Forall_cons in Ha as [_ Ha]].
Qed.

Lemma comparable_Permutation l s : Permutation l s -> comparable l -> comparable s.
Proof.
  intros Hp [Hn|Ha]; [left|right]; by rewrite <- Hp.
Qed.

(** The sort succeeds exactly when the keys can be compared. *)
Lemma sort_desc_comparable l :
  (exists s, sort_desc l = Ok s) <-> comparable l.
Proof.
  induction l as [|x l IH]; cbn.
  - split; [left; constructor|by eexists].
  - split.
    + intros [s Hs].
      destruct (sort_desc l) as [s'|] eqn:Es; [cbn in Hs|discriminate].
      assert (Hcmp : comparable l) by (apply IH; by eexists).
      destruct (sort_desc_Ok _ _ Es) as (Hperm & _ & _).
      destruct s' as [|y s'].
      { apply Permutation_nil_r in Hperm as ->.
        destruct (tzinfo (fst x)) eqn:Ex; [right|left]; by repeat constructor. }
      cbn in Hs. destruct (datetime_lt (fst x) (fst y)) as [c|] eqn:Ec; [|discriminate].
      apply datetime_lt_Ok in Ec as [_ Hkind].
      assert (Hy : y ∈ l) by (rewrite Hperm; apply list_elem_of_here).
      destruct Hcmp as [Hn|Ha]; [left|right]; constructor; try done.
      * apply Hkind. by eapply Forall_forall in Hn.
      * eapply Forall_forall in Ha; [|exact Hy]. destruct Ha as [o Ho].
        destruct (tzinfo (fst x)) eqn:Ex; [by eexists|].
        destruct Hkind as [Hk _]. specialize (Hk eq_refl). congruence.
    + intros Hcmp.
      assert (Hl : comparable l).
      { destruct Hcmp as [Hn|Ha]; [left|right];
          [by apply Forall_cons in Hn as [_ Hn]|by apply Forall_cons in Ha as [_ Ha]]. }
      destruct (proj2 IH Hl) as [s' Es]. rewrite Es. cbn.
      destruct (sort_desc_Ok _ _ Es) as (Hperm & _ & _).
      apply insert_desc_total; [|by eapply comparable_Permutation].
      intros y Hy. assert (Hin : y ∈ l).
      { rewrite Hperm. destruct s'; [done|]. injection Hy as ->. apply list_elem_of_here. }
      destruct Hcmp as [Hn|Ha].
      * apply Forall_cons in Hn as [Hx Hn]. eapply Forall_forall in Hn; [|exact Hin].
        by rewrite Hx, Hn.
      * apply Forall_cons in Ha as [[ox Hx] Ha]. eapply Forall_forall in Ha; [|exact Hin].
        destruct Ha as [oy Hy']. rewrite Hx, Hy'. done.
Qed.
End SortFacts.

Section SelectorFacts.
Context `{Env} (config : Config).

Lemma length_slice_to {A} (l : list A) n : 0 <= n -> llen (slice_to l n) <= n.
Proof.
  intros Hn. unfold slice_to, llen. destruct (Z.leb_spec 0 n) as [_|?]; [|lia].
  rewrite length_take. lia.
Qed.

Lemma slice_to_nonneg {A} (l : list A) n :
  0 <= n -> slice_to l n = firstn (Z.to_nat n) l.
Proof. intros Hn. unfold slice_to. by destruct (Z.leb_spec 0 n) as [_|?]; [|lia]. Qed.

Lemma slice_to_all {A} (l : list A) n : llen l <= n -> slice_to l n = l.
Proof.
  intros Hn. unfold llen in Hn. rewrite slice_to_nonneg by lia.
  apply firstn_all2. lia.
Qed.

(** Computing the keys does not change the state. *)
Lemma sort_key_spec x st : sort_key x st = (key_of (world st) x, st).
Proof.
  unfold sort_key, key_of, bind, lift, parse_date, ret.
  destruct (getitem x "published") as [published|]; [cbn|done].
  by destruct (negb _).
Qed.

Lemma with_keys_spec articles st :
  with_keys articles st = (keys_of (world st) articles, st).
Proof.
  induction articles as [|x articles IH]; [done|].
  cbn [with_keys keys_of]. unfold bind at 1. rewrite sort_key_spec.
  destruct (key_of (world st) x) as [k|]; [cbn|done].
  unfold bind at 1. rewrite IH. by destruct (keys_of (world st) articles).
Qed.

Lemma sorted_by_date_spec articles st :
  sorted_by_date articles st
  = ((let* ks := keys_of (world st) articles in
      let* s := sort_desc ks in
      Ok (map snd s)), st).
Proof.
  unfold sorted_by_date. unfold bind at 1. rewrite with_keys_spec.
  destruct (keys_of (world st) articles) as [ks|]; [cbn|done].
  unfold bind, lift, ret. by destruct (sort_desc ks).
Qed.

(** Tier 0. *)
Lemma rank_tier0 articles target_count st :
  llen articles <= target_count ->
  _rank_articles_efficiently config articles target_count st = (Ok articles, st).
Proof.
  intros Hle. unfold _rank_articles_efficiently.
  by destruct (Z.leb_spec (llen articles) target_count) as [_|?]; [|lia].
Qed.

(** Tier 1: the sorted items when the sort succeeds, the items in input
    order when it raises, truncated in both cases. *)
Lemma rank_tier1 articles target_count st :
  target_count < llen articles -> tier1 config articles target_count = Ok true ->
  _rank_articles_efficiently config articles target_count st
  = (Ok (slice_to
           match (let* ks := keys_of (world st) articles in
                  let* s := sort_desc ks in
                  Ok (map snd s)) with
           | Ok sorted_articles => sorted_articles
           | Raise _ => articles
           end target_count), st).
Proof.
  intros Hlt Ht1. unfold _rank_articles_efficiently.
  destruct (Z.leb_spec (llen articles) target_count) as [?|_]; [lia|].
  rewrite bind_lift, Ht1. unfold try_except, bind at 1. rewrite sorted_by_date_spec.
  by destruct (let* ks := keys_of (world st) articles in _).
Qed.

(** The test of Tier 1 has an outcome for a count within the range of
    the floats, and when ranking is switched off; it raises nothing but
    [OverflowError], and only for a count beyond that range with ranking
    switched on. *)
Lemma tier1_fits articles target_count :
  fits_float target_count -> exists b, tier1 config articles target_count = Ok b.
Proof.
  intros Hfit. unfold tier1, le_one_and_a_half, float_of_int. unfold fits_float in Hfit.
  destruct (negb _); [by eexists|].
  destruct (Z.leb_spec (2 ^ 1024 - 2 ^ 970) (Z.abs target_count)) as [?|_]; [lia|].
  by eexists.
Qed.

Lemma tier1_switched_off articles target_count :
  SMART_RANKING_ENABLED config = false -> tier1 config articles target_count = Ok true.
Proof. intros Hoff. unfold tier1. by rewrite Hoff. Qed.

Lemma tier1_Raise articles target_count e :
  tier1 config articles target_count = Raise e ->
  e = OverflowError "int too large to convert to float"
  /\ SMART_RANKING_ENABLED config = true /\ ~ fits_float target_count.
Proof.
  unfold tier1, le_one_and_a_half, float_of_int, fits_float.
  destruct (SMART_RANKING_ENABLED config); [cbn|done].
  destruct (Z.leb_spec (2 ^ 1024 - 2 ^ 970) (Z.abs target_count)) as [Hge|_]; [|done].
  intros [= <-]. repeat split. lia.
Qed.

(** When the test of Tier 1 raises, so does the selector, before it
    prints or calls anything. *)
Lemma rank_overflow articles target_count st e :
  target_count < llen articles -> tier1 config articles target_count = Raise e ->
  _rank_articles_efficiently config articles target_count st = (Raise e, st).
Proof.
  intros Hlt Ht1. unfold _rank_articles_efficiently.
  destruct (Z.leb_spec (llen articles) target_count) as [?|_]; [lia|].
  by rewrite bind_lift, Ht1.
Qed.

(** [execute] never raises: it returns the content the client returns,
    or an error string that starts with the letter E. *)
Lemma execute_spec instructions task st :
  exists w',
    chat_completions_create (OPENAI_MODEL config) instructions task
      (API_CALL_TIMEOUT_SECONDS config) (world st)
    = (match fst (chat_completions_create (OPENAI_MODEL config) instructions task
                    (API_CALL_TIMEOUT_SECONDS config) (world st)) with
       | Ok r => Ok r | Raise e => Raise e end, w')
    /\ exists response,
         execute config instructions task st
         = (Ok response, {| world := w'; stdout := stdout st; trace := trace st |})
         /\ match fst (chat_completions_create (OPENAI_MODEL config) instructions task
                         (API_CALL_TIMEOUT_SECONDS config) (world st)) with
            | Ok content => response = content
            | Raise _ => exists rest, response = String "E" rest
            end.
Proof.
  unfold execute, try_except, call.
  destruct (chat_completions_create _ _ _ _ _) as [[content|e] w']; cbn [fst].
  - exists w'. split; [done|]. by exists content.
  - exists w'. split; [done|]. destruct (contains "timeout" (lower (str_exn e))).
    + eexists. split; [reflexivity|]. by eexists.
    + eexists. split; [reflexivity|]. by eexists.
Qed.

(** A response that starts with the letter E is not a list of
    integers. *)
Lemma parse_indices_E rest :
  exists e, parse_indices (split_comma (String "E" rest)) = Raise e.
Proof.
  assert (exists piece pieces, split_comma (String "E" rest) = String "E" piece :: pieces)
    as (piece & pieces & ->).
  { cbn [split_comma]. change (Ascii.eqb "E" ",") with false. cbv iota.
    destruct (split_comma rest); by eexists _, _. }
  cbn [parse_indices]. destruct (strip_E piece) as [piece' ->].
  destruct (int_E piece') as [e ->]. by eexists.
Qed.

(** Tier 2: every way in which it can end. *)
Lemma rank_tier2 articles target_count st :
  target_count < llen articles -> tier1 config articles target_count = Ok false ->
  (exists e, ranking_lines 0 articles = Raise e
             /\ _rank_articles_efficiently config articles target_count st = (Raise e, st))
  \/ (exists lines st1 response,
        ranking_lines 0 articles = Ok lines
        /\ execute config fetcher_instructions
             (ranking_task (llen articles) target_count (join nl lines)) st
           = (Ok response, st1)
        /\ ((exists selected_indices,
               parse_indices (split_comma response) = Ok selected_indices
               /\ _rank_articles_efficiently config articles target_count st
                  = (Ok (slice_to (select_indices articles selected_indices) target_count),
                     st1))
            \/ (exists e st2,
                  parse_indices (split_comma response) = Raise e
                  /\ _rank_articles_efficiently config articles target_count st
                     = (Ok (slice_to articles target_count), st2)
                  /\ world st2 = world st1))).
Proof.
  intros Hlt Ht1. unfold _rank_articles_efficiently.
  destruct (Z.leb_spec (llen articles) target_count) as [?|_]; [lia|].
  rewrite bind_lift, Ht1. cbv iota. rewrite bind_lift.
  destruct (ranking_lines 0 articles) as [lines|e]; [|left; by exists e].
  right. exists lines.
  destruct (execute_spec fetcher_instructions
              (ranking_task (llen articles) target_count (join nl lines)) st)
    as (w' & _ & response & Hex & _).
  eexists _, response. split; [done|]. split; [exact Hex|].
  destruct (parse_indices (split_comma response)) as [selected|e] eqn:Ep.
  - left. exists selected. split; [done|].
    apply try_except_Ok. rewrite (bind_Ok _ _ _ _ _ Hex), bind_lift, Ep. reflexivity.
  - right. eexists e, _. split; [done|].
    erewrite try_except_Raise;
      [|by rewrite (bind_Ok _ _ _ _ _ Hex), bind_lift, Ep].
    split; reflexivity.
Qed.
End SelectorFacts.

Section SelectorTheorems.
Context `{Env} (config : Config).

Lemma ranking_lines_total i articles :
  Forall has_prompt_keys articles -> exists lines, ranking_lines i articles = Ok lines.
Proof.
  intros Hall. revert i. induction Hall as [|a articles ([s Hs] & [t Ht]) _ IH]; intros i.
  - by eexists.
  - cbn. unfold getitem. rewrite Hs, Ht. cbn. destruct (IH (i + 1)) as [lines ->].
    by eexists.
Qed.



Lemma keys_of_Forall2 w articles ks :
  keys_of w articles = Ok ks ->
  Forall2 (fun x k => key_of w x = Ok (fst k) /\ snd k = x) articles ks.
Proof.
  revert ks. induction articles as [|x articles IH]; cbn; intros ks Hk.
  - injection Hk as <-. constructor.
  - destruct (key_of w x) as [k|] eqn:Ek; [cbn in Hk|discriminate].
    destruct (keys_of w articles) as [ks'|]; [cbn in Hk|discriminate].
    injection Hk as <-. constructor; [done|]. by apply IH.
Qed.

Lemma keys_of_Raise w articles x e :
  x ∈ articles -> key_of w x = Raise e -> exists e', keys_of w articles = Raise e'.
Proof.
  induction articles as [|y articles IH]; intros Hin Hx; [by apply elem_of_nil in Hin|].
  cbn. apply elem_of_cons in Hin as [<-|Hin].
  - rewrite Hx. by eexists.
  - destruct (key_of w y); [cbn|by eexists].
    destruct (IH Hin Hx) as [e' ->]. by eexists.
Qed.

(** C9, as the code has it.  In Tier 1 the key of an item is the minimum
    time when its timestamp is the sentinel "Unknown date" and its
    parsed timestamp otherwise.  When every key is obtained and the keys
    can be compared, the selector returns the items stably sorted by
    decreasing key, truncated to [target_count].  When a key cannot be
    obtained, which is the case as soon as parsing one timestamp raises,
    or when the keys mix naive and aware values, it returns the items in
    input order, truncated to [target_count].  It never raises. *)
Theorem rank_tier1_sorts_or_falls_back articles target_count st :
  target_count < llen articles ->
  tier1 config articles target_count = Ok true ->
  let w := world st in
  exists out,
    _rank_articles_efficiently config articles target_count st = (Ok out, st)
    /\ (forall x, x !! "published" = Some "Unknown date" ->
          key_of w x = Ok datetime_min)
    /\ (forall x published,
          x !! "published" = Some published -> published <> "Unknown date" ->
          key_of w x = date_parser_parse published w)
    /\ (forall ks, keys_of w articles = Ok ks ->
          Forall2 (fun x k => key_of w x = Ok (fst k) /\ snd k = x) articles ks)
    /\ (forall ks, keys_of w articles = Ok ks -> comparable ks ->
          exists s,
            sort_desc ks = Ok s
            /\ out = slice_to (map snd s) target_count
            /\ Permutation ks s
            /\ StronglySorted key_ge s
            /\ forall t, with_instant t s = with_instant t ks)
    /\ (forall ks, keys_of w articles = Ok ks -> ~ comparable ks ->
          out = slice_to articles target_count)
    /\ (forall x e, x ∈ articles -> key_of w x = Raise e ->
          out = slice_to articles target_count).
Proof.
  intros Hlt Ht1 w. eexists. split; [exact (rank_tier1 config _ _ st Hlt Ht1)|].
  fold w. split; [|split; [|split; [|split; [|split]]]].
  - intros x Hx. unfold key_of, getitem. by rewrite Hx.
  - intros x published Hx Hne. unfold key_of, getitem. rewrite Hx. cbn.
    by rewrite (proj2 (String.eqb_neq _ _) Hne).
  - apply keys_of_Forall2.
  - intros ks -> Hcmp. cbn [bind_res].
    destruct (proj2 (sort_desc_comparable ks) Hcmp) as [s Hs].
    exists s. rewrite Hs. cbn [bind_res].
    destruct (sort_desc_Ok _ _ Hs) as (Hperm & Hsorted & Hstable). done.
  - intros ks -> Hcmp. cbn [bind_res].
    destruct (sort_desc ks) as [s|] eqn:Es; [|done].
    exfalso. apply Hcmp. apply sort_desc_comparable. by exists s.
  - intros x e Hin Hx. by destruct (keys_of_Raise w articles x e Hin Hx) as [e' ->].
Qed.
End SelectorTheorems.

(** ** Collector *)

Section CollectorFacts.
Context `{Env} (config : Config).

Lemma new_article_source entry published_date source_name now :
  new_article entry published_date source_name now !! "source" = Some source_name.
Proof. unfold new_article. cbn [list_to_map foldr uncurry]. by simplify_map_eq. Qed.

(** What the inner loop appends does not depend on what was collected
    before, has at most as many items as the cap leaves room for, and
    carries the name of the feed. *)
Lemma collect_entries_chunk source_name entries added st :
  exists chunk e st',
    llen chunk <= Z.max 0 (ARTICLES_PER_SOURCE config - added)
    /\ Forall (fun a => a !! "source" = Some source_name) chunk
    /\ forall v, exists v',
         collect_entries config source_name entries added v st = (e, v', st')
         /\ fetched_articles v' = fetched_articles v ++ chunk.
Proof.
  revert added st. induction entries as [|entry entries IH]; intros added st.
  - exists [], None, st. split; [unfold llen; cbn; lia|]. split; [constructor|].
    intros v. exists v. by rewrite app_nil_r.
  - cbn [collect_entries].
    destruct (Z.leb_spec (ARTICLES_PER_SOURCE config) added) as [Hfull|Hroom].
    { exists [], None, st. split; [unfold llen; cbn; lia|]. split; [constructor|].
      intros v. exists v. by rewrite app_nil_r. }
    destruct (is_article_recent_total config
                (Some (get entry "published" (get entry "updated" "Unknown date")))
                None st) as (recent & st1 & -> & _ & _).
    destruct recent.
    + set (article := new_article entry _ source_name _).
      destruct (negb (_is_ai_related article)) eqn:Eai.
      * destruct (IH added st1) as (chunk & e & st' & Hlen & Hsrc & Hv).
        exists chunk, e, st'. split; [done|]. split; [done|].
        intros v. destruct (Hv {| fetched_articles := fetched_articles v;
                                  rejected_old_articles := rejected_old_articles v;
                                  rejected_non_ai_articles := rejected_non_ai_articles v + 1 |})
          as (v' & -> & Hf). by exists v'.
      * destruct (IH (added + 1) st1) as (chunk & e & st' & Hlen & Hsrc & Hv).
        exists (article :: chunk), e, st'. split; [|split].
        -- unfold llen in *. cbn [length]. lia.
        -- constructor; [|done]. apply new_article_source.
        -- intros v. destruct (Hv {| fetched_articles := fetched_articles v ++ [article];
                                     rejected_old_articles := rejected_old_articles v;
                                     rejected_non_ai_articles := rejected_non_ai_articles v |})
             as (v' & -> & Hf). exists v'. split; [done|].
           rewrite Hf. cbn. by rewrite <- app_assoc.
    + destruct (IH added st1) as (chunk & e & st' & Hlen & Hsrc & Hv).
      exists chunk, e, st'. split; [done|]. split; [done|].
      intros v. destruct (Hv {| fetched_articles := fetched_articles v;
                                rejected_old_articles := rejected_old_articles v + 1;
                                rejected_non_ai_articles := rejected_non_ai_articles v |})
        as (v' & -> & Hf). by exists v'.
Qed.

(** The same for the body of the outer loop. *)
Lemma collect_feed_chunk feed_url st :
  exists chunk st',
    llen chunk <= Z.max 0 (ARTICLES_PER_SOURCE config)
    /\ (exists source_name, Forall (fun a => a !! "source" = Some source_name) chunk)
    /\ forall v, exists v',
         collect_feed config feed_url v st = (v', st')
         /\ fetched_articles v' = fetched_articles v ++ chunk.
Proof.
  unfold collect_feed.
  destruct (call (feedparser_parse feed_url) st) as [[parsed|e] st1].
  - destruct (collect_entries_chunk (get (feed parsed) "title" "Unknown Source")
                (entries parsed) 0 st1) as (chunk & e & st' & Hlen & Hsrc & Hv).
    rewrite Z.sub_0_r in Hlen. destruct e as [e|].
    + eexists chunk, _. split; [done|]. split; [by eexists|].
      intros v. destruct (Hv v) as (v' & -> & Hf). by exists v'.
    + eexists chunk, _. split; [done|]. split; [by eexists|].
      intros v. destruct (Hv v) as (v' & -> & Hf). by exists v'.
  - eexists [], _. split; [unfold llen; cbn; lia|]. split; [by exists ""|].
    intros v. exists v. by rewrite app_nil_r.
Qed.

Lemma collect_feeds_chunks feeds v st :
  fetched_articles (fst (collect_feeds config feeds v st))
  = fetched_articles v ++ concat (feed_chunks config feeds st).
Proof.
  revert v st. induction feeds as [|feed_url feeds IH]; intros v st.
  - cbn. by rewrite app_nil_r.
  - cbn [collect_feeds feed_chunks]. unfold feed_chunk.
    destruct (collect_feed_chunk feed_url st) as (chunk & st' & _ & _ & Hv).
    destruct (Hv v) as (v' & -> & Hf). destruct (Hv collect_init) as (v0 & -> & Hf0).
    rewrite IH, Hf, Hf0. cbn. by rewrite <- app_assoc.
Qed.

Lemma feed_chunks_bound feeds st :
  length (feed_chunks config feeds st) = length feeds
  /\ Forall (fun chunk =>
               llen chunk <= Z.max 0 (ARTICLES_PER_SOURCE config)
               /\ exists source_name,
                    Forall (fun a => a !! "source" = Some source_name) chunk)
       (feed_chunks config feeds st).
Proof.
  revert st. induction feeds as [|feed_url feeds IH]; intros st; [by split|].
  cbn [feed_chunks]. unfold feed_chunk.
  destruct (collect_feed_chunk feed_url st) as (chunk & st' & Hlen & Hsrc & Hv).
  destruct (Hv collect_init) as (v0 & -> & Hf0). cbn in Hf0. rewrite Hf0.
  destruct (IH st') as [Hl Hall]. split; [cbn; by rewrite Hl|]. by constructor.
Qed.

(** C7.  The articles collected in phase 1 are the contributions of the
    feeds, one after the other, one contribution for every feed
    processed; what a feed contributes does not depend on how many
    articles were collected before its turn; and no contribution has
    more than [ARTICLES_PER_SOURCE] items, as long as that setting is
    not negative.  The items of one contribution carry one source
    name. *)
Theorem collect_per_source_cap st :
  0 <= ARTICLES_PER_SOURCE config ->
  let feeds := slice_to (rss_feeds config) (MAX_FEEDS_TO_PROCESS config) in
  let chunks := feed_chunks config feeds st in
  fetched_articles (fst (collect config st)) = concat chunks
  /\ length chunks = length feeds
  /\ Forall (fun chunk => llen chunk <= ARTICLES_PER_SOURCE config) chunks
  /\ Forall (fun chunk => exists source_name,
               Forall (fun a => a !! "source" = Some source_name) chunk) chunks
  /\ (forall feed_url v st0,
        fetched_articles (fst (collect_feed config feed_url v st0))
        = fetched_articles v ++ fst (feed_chunk config feed_url st0)).
Proof.
  intros Hcap feeds chunks. split; [|split; [|split; [|split]]].
  - unfold collect. fold feeds. by rewrite collect_feeds_chunks.
  - apply feed_chunks_bound.
  - eapply Forall_impl; [apply feed_chunks_bound|].
    intros chunk [Hlen _]. cbn in Hlen. lia.
  - eapply Forall_impl; [apply feed_chunks_bound|]. by intros chunk [_ Hsrc].
  - intros feed_url v st0. unfold feed_chunk.
    destruct (collect_feed_chunk feed_url st0) as (chunk & st' & _ & _ & Hv).
    destruct (Hv v) as (v' & -> & Hf). destruct (Hv collect_init) as (v0 & -> & Hf0).
    cbn in *. by rewrite Hf, Hf0.
Qed.
End CollectorFacts.

(** ** Summarizer *)

Section SummarizerFacts.
Context `{Env} (config : Config).

Lemma summarize_article_Ok a st o st' :
  summarize_article config a st = (Ok o, st') ->
  exists summary, o = <[ "ai_summary" := summary ]> a.
Proof.
  unfold summarize_article. rewrite !bind_lift.
  destruct (getitem a "title") as [title|]; [|done].
  rewrite bind_lift. destruct (getitem a "source") as [source|]; [|done].
  rewrite bind_lift. destruct (getitem a "description") as [description|]; [|done].
  destruct (execute_spec config summarizer_instructions
              (summarize_task title source description (SUMMARY_LENGTH config)) st)
    as (w' & _ & summary & Hex & _).
  rewrite (bind_Ok _ _ _ _ _ Hex). intros [= <- <-]. by exists summary.
Qed.

(** [summarize_article] returns for an article with title, source and
    description, and raises without touching the state when one of them
    is missing. *)
Lemma summarize_article_cases a st :
  (exists title source description response st',
      a !! "title" = Some title /\ a !! "source" = Some source
      /\ a !! "description" = Some description
      /\ execute config summarizer_instructions
           (summarize_task title source description (SUMMARY_LENGTH config)) st
         = (Ok response, st')
      /\ summarize_article config a st = (Ok (<[ "ai_summary" := response ]> a), st'))
  \/ (exists key,
        a !! key = None /\ key ∈ ["title"; "source"; "description"]
        /\ summarize_article config a st = (Raise (KeyError key), st)).
Proof.
  unfold summarize_article. rewrite !bind_lift. unfold getitem.
  destruct (a !! "title") as [title|] eqn:Et.
  2:{ right. exists "title". repeat split; [done|apply list_elem_of_here]. }
  rewrite bind_lift. destruct (a !! "source") as [source|] eqn:Es.
  2:{ right. exists "source". repeat split; [done|].
      apply list_elem_of_further, list_elem_of_here. }
  rewrite bind_lift. destruct (a !! "description") as [description|] eqn:Ed.
  2:{ right. exists "description". repeat split; [done|].
      do 2 apply list_elem_of_further. apply list_elem_of_here. }
  left. destruct (execute_spec config summarizer_instructions
              (summarize_task title source description (SUMMARY_LENGTH config)) st)
    as (w' & _ & summary & Hex & _).
  exists title, source, description, summary. eexists. repeat split; [exact Hex|].
  by rewrite (bind_Ok _ _ _ _ _ Hex).
Qed.

Lemma summarize_loop_spec articles i total summarized_articles st :
  Forall (fun a => is_Some (a !! "title")) articles ->
  exists out st',
    summarize_loop config i total articles summarized_articles st
    = (Ok (summarized_articles ++ out), st')
    /\ Forall2 (summarized_or_kept config) articles out.
Proof.
  intros Hall. revert i summarized_articles st.
  induction Hall as [|a articles [title Ht] _ IH]; intros i acc st.
  - exists [], st. split; [cbn; by rewrite app_nil_r|constructor].
  - cbn [summarize_loop]. rewrite bind_lift. unfold getitem. rewrite Ht.
    rewrite bind_print.
    match goal with |- context [bind _ _ ?s] => set (st1 := s) end.
    destruct (summarize_article_cases a st1)
      as [(title' & source & description & response & st2 & Ht' & Hs & Hd & Hex & Es)
         |(key & Hnone & Hkey & Es)].
    + erewrite bind_Ok;
        [|apply try_except_Ok; erewrite bind_Ok; [reflexivity|exact Es]].
      destruct (IH (i + 1) (acc ++ [<[ "ai_summary" := response ]> a]) st2)
        as (out & st' & -> & Hout).
      exists (<[ "ai_summary" := response ]> a :: out), st'.
      split; [by rewrite <- app_assoc|].
      constructor; [|done]. left.
      by exists title', source, description, st1, response, st2.
    + erewrite bind_Ok;
        [|erewrite try_except_Raise;
           [rewrite bind_print; reflexivity|erewrite bind_Raise; [reflexivity|exact Es]]].
      match goal with |- context [summarize_loop _ _ _ _ _ ?s] => set (st3 := s) end.
      destruct (IH (i + 1) (acc ++ [a]) st3) as (out & st' & -> & Hout).
      exists (a :: out), st'. split; [by rewrite <- app_assoc|].
      constructor; [|done]. right. split; [|done].
      apply elem_of_cons in Hkey as [->|Hkey]; [congruence|].
      apply elem_of_cons in Hkey as [->|Hkey]; [by left|].
      apply elem_of_cons in Hkey as [->|Hkey]; [by right|].
      by apply elem_of_nil in Hkey.
Qed.

(** The loop of [summarize_articles] is between its two lines. *)
Lemma summarize_articles_loop articles st out st' :
  summarize_loop config 1 (llen articles) articles []
    {| world := world st;
       stdout := stdout st ++ [nl +:+ "[" +:+ summarizer_name +:+ "] Summarizing "
                                 +:+ pretty (llen articles) +:+ " articles..."];
       trace := trace st |}
  = (Ok out, st') ->
  summarize_articles config articles st
  = (Ok out,
     {| world := world st';
        stdout := stdout st' ++ [nl +:+ "[" +:+ summarizer_name
                                   +:+ "] Completed summarization of "
                                   +:+ pretty (llen out) +:+ " articles"];
        trace := trace st' |}).
Proof.
  intros Hloop. unfold summarize_articles. rewrite bind_print.
  rewrite (bind_Ok _ _ _ _ _ Hloop). by rewrite bind_print.
Qed.

(** An article without a title ends the loop with a [KeyError]. *)
Lemma summarize_loop_without_title before a after i total summarized_articles st :
  Forall (fun a => is_Some (a !! "title")) before -> a !! "title" = None ->
  exists st',
    summarize_loop config i total (before ++ a :: after) summarized_articles st
    = (Raise (KeyError "title"), st').
Proof.
  intros Hall Hnone. revert i summarized_articles st.
  induction Hall as [|b before [title Ht] _ IH]; intros i acc st.
  - cbn [app summarize_loop]. rewrite bind_lift. unfold getitem. rewrite Hnone.
    by eexists.
  - cbn [app summarize_loop]. rewrite bind_lift. unfold getitem. rewrite Ht.
    rewrite bind_print.
    match goal with |- context [bind _ _ ?s] => set (st1 := s) end.
    destruct (try_except
                (bind (summarize_article config b) (fun summarized => ret (acc ++ [summarized])))
                (fun e => bind (print ("  [-] Error summarizing article: " +:+ str_exn e))
                            (fun _ => ret (acc ++ [b]))) st1) as [[acc'|e] st2] eqn:Et.
    + rewrite (bind_Ok _ _ _ _ _ Et). apply IH.
    + exfalso. unfold try_except in Et.
      destruct (bind (summarize_article config b) _ st1) as [[x|e'] st3]; [done|].
      by rewrite bind_print in Et.
Qed.

End SummarizerFacts.

(** ** Workflow coordinator *)

Section TraceFacts.
Context `{Env} (config : Config).

Lemma keeps_trace_ret {A} (a : A) : keeps_trace (ret a).
Proof. by intros st. Qed.

Lemma keeps_trace_lift {A} (r : res A) : keeps_trace (lift r).
Proof. by intros st. Qed.

Lemma keeps_trace_print line : keeps_trace (print line).
Proof. by intros st. Qed.

Lemma keeps_trace_observe {A} (f : World -> A) : keeps_trace (observe f).
Proof. by intros st. Qed.

Lemma keeps_trace_parse_date s : keeps_trace (parse_date s).
Proof. by intros st. Qed.

Lemma keeps_trace_call {A} (f : World -> res A * World) : keeps_trace (call f).
Proof. intros st. unfold call. by destruct (f (world st)). Qed.

Lemma keeps_trace_bind {A B} (m : M A) (f : A -> M B) :
  keeps_trace m -> (forall a, keeps_trace (f a)) -> keeps_trace (bind m f).
Proof.
  intros Hm Hf st. unfold bind. specialize (Hm st).
  destruct (m st) as [[a|e] st1]; cbn in Hm; [|done].
  by rewrite Hf.
Qed.

Lemma keeps_trace_try_except {A} (body : M A) handler :
  keeps_trace body -> (forall e, keeps_trace (handler e)) ->
  keeps_trace (try_except body handler).
Proof.
  intros Hb Hh st. unfold try_except. specialize (Hb st).
  destruct (body st) as [[a|e] st1]; cbn in Hb; [done|].
  by rewrite Hh.
Qed.
End TraceFacts.

Create HintDb keeps.
#[local] Hint Resolve keeps_trace_ret keeps_trace_lift keeps_trace_print
  keeps_trace_observe keeps_trace_parse_date keeps_trace_call : keeps.

Ltac keeps :=
  repeat first
    [ progress auto with keeps
    | apply keeps_trace_bind; [|intros ?]
    | apply keeps_trace_try_except; [|intros ?]
    | match goal with
      | |- keeps_trace (if ?b then _ else _) => destruct b
      | |- keeps_trace (match ?x with _ => _ end) => destruct x
      end ].

Section PhaseFacts.
Context `{Env} (config : Config).

Lemma keeps_trace_execute instructions task :
  keeps_trace (execute config instructions task).
Proof. unfold execute. keeps. Qed.

Lemma keeps_trace_is_article_recent published_date max_age_days :
  keeps_trace (_is_article_recent config published_date max_age_days).
Proof.
  intros st.
  by destruct (is_article_recent_total config published_date max_age_days st)
    as (b & st' & -> & _ & Htr).
Qed.

Lemma keeps_trace_with_keys articles : keeps_trace (with_keys articles).
Proof. intros st. by rewrite with_keys_spec. Qed.

Lemma keeps_trace_rank articles target_count :
  keeps_trace (_rank_articles_efficiently config articles target_count).
Proof.
  unfold _rank_articles_efficiently, sorted_by_date.
  pose proof keeps_trace_execute. pose proof keeps_trace_with_keys. keeps.
Qed.

Lemma collect_entries_trace source_name entries added v st :
  trace (snd (collect_entries config source_name entries added v st)) = trace st.
Proof.
  revert added v st. induction entries as [|entry entries IH]; intros added v st; [done|].
  cbn [collect_entries]. destruct (_ <=? _); [done|].
  pose proof (keeps_trace_is_article_recent
                (Some (get entry "published" (get entry "updated" "Unknown date")))
                None st) as Hk.
  destruct (_is_article_recent _ _ _ st) as [[[]|e] st1]; cbn in Hk; [| |done].
  - destruct (negb _); by rewrite IH.
  - by rewrite IH.
Qed.

Lemma collect_feed_trace feed_url v st :
  trace (snd (collect_feed config feed_url v st)) = trace st.
Proof.
  unfold collect_feed. pose proof (keeps_trace_call (feedparser_parse feed_url) st) as Hk.
  destruct (call _ st) as [[parsed|e] st1]; cbn in Hk; [|done].
  pose proof (collect_entries_trace (get (feed parsed) "title" "Unknown Source")
                (entries parsed) 0 v st1) as Hk1.
  destruct (collect_entries _ _ _ _ _ _) as [[[e|] v'] st2]; cbn in *; congruence.
Qed.

Lemma collect_feeds_trace feeds v st :
  trace (snd (collect_feeds config feeds v st)) = trace st.
Proof.
  revert v st. induction feeds as [|feed_url feeds IH]; intros v st; [done|].
  cbn [collect_feeds]. pose proof (collect_feed_trace feed_url v st) as Hk.
  destruct (collect_feed _ _ _ _) as [v' st1]. cbn in Hk. by rewrite IH.
Qed.

Lemma keeps_trace_fetch_news max_articles : keeps_trace (fetch_news config max_articles).
Proof.
  intros st. unfold fetch_news, collect.
  pose proof (collect_feeds_trace
                (slice_to (rss_feeds config) (MAX_FEEDS_TO_PROCESS config))
                (collect_init) st) as Hk.
  destruct (collect_feeds _ _ _ _) as [v st1]. cbn in Hk.
  destruct (fetched_articles v) as [|a l]; [done|].
  rewrite <- Hk. generalize st1. change (keeps_trace
    (bind (lift (_deduplicate_articles config (a :: l)))
       (fun articles =>
          if default (MAX_ARTICLES config) max_articles <? llen articles
          then _rank_articles_efficiently config articles
                 (default (MAX_ARTICLES config) max_articles)
          else ret articles))).
  pose proof keeps_trace_rank. keeps.
Qed.

Lemma keeps_trace_filter_articles articles criteria :
  keeps_trace (filter_articles config articles criteria).
Proof. unfold filter_articles. pose proof keeps_trace_execute. keeps. Qed.

Lemma keeps_trace_summarize_article article :
  keeps_trace (summarize_article config article).
Proof. unfold summarize_article. pose proof keeps_trace_execute. keeps. Qed.

Lemma keeps_trace_summarize_loop i total articles summarized_articles :
  keeps_trace (summarize_loop config i total articles summarized_articles).
Proof.
  revert i summarized_articles.
  induction articles as [|a articles IH]; intros i acc; cbn [summarize_loop].
  - keeps.
  - pose proof keeps_trace_summarize_article. keeps.
Qed.

Lemma keeps_trace_summarize_articles articles :
  keeps_trace (summarize_articles config articles).
Proof. unfold summarize_articles. pose proof keeps_trace_summarize_loop. keeps. Qed.

Lemma keeps_trace_identify_themes articles :
  keeps_trace (identify_themes config articles).
Proof. unfold identify_themes. pose proof keeps_trace_execute. keeps. Qed.

Lemma keeps_trace_compile_digest articles themes :
  keeps_trace (compile_digest config articles themes).
Proof. unfold compile_digest. pose proof keeps_trace_execute. keeps. Qed.

Lemma keeps_trace_format_digest_markdown articles themes :
  keeps_trace (format_digest_markdown articles themes).
Proof. unfold format_digest_markdown. keeps. Qed.

Lemma keeps_trace_save_digest digest : keeps_trace (save_digest config digest).
Proof. unfold save_digest. keeps. Qed.
End PhaseFacts.

(** What writes no file. *)

Section WorldFacts.
Context `{Env} (config : Config).

Lemma writes_nothing_same_world {A} (m : M A) :
  (forall st, world (snd (m st)) = world st) -> writes_nothing m.
Proof. intros Hm st. by rewrite Hm. Qed.

Lemma writes_nothing_ret {A} (a : A) : writes_nothing (ret a).
Proof. by apply writes_nothing_same_world. Qed.

Lemma writes_nothing_lift {A} (r : res A) : writes_nothing (lift r).
Proof. by apply writes_nothing_same_world. Qed.

Lemma writes_nothing_print line : writes_nothing (print line).
Proof. by apply writes_nothing_same_world. Qed.

Lemma writes_nothing_observe {A} (f : World -> A) : writes_nothing (observe f).
Proof. by apply writes_nothing_same_world. Qed.

Lemma writes_nothing_parse_date s : writes_nothing (parse_date s).
Proof. by apply writes_nothing_same_world. Qed.

Lemma writes_nothing_record e : writes_nothing (record e).
Proof. by apply writes_nothing_same_world. Qed.

Lemma writes_nothing_enter p : writes_nothing (enter p).
Proof. by apply writes_nothing_same_world. Qed.

Lemma writes_nothing_time_limit_exceeded start_time :
  writes_nothing (time_limit_exceeded config start_time).
Proof. by apply writes_nothing_same_world. Qed.

Lemma writes_nothing_fetch feed_url : writes_nothing (call (feedparser_parse feed_url)).
Proof.
  intros st. unfold call. apply rtc_once. left. exists feed_url.
  by destruct (feedparser_parse feed_url (world st)).
Qed.

Lemma writes_nothing_chat model instructions task timeout :
  writes_nothing (call (chat_completions_create model instructions task timeout)).
Proof.
  intros st. unfold call. apply rtc_once. right. exists model, instructions, task, timeout.
  by destruct (chat_completions_create model instructions task timeout (world st)).
Qed.

Lemma writes_nothing_bind {A B} (m : M A) (f : A -> M B) :
  writes_nothing m -> (forall a, writes_nothing (f a)) -> writes_nothing (bind m f).
Proof.
  intros Hm Hf st. unfold bind. specialize (Hm st).
  destruct (m st) as [[a|e] st1]; cbn in Hm; [|done].
  etrans; [exact Hm|apply Hf].
Qed.

Lemma writes_nothing_try_except {A} (body : M A) handler :
  writes_nothing body -> (forall e, writes_nothing (handler e)) ->
  writes_nothing (try_except body handler).
Proof.
  intros Hb Hh st. unfold try_except. specialize (Hb st).
  destruct (body st) as [[a|e] st1]; cbn in Hb; [done|].
  etrans; [exact Hb|apply Hh].
Qed.
End WorldFacts.

Create HintDb quiet.
#[local] Hint Resolve writes_nothing_ret writes_nothing_lift writes_nothing_print
  writes_nothing_observe writes_nothing_parse_date writes_nothing_record
  writes_nothing_enter writes_nothing_time_limit_exceeded writes_nothing_fetch
  writes_nothing_chat : quiet.

Ltac quiet :=
  repeat first
    [ progress auto with quiet
    | apply writes_nothing_bind; [|intros ?]
    | apply writes_nothing_try_except; [|intros ?]
    | match goal with
      | |- writes_nothing (if ?b then _ else _) => destruct b
      | |- writes_nothing (match ?x with _ => _ end) => destruct x
      end ].

Section QuietPhases.
Context `{Env} (config : Config).

Lemma writes_nothing_execute instructions task :
  writes_nothing (execute config instructions task).
Proof. unfold execute. quiet. Qed.

Lemma writes_nothing_is_article_recent published_date max_age_days :
  writes_nothing (_is_article_recent config published_date max_age_days).
Proof.
  apply writes_nothing_same_world. intros st.
  by destruct (is_article_recent_total config published_date max_age_days st)
    as (b & st' & -> & Hw & _).
Qed.

Lemma writes_nothing_with_keys articles : writes_nothing (with_keys articles).
Proof. apply writes_nothing_same_world. intros st. by rewrite with_keys_spec. Qed.

Lemma writes_nothing_rank articles target_count :
  writes_nothing (_rank_articles_efficiently config articles target_count).
Proof.
  unfold _rank_articles_efficiently, sorted_by_date.
  pose proof writes_nothing_execute. pose proof writes_nothing_with_keys. quiet.
Qed.

Lemma collect_entries_quiet source_name entries added v st :
  world (snd (collect_entries config source_name entries added v st)) = world st.
Proof.
  revert added v st. induction entries as [|entry entries IH]; intros added v st; [done|].
  cbn [collect_entries]. destruct (_ <=? _); [done|].
  destruct (is_article_recent_total config
              (Some (get entry "published" (get entry "updated" "Unknown date")))
              None st) as (b & st1 & -> & Hw & _).
  cbn [snd] in Hw |- *. destruct b; [destruct (negb _)|]; by rewrite IH.
Qed.

Lemma collect_feed_quiet feed_url v st :
  rtc read_step (world st) (world (snd (collect_feed config feed_url v st))).
Proof.
  unfold collect_feed. pose proof (writes_nothing_fetch feed_url st) as Hk.
  destruct (call _ st) as [[parsed|e] st1]; cbn in Hk; [|done].
  pose proof (collect_entries_quiet (get (feed parsed) "title" "Unknown Source")
                (entries parsed) 0 v st1) as Hk1.
  destruct (collect_entries _ _ _ _ _ _) as [[[e|] v'] st2]; cbn in *; by rewrite Hk1.
Qed.

Lemma collect_feeds_quiet feeds v st :
  rtc read_step (world st) (world (snd (collect_feeds config feeds v st))).
Proof.
  revert v st. induction feeds as [|feed_url feeds IH]; intros v st; [done|].
  cbn [collect_feeds]. pose proof (collect_feed_quiet feed_url v st) as Hk.
  destruct (collect_feed _ _ _ _) as [v' st1]. cbn in Hk. etrans; [exact Hk|apply IH].
Qed.

Lemma writes_nothing_fetch_news max_articles :
  writes_nothing (fetch_news config max_articles).
Proof.
  intros st. unfold fetch_news, collect.
  pose proof (collect_feeds_quiet
                (slice_to (rss_feeds config) (MAX_FEEDS_TO_PROCESS config))
                (collect_init) st) as Hk.
  destruct (collect_feeds _ _ _ _) as [v st1]. cbn in Hk.
  destruct (fetched_articles v) as [|a l]; [done|].
  etrans; [exact Hk|]. generalize st1. change (writes_nothing
    (bind (lift (_deduplicate_articles config (a :: l)))
       (fun articles =>
          if default (MAX_ARTICLES config) max_articles <? llen articles
          then _rank_articles_efficiently config articles
                 (default (MAX_ARTICLES config) max_articles)
          else ret articles))).
  pose proof writes_nothing_rank. quiet.
Qed.

Lemma writes_nothing_filter_articles articles criteria :
  writes_nothing (filter_articles config articles criteria).
Proof. unfold filter_articles. pose proof writes_nothing_execute. quiet. Qed.

Lemma writes_nothing_summarize_article article :
  writes_nothing (summarize_article config article).
Proof. unfold summarize_article. pose proof writes_nothing_execute. quiet. Qed.

Lemma writes_nothing_summarize_loop i total articles summarized_articles :
  writes_nothing (summarize_loop config i total articles summarized_articles).
Proof.
  revert i summarized_articles.
  induction articles as [|a articles IH]; intros i acc; cbn [summarize_loop].
  - quiet.
  - pose proof writes_nothing_summarize_article. quiet.
Qed.

Lemma writes_nothing_summarize_articles articles :
  writes_nothing (summarize_articles config articles).
Proof. unfold summarize_articles. pose proof writes_nothing_summarize_loop. quiet. Qed.

Lemma writes_nothing_identify_themes articles :
  writes_nothing (identify_themes config articles).
Proof. unfold identify_themes. pose proof writes_nothing_execute. quiet. Qed.

Lemma writes_nothing_compile_digest articles themes :
  writes_nothing (compile_digest config articles themes).
Proof. unfold compile_digest. pose proof writes_nothing_execute. quiet. Qed.

Lemma writes_nothing_format_digest_markdown articles themes :
  writes_nothing (format_digest_markdown articles themes).
Proof. unfold format_digest_markdown. quiet. Qed.

(** How a result [None] comes about without a write. *)
Lemma None_without_write_ret r : None_without_write (ret r).
Proof. intros st st' [= _ <-]. done. Qed.

Lemma None_without_write_bind {A} (m : M A) (f : A -> M (option string)) :
  writes_nothing m -> (forall a, None_without_write (f a)) -> None_without_write (bind m f).
Proof.
  intros Hm Hf st st' Hrun. unfold bind in Hrun. specialize (Hm st).
  destruct (m st) as [[a|e] st1]; cbn in Hm; [|done].
  etrans; [exact Hm|by apply (Hf a)].
Qed.

(** After the file is written the result is a path. *)
Lemma None_without_write_Some {A} (m : M A) (f : A -> string) :
  None_without_write (bind m (fun a => ret (Some (f a)))).
Proof.
  intros st st' Hrun. unfold bind, ret in Hrun. by destruct (m st) as [[a|e] st1].
Qed.

Ltac no_write :=
  repeat first
    [ assumption
    | apply None_without_write_ret
    | apply None_without_write_Some
    | apply None_without_write_bind; [solve [quiet]|intros ?]
    | match goal with
      | |- None_without_write (if ?b then _ else _) => destruct b
      | |- None_without_write (match ?x with _ => _ end) => destruct x
      end ].

Lemma run_from_summarize_None start_time articles :
  None_without_write (run_from_summarize config start_time articles).
Proof.
  unfold run_from_summarize.
  pose proof writes_nothing_summarize_articles. pose proof writes_nothing_identify_themes.
  pose proof writes_nothing_compile_digest. pose proof writes_nothing_format_digest_markdown.
  no_write.
  all: apply None_without_write_bind; [solve [quiet]|intros ?].
  all: apply None_without_write_bind; [solve [quiet]|intros ?].
  all: apply (None_without_write_Some _ (fun filepath => filepath)).
Qed.

(** A run that returns [None] has fetched feeds and asked the chat
    client, and written nothing. *)
Lemma run_None max_articles filter_criteria :
  None_without_write (run config max_articles filter_criteria).
Proof.
  unfold run.
  pose proof writes_nothing_fetch_news. pose proof writes_nothing_filter_articles.
  pose proof (run_from_summarize_None) as Hrest.
  assert (forall start_time articles,
            None_without_write (run_from_summarize config start_time articles)) as Hr
    by apply Hrest.
  clear Hrest.
  repeat first
    [ apply Hr
    | apply None_without_write_ret
    | apply None_without_write_bind; [solve [quiet]|intros ?]
    | match goal with
      | |- None_without_write (if ?b then _ else _) => destruct b
      | |- None_without_write (match ?x with _ => _ end) => destruct x
      end ].
Qed.
End QuietPhases.

Section CoordinatorFacts.
Context `{Env} (config : Config).

Lemma time_limit_exceeded_spec start_time st :
  time_limit_exceeded config start_time st
  = (Ok (exceeded config start_time (world st)),
     {| world := world st; stdout := stdout st;
        trace := trace st ++ [Checked (world st) (exceeded config start_time (world st))] |}).
Proof. reflexivity. Qed.

Lemma enter_spec p st :
  enter p st
  = (Ok tt, {| world := world st; stdout := stdout st;
               trace := trace st ++ [Entered p (world st)] |}).
Proof. reflexivity. Qed.

(** One phase of the coordinator: it returns or raises, and records no
    event. *)
Lemma phase_cases {A B} (m : M A) (f : A -> M B) st r st' :
  keeps_trace m -> bind m f st = (r, st') ->
  exists st1, trace st1 = trace st
    /\ ((exists e, m st = (Raise e, st1) /\ r = Raise e /\ st' = st1)
        \/ (exists a, m st = (Ok a, st1) /\ f a st1 = (r, st'))).
Proof.
  intros Hk Hrun. specialize (Hk st). unfold bind in Hrun.
  destruct (m st) as [[a|e] st1]; cbn in Hk; exists st1; (split; [done|]).
  - right. by exists a.
  - left. exists e. by injection Hrun as <- <-.
Qed.
End CoordinatorFacts.

Section CoordinatorTheorems.
Context `{Env} (config : Config).

Ltac check_step Hrun :=
  rewrite (bind_Ok _ _ _ _ _ (time_limit_exceeded_spec config _ _)) in Hrun;
  match type of Hrun with
  | context [exceeded config ?s ?w] =>
      let E := fresh "Ex" in destruct (exceeded config s w) eqn:E
  end.

Ltac enter_step Hrun :=
  rewrite (bind_Ok _ _ _ _ _ (enter_spec _ _)) in Hrun.

Ltac phase_step Hrun K :=
  let st1 := fresh "st" in
  let Htr := fresh "Htr" in
  let e := fresh "e" in
  let a := fresh "a" in
  let Hm := fresh "Hm" in
  apply (phase_cases _ _ _ _ _ K) in Hrun
    as (st1 & Htr & [(e & Hm & -> & ->)|(a & Hm & Hrun)]);
  cbn [trace world stdout] in Htr.

Ltac trace_eq :=
  cbn [trace world stdout] in *;
  repeat match goal with
         | Htr : trace _ = _ |- _ => rewrite Htr; clear Htr
         end;
  rewrite <- ?app_assoc; cbn [app]; reflexivity.

Ltac guarded_events :=
  cbn [guarded];
  repeat match goal with
         | Ex : exceeded _ _ _ = _ |- _ => rewrite Ex
         end;
  repeat split; try done;
  first [ by left
        | right; left; split; [reflexivity|by eexists]
        | right; right; by split ].

Ltac not_entered :=
  cbn; rewrite ?not_elem_of_cons; repeat split; try done; apply not_elem_of_nil.

Ltac no_failed_check :=
  let Hin := fresh "Hin" in
  intros ? Hin; cbn in Hin;
  repeat (apply elem_of_cons in Hin as [Hin|Hin]; [try done|]);
  try (by apply elem_of_nil in Hin).

Ltac leaf :=
  eexists; split; [trace_eq|];
  split; [try intros ?; guarded_events|];
  split; [try done|];
  split; [try done; intros _; split; not_entered|];
  no_failed_check.

Lemma run_from_summarize_events start_time articles st r st' :
  run_from_summarize config start_time articles st = (r, st') ->
  exists events,
    trace st' = trace st ++ events
    /\ (forall prev, guarded config start_time prev events)
    /\ (forall path, r = Ok (Some path) ->
          phases_of events = [Summarize; IdentifyThemes; Compile; Persist])
    /\ (r = Ok None ->
          (Compile ∉ phases_of events) /\ (Persist ∉ phases_of events))
    /\ (forall w, Checked w true ∈ events -> r = Ok None).
Proof.
  unfold run_from_summarize. intros Hrun.
  check_step Hrun; [injection Hrun as <- <-; leaf|].
  enter_step Hrun.
  phase_step Hrun (keeps_trace_summarize_articles config articles); [leaf|].
  check_step Hrun; [injection Hrun as <- <-; leaf|].
  enter_step Hrun.
  phase_step Hrun (keeps_trace_identify_themes config a); [leaf|].
  check_step Hrun; [injection Hrun as <- <-; leaf|].
  enter_step Hrun.
  assert (Hk : keeps_trace
                 (if (DIGEST_FORMAT config =? "markdown")%string
                  then format_digest_markdown a a0
                  else compile_digest config a a0)).
  { destruct (_ =? _)%string;
      [apply keeps_trace_format_digest_markdown|apply keeps_trace_compile_digest]. }
  phase_step Hrun Hk; [leaf|].
  enter_step Hrun.
  phase_step Hrun (keeps_trace_save_digest config a1); [leaf|].
  injection Hrun as <- <-. leaf.
Qed.

Lemma run_events max_articles filter_criteria st r st' :
  run config max_articles filter_criteria st = (r, st') ->
  exists events,
    trace st' = trace st ++ events
    /\ guarded config (time_time (world st)) None events
    /\ (forall path, r = Ok (Some path) ->
          phases_of events = pipeline (truthy filter_criteria))
    /\ (r = Ok None ->
          (Compile ∉ phases_of events) /\ (Persist ∉ phases_of events))
    /\ (forall w, Checked w true ∈ events -> r = Ok None).
Proof.
  unfold run. intros Hrun.
  rewrite (bind_Ok (observe time_time) _ st _ st eq_refl) in Hrun.
  rewrite bind_lift in Hrun.
  destruct (str_int (or_default max_articles (MAX_ARTICLES config))) as [shown|e].
  2:{ injection Hrun as <- <-. exists []. rewrite app_nil_r. repeat split; try done.
      intros w Hin. by apply elem_of_nil in Hin. }
  enter_step Hrun.
  phase_step Hrun (keeps_trace_fetch_news config max_articles); [leaf|].
  check_step Hrun; [injection Hrun as <- <-; leaf|].
  destruct a as [|article articles]; [injection Hrun as <- <-; leaf|].
  destruct (truthy filter_criteria).
  - check_step Hrun; [cbn [world] in *; congruence|].
    enter_step Hrun.
    phase_step Hrun (keeps_trace_filter_articles config (article :: articles) filter_criteria);
      [leaf|].
    apply run_from_summarize_events in Hrun
      as (events & Htail & Hguard & Hsome & Hnone & Hfail).
    eexists. split; [trace_eq|]. split; [|split; [|split]].
    + guarded_events.
    + intros path Hr. cbn. unfold phases_of in Hsome. by rewrite (Hsome path Hr).
    + intros Hr. cbn. rewrite !not_elem_of_cons. destruct (Hnone Hr). by repeat split.
    + intros w Hin. cbn in Hin.
      repeat (apply elem_of_cons in Hin as [Hin|Hin]; [try done|]). by eapply Hfail.
  - apply run_from_summarize_events in Hrun
      as (events & Htail & Hguard & Hsome & Hnone & Hfail).
    eexists. split; [trace_eq|]. split; [|split; [|split]].
    + guarded_events.
    + intros path Hr. cbn. unfold phases_of in Hsome. by rewrite (Hsome path Hr).
    + intros Hr. cbn. rewrite !not_elem_of_cons. destruct (Hnone Hr). by repeat split.
    + intros w Hin. cbn in Hin.
      repeat (apply elem_of_cons in Hin as [Hin|Hin]; [try done|]). by eapply Hfail.
Qed.

(** When every phase other than Collect is entered right after a check
    that passed, the test [entries_checked] succeeds. *)
Lemma entries_checked_complete before events :
  (forall pre p w post,
      before ++ events = pre ++ Entered p w :: post -> p <> Collect ->
      exists pre', pre = pre' ++ [Checked w false]) ->
  entries_checked (last before) events = true.
Proof.
  revert before. induction events as [|e events IH]; intros before Hall; [done|].
  cbn [entries_checked]. apply andb_true_intro. split.
  - destruct e as [w b|p w]; [done|]. destruct p; try done;
      (destruct (Hall before _ w events eq_refl) as [pre' ->]; [done|];
       by rewrite last_snoc).
  - rewrite <- (last_snoc e before). apply IH.
    intros pre p w post Heq. apply (Hall pre p w post).
    by rewrite <- Heq, <- app_assoc.
Qed.

(** The event before the one that follows [pre], when [prev] precedes
    the whole sequence. *)
Lemma guarded_middle start_time prev pre e post :
  guarded config start_time prev (pre ++ e :: post) ->
  guarded config start_time (from_option Some prev (last pre)) (e :: post).
Proof.
  revert prev. induction pre as [|x pre IH]; intros prev Hg; [done|].
  destruct Hg as [_ Hg]. apply IH in Hg.
  destruct pre as [|y pre]; [done|]. rewrite last_cons_cons.
  destruct (last (y :: pre)) as [z|] eqn:Ey; [done|]. by apply last_None in Ey.
Qed.

End CoordinatorTheorems.

(** * Concrete runs in the scripted world *)

Section ConcreteRuns.
#[local] Existing Instance script_env.

(** A closed equation between values without dicts, by evaluation. *)
Ltac evaluate := vm_compute; reflexivity.

(** A closed equation between values with dicts, by evaluating the test of
    equality. *)
Ltac decide_equal := apply (bool_decide_eq_true_1 _); vm_compute; reflexivity.

Ltac has_key := eexists; evaluate.

(** Recency filter: a timestamp one day and four hours old is accepted. *)
Lemma is_article_recent_whole_days_witness :
  _is_article_recent config_py (Some "2026-11-02 08:00:00") None (start [])
  = (Ok true, start []).
Proof.
  destruct (is_article_recent_whole_days config_py "2026-11-02 08:00:00"
              (mk_datetime 2026 11 2 8 0 0 None) None (start []))
    as (b & Hrun & _ & _ & Haccept & _); [done|done|evaluate|].
  rewrite Hrun, Haccept; [reflexivity|]. vm_compute. discriminate.
Defined.

(** C3 fails as stated: a timestamp seven days and twelve hours old
    parses, is older than [max_age_days = 7] days, and is accepted. *)
Lemma is_article_recent_accepts_beyond_limit :
  date_parser_parse "2026-10-27 00:00:00" (world (start []))
  = Ok (mk_datetime 2026 10 27 0 0 0 None)
  /\ max_age config_py None * us_per_day
     < age_us (world (start [])) (mk_datetime 2026 10 27 0 0 0 None)
  /\ fst (_is_article_recent config_py (Some "2026-10-27 00:00:00") None (start []))
     = Ok true.
Proof. split; [evaluate|]. split; evaluate. Qed.

(** Recency filter: a timestamp that does not parse is rejected and
    reported. *)
Lemma is_article_recent_fail_closed_witness :
  exists st',
    _is_article_recent config_py (Some "not a date") None (start []) = (Ok false, st')
    /\ stdout st'
       = [ "  [!] Could not parse date 'not a date': Unknown string format: not a date" ].
Proof.
  destruct (is_article_recent_fail_closed config_py (Some "not a date") None (start []))
    as (st' & Hrun & _ & Hout).
  { do 3 right. exists "not a date", (ValueError "Unknown string format: not a date").
    split; [reflexivity|evaluate]. }
  exists st'. split; [exact Hrun|].
  rewrite (Hout "not a date" (ValueError "Unknown string format: not a date"));
    [evaluate|reflexivity|discriminate|discriminate|evaluate].
Defined.

(** Deduplicator: three articles, the third with the link of the first. *)
Lemma deduplicate_articles_distinct_links_witness :
  exists out,
    _deduplicate_articles config_py [news_nov1; news_nov2; news_nov1] = Ok out
    /\ NoDup (links out).
Proof.
  pose proof (deduplicate_articles_distinct_links config_py
                [news_nov1; news_nov2; news_nov1]) as [Hdistinct Htotal].
  destruct Htotal as [out Hout].
  { repeat constructor; has_key. }
  exists out. split; [exact Hout|]. exact (proj1 (Hdistinct out Hout)).
Defined.

(** Deduplicator: in the scripted world equal titles are similar, so a
    state with a retired link is reached. *)
Lemma seen_urls_superset_of_links_witness :
  exists articles v u,
    dedup_loop config_py articles dedup_init = Ok v /\ retired u v.
Proof.
  destruct (seen_urls_superset_of_links config_py) as (_ & _ & Hreached).
  apply Hreached. intros s.
  change (SequenceMatcher_ratio s s) with (script_ratio s s).
  unfold script_ratio. rewrite String.eqb_refl. evaluate.
Defined.




(** C5 fails as stated: with a target of -2, four articles and a reply
    that is no list of numbers, Tier 2 falls back to [articles[:-2]],
    the articles without the last two, which are not the first -2
    articles of the input. *)
Lemma rank_tier2_fallback_negative_count :
  tier1 config_py [news_garbled; news_nov1; news_nov2; news_undated] (-2) = Ok false
  /\ (exists e, parse_indices (split_comma "no idea") = Raise e)
  /\ fst (_rank_articles_efficiently config_py
            [news_garbled; news_nov1; news_nov2; news_undated] (-2)
            (start [(Ok "no idea", 5)]))
     = Ok [news_garbled; news_nov1]
  /\ [news_garbled; news_nov1]
     <> firstn (Z.to_nat (-2)) [news_garbled; news_nov1; news_nov2; news_undated]
  /\ llen [news_garbled; news_nov1] <> -2.
Proof.
  split; [evaluate|]. split; [eexists; evaluate|]. split; [decide_equal|].
  split; [discriminate|]. unfold llen. cbn [length]. lia.
Qed.

(** Selector, Tier 1: an undated article sorts last. *)
Lemma rank_tier1_sorts_or_falls_back_witness :
  exists out,
    _rank_articles_efficiently config_py [news_undated; news_nov1; news_nov2] 2 (start [])
    = (Ok out, start [])
    /\ out = [news_nov2; news_nov1]
    /\ key_of (world (start [])) news_undated = Ok datetime_min.
Proof.
  destruct (rank_tier1_sorts_or_falls_back config_py
              [news_undated; news_nov1; news_nov2] 2 (start []))
    as (out & Hrun & Hmin & _); [evaluate|evaluate|].
  exists out. split; [exact Hrun|]. split; [|apply Hmin; evaluate].
  assert (Hc : fst (_rank_articles_efficiently config_py
                      [news_undated; news_nov1; news_nov2] 2 (start []))
               = Ok [news_nov2; news_nov1]) by decide_equal.
  rewrite Hrun in Hc. cbn [fst] in Hc. congruence.
Defined.

(** C9 fails as stated: the first article has a timestamp that does not
    parse; sorted as the claim says it would come last and be cut off, but
    the selector returns the first two articles in input order. *)
Lemma rank_tier1_unparsable_not_last :
  tier1 config_py [news_garbled; news_nov1; news_nov2] 2 = Ok true
  /\ tier1_as_specified (world (start [])) [news_garbled; news_nov1; news_nov2] 2
     = [news_nov2; news_nov1]
  /\ fst (_rank_articles_efficiently config_py [news_garbled; news_nov1; news_nov2] 2
            (start []))
     = Ok [news_garbled; news_nov1]
  /\ [news_garbled; news_nov1] <> [news_nov2; news_nov1].
Proof.
  split; [evaluate|]. split; [decide_equal|]. split; [decide_equal|].
  intros Heq. apply (f_equal (fun l => (.!! "link") <$> head l)) in Heq.
  vm_compute in Heq. discriminate.
Qed.

(** Collector: three feeds, one of which cannot be fetched, and a cap of
    three articles per source; four articles are collected in all. *)
Lemma collect_per_source_cap_witness :
  Forall (fun chunk => llen chunk <= 3)
    (feed_chunks example_config (rss_feeds example_config) (start []))
  /\ length <$> feed_chunks example_config (rss_feeds example_config) (start [])
     = [3; 0; 1]%nat
  /\ llen (fetched_articles (fst (collect example_config (start [])))) = 4.
Proof.
  destruct (collect_per_source_cap example_config (start []))
    as (Hconcat & _ & Hcap & _); [vm_compute; discriminate|].
  split; [exact Hcap|]. split; [evaluate|].
  rewrite Hconcat. evaluate.
Defined.


(** C8 fails as stated: the second article has no title; the progress
    line reads the title outside the [try], so the batch ends with a
    [KeyError] and no list is returned, although the first article was
    summarized. *)
Lemma summarize_articles_aborts_without_title :
  fst (summarize_articles config_py
         [news_nov1; delete "title" news_nov2; news_garbled]
         (start [(Ok "summary", 5)]))
  = Raise (KeyError "title")
  /\ replies (world (snd (summarize_articles config_py
                            [news_nov1; delete "title" news_nov2; news_garbled]
                            (start [(Ok "summary", 5)]))))
     = [].
Proof. split; evaluate. Qed.

(** In the scripted world a step that writes nothing leaves the files as
    they are. *)
Lemma read_steps_keep_files (w w' : Script) :
  rtc (@read_step script_env) w w' -> files w' = files w.
Proof.
  induction 1 as [w|w w1 w' Hstep _ IH]; [done|]. rewrite IH.
  destruct Hstep as [[feed_url ->]|(model & instructions & task & timeout & ->)].
  - cbn. unfold script_fetch. by destruct (assoc feed_url script_feeds).
  - cbn. unfold script_chat. by destruct (replies w) as [|[reply duration] rest].
Qed.


End ConcreteRuns.

(** * Further properties *)

Ltac in_list := repeat first [apply list_elem_of_here | apply list_elem_of_further].

Section DeduplicatorShape.
Context `{Env} (config : Config).

(** What one iteration does to the result list and to the counter. *)
Lemma dedup_step_shape v article v' :
  dedup_step config v article = Ok v' ->
  (deduplicated v' = deduplicated v
   /\ duplicates_removed v' = duplicates_removed v + 1)
  \/ (exists l1 existing l2,
        deduplicated v = l1 ++ existing :: l2
        /\ deduplicated v' = (l1 ++ l2) ++ [article]
        /\ duplicates_removed v' = duplicates_removed v + 1)
  \/ (deduplicated v' = deduplicated v ++ [article]
      /\ duplicates_removed v' = duplicates_removed v).
Proof.
  unfold dedup_step. intros Hs.
  destruct (getitem article "link") as [url|]; [cbn in Hs|discriminate].
  destruct (getitem article "title") as [title|]; [cbn in Hs|discriminate].
  destruct (decide (url ∈ seen_urls v)); [injection Hs as <-; by left|].
  destruct (dedup_scan _ _ _ _ _ _) as [[v1 dup]|] eqn:Es; [cbn in Hs|discriminate].
  assert (Hscan : forall todo,
    dedup_scan config article url title todo v = Ok (v1, dup) ->
    (dup = false /\ v1 = v)
    \/ (dup = true /\ deduplicated v1 = deduplicated v
        /\ duplicates_removed v1 = duplicates_removed v + 1)
    \/ (dup = true /\ exists l1 existing l2,
          deduplicated v = l1 ++ existing :: l2
          /\ deduplicated v1 = (l1 ++ l2) ++ [article]
          /\ duplicates_removed v1 = duplicates_removed v + 1)).
  { clear. induction todo as [|existing todo IH]; cbn; intros Hs.
    - left. by injection Hs as <- <-.
    - destruct (getitem existing "title") as [et|]; [cbn in Hs|discriminate].
      destruct (Qgt_bool _ _); [|by apply IH].
      destruct (getitem article "description") as [da|]; [cbn in Hs|discriminate].
      destruct (getitem existing "description") as [de|]; [cbn in Hs|discriminate].
      destruct (len de <? len da).
      + destruct (list_remove existing (deduplicated v)) as [without|] eqn:Er;
          [cbn in Hs|discriminate].
        injection Hs as <- <-. right; right. split; [done|].
        apply list_remove_Ok in Er as (l1 & l2 & -> & -> & _). by exists l1, existing, l2.
      + injection Hs as <- <-. right; left. done. }
  destruct (Hscan _ Es) as [[-> ->]|[(-> & Hd & Hc)|(-> & l1 & e & l2 & Hd & Hd1 & Hc)]].
  - injection Hs as <-. right; right. done.
  - injection Hs as <-. left. done.
  - injection Hs as <-. right; left. by exists l1, e, l2.
Qed.

Lemma dedup_loop_shape articles v v' :
  dedup_loop config articles v = Ok v' ->
  deduplicated v' `sublist_of` deduplicated v ++ articles
  /\ duplicates_removed v' + llen (deduplicated v')
     = duplicates_removed v + llen (deduplicated v) + llen articles
  /\ (length (deduplicated v) <= length (deduplicated v'))%nat.
Proof.
  revert v. induction articles as [|a articles IH]; cbn; intros v Hl.
  - injection Hl as <-. rewrite app_nil_r. unfold llen. cbn. split; [done|]. split; lia.
  - destruct (dedup_step config v a) as [v1|] eqn:Es; [cbn in Hl|discriminate].
    destruct (IH _ Hl) as (Hsub & Hcount & Hlen).
    unfold llen in *. cbn [length].
    destruct (dedup_step_shape _ _ _ Es)
      as [[Hd Hc]|[(l1 & e & l2 & Hd & Hd1 & Hc)|[Hd Hc]]].
    + rewrite Hd in *. split; [|split; lia].
      etrans; [exact Hsub|]. apply sublist_app; [done|]. by apply sublist_cons.
    + rewrite Hd, Hd1 in *. rewrite !length_app in *. cbn [length] in *.
      split; [|split; lia].
      etrans; [exact Hsub|]. rewrite <- !app_assoc. cbn.
      apply sublist_app; [done|]. by apply sublist_cons.
    + rewrite Hd in *. rewrite ?length_app in *. cbn [length] in *.
      split; [|split; lia].
      etrans; [exact Hsub|]. by rewrite <- app_assoc.
Qed.
End DeduplicatorShape.

Section DeduplicatorMore.
Context `{Env} (config : Config).

Lemma dedup_step_first a v1 :
  dedup_step config dedup_init a = Ok v1 -> deduplicated v1 = [a].
Proof.
  unfold dedup_step. intros Hs.
  destruct (getitem a "link") as [url|]; [cbn in Hs|discriminate].
  destruct (getitem a "title") as [title|]; [cbn in Hs|discriminate].
  destruct (decide (url ∈ seen_urls dedup_init)) as [Hin|_].
  { by apply elem_of_empty in Hin. }
  cbn in Hs. by injection Hs as <-.
Qed.

(** X1.  The output of the deduplicator is a subsequence of its input: the
    items it keeps are input items, in input order, none more than once
    per occurrence; and it is not empty when the input is not. *)
Theorem deduplicate_articles_subsequence articles out :
  _deduplicate_articles config articles = Ok out ->
  out `sublist_of` articles
  /\ (forall a, a ∈ out -> a ∈ articles)
  /\ (length out <= length articles)%nat
  /\ (articles <> [] -> out <> []).
Proof.
  unfold _deduplicate_articles. intros Hd.
  destruct (dedup_loop config articles dedup_init) as [v|] eqn:El; [|discriminate].
  cbn in Hd. injection Hd as <-.
  destruct (dedup_loop_shape config _ _ _ El) as (Hsub & _ & _). cbn in Hsub.
  split; [done|]. split; [|split].
  - intros a Ha. by eapply elem_of_sublist.
  - by apply sublist_length.
  - destruct articles as [|a articles]; [done|]. intros _. cbn in El.
    destruct (dedup_step config dedup_init a) as [v1|] eqn:Es; [cbn in El|discriminate].
    apply dedup_step_first in Es.
    destruct (dedup_loop_shape config _ _ _ El) as (_ & _ & Hlen).
    rewrite Es in Hlen. cbn in Hlen. intros Hnil. rewrite Hnil in Hlen. cbn in Hlen. lia.
Qed.

(** X2.  The counter of the deduplicator adds up: after the loop, the number
    of duplicates removed plus the number of articles kept is the number
    of articles processed. *)
Theorem dedup_loop_counts articles v :
  dedup_loop config articles dedup_init = Ok v ->
  0 <= duplicates_removed v
  /\ duplicates_removed v + llen (deduplicated v) = llen articles.
Proof.
  intros El. destruct (dedup_loop_shape config _ _ _ El) as (Hsub & Hcount & _).
  cbn in Hcount, Hsub. split; [|unfold llen in *; cbn in *; lia].
  apply sublist_length in Hsub. unfold llen in *. cbn in *. lia.
Qed.

Lemma dedup_scan_none article url title todo v :
  (forall e, e ∈ todo ->
     exists t, e !! "title" = Some t
       /\ Qgt_bool (title_similarity title t) (DEDUPLICATION_THRESHOLD config) = false) ->
  dedup_scan config article url title todo v = Ok (v, false).
Proof.
  induction todo as [|e todo IH]; intros Hall; [done|]. cbn.
  destruct (Hall e (list_elem_of_here _ _)) as (t & Ht & Hq).
  unfold getitem. rewrite Ht. cbn. rewrite Hq. apply IH.
  intros e' He'. apply Hall. by apply list_elem_of_further.
Qed.

Lemma dedup_loop_distinct rest v :
  (forall u, u ∈ seen_urls v -> Some u ∈ links (deduplicated v)) ->
  distinct_stories config (deduplicated v ++ rest) ->
  exists v', dedup_loop config rest v = Ok v'
             /\ deduplicated v' = deduplicated v ++ rest.
Proof.
  revert v. induction rest as [|a rest IH]; intros v Hseen (Hkeys & Hnd & Hsim).
  { exists v. by rewrite app_nil_r. }
  cbn [dedup_loop].
  pose proof Hkeys as Hk. apply Forall_app in Hk as [Hkd Hk].
  apply Forall_cons in Hk as [[[url Hurl] [title Htitle]] _].
  assert (Hstep : dedup_step config v a
                  = Ok {| deduplicated := deduplicated v ++ [a];
                          seen_urls := seen_urls v ∪ {[ url ]};
                          duplicates_removed := duplicates_removed v |}).
  { unfold dedup_step, getitem. rewrite Hurl, Htitle. cbn.
    destruct (decide (url ∈ seen_urls v)) as [Hin|_].
    { exfalso. apply Hseen in Hin. rewrite links_app, links_cons, Hurl in Hnd.
      apply NoDup_app in Hnd as (_ & Hdisj & _). apply (Hdisj _ Hin).
      apply list_elem_of_here. }
    rewrite dedup_scan_none; [done|].
    intros e He. apply list_elem_of_split in He as (l1 & l2 & Hl).
    assert (Het : is_Some (e !! "title")).
    { rewrite Hl in Hkd. apply Forall_app in Hkd as [_ Hkd].
      by apply Forall_cons in Hkd as [[_ ?] _]. }
    destruct Het as [t Ht]. exists t. split; [done|].
    destruct (Qgt_bool _ _) eqn:Hq; [|done]. exfalso.
    apply (Hsim l1 e l2 a rest).
    - rewrite Hl. by rewrite <- app_assoc.
    - by exists title, t. }
  rewrite Hstep. cbn [bind_res].
  destruct (IH {| deduplicated := deduplicated v ++ [a];
                  seen_urls := seen_urls v ∪ {[ url ]};
                  duplicates_removed := duplicates_removed v |}) as (v' & Hl & Hd).
  - cbn. intros u [Hu|Hu]%elem_of_union.
    + rewrite links_app. apply elem_of_app. left. by apply Hseen.
    + apply elem_of_singleton in Hu as ->. rewrite links_app. apply elem_of_app. right.
      rewrite links_cons, Hurl. apply list_elem_of_here.
  - cbn. by rewrite <- app_assoc.
  - exists v'. split; [done|]. rewrite Hd. cbn. by rewrite <- app_assoc.
Qed.

(** X3.  The deduplicator returns its input unchanged when every article has
    a link and a title, the links are pairwise distinct and no title is
    similar to the title of an earlier article.  No description is
    read. *)
Theorem deduplicate_articles_keeps_distinct_stories articles :
  distinct_stories config articles ->
  _deduplicate_articles config articles = Ok articles.
Proof.
  intros Hd. unfold _deduplicate_articles.
  destruct (dedup_loop_distinct articles dedup_init) as (v' & Hl & Hv); [|done|].
  { intros u Hu. by apply elem_of_empty in Hu. }
  rewrite Hl. cbn in *. by rewrite Hv.
Qed.

Lemma dedup_scan_Raise article url title todo v e :
  (forall x, x ∈ todo -> x ∈ deduplicated v) ->
  dedup_scan config article url title todo v = Raise e ->
  exists key a, e = KeyError key /\ key ∈ ["title"; "description"]
                /\ a ∈ article :: todo /\ a !! key = None.
Proof.
  induction todo as [|existing todo IH]; intros Hsub Hs; [discriminate|].
  cbn in Hs. unfold getitem in Hs.
  destruct (existing !! "title") as [et|] eqn:Het; cbn in Hs.
  2:{ injection Hs as <-. exists "title", existing. repeat split; [in_list..|done]. }
  destruct (Qgt_bool _ _).
  - destruct (article !! "description") as [da|] eqn:Hda; cbn in Hs.
    2:{ injection Hs as <-. exists "description", article. repeat split; [in_list..|done]. }
    destruct (existing !! "description") as [de|] eqn:Hde; cbn in Hs.
    2:{ injection Hs as <-. exists "description", existing.
        repeat split; [in_list..|done]. }
    destruct (len de <? len da); [|discriminate].
    destruct (list_remove_elem_of existing (deduplicated v)) as [w Hw].
    { apply Hsub. apply list_elem_of_here. }
    rewrite Hw in Hs. discriminate.
  - destruct IH as (key & a & -> & Hkey & Ha & Hnone); [|done|].
    { intros x Hx. apply Hsub. by apply list_elem_of_further. }
    exists key, a. repeat split; [done| |done].
    apply elem_of_cons in Ha as [->|Ha]; [apply list_elem_of_here|].
    do 2 apply list_elem_of_further. done.
Qed.

Lemma dedup_step_Raise v article e :
  dedup_step config v article = Raise e ->
  exists key a, e = KeyError key /\ key ∈ ["link"; "title"; "description"]
                /\ a ∈ deduplicated v ++ [article] /\ a !! key = None.
Proof.
  unfold dedup_step, getitem. intros Hs.
  destruct (article !! "link") as [url|] eqn:Hurl; cbn in Hs.
  2:{ injection Hs as <-. exists "link", article.
      repeat split; [in_list|apply elem_of_app; right; in_list|done]. }
  destruct (article !! "title") as [title|] eqn:Ht; cbn in Hs.
  2:{ injection Hs as <-. exists "title", article.
      repeat split; [in_list|apply elem_of_app; right; in_list|done]. }
  destruct (decide (url ∈ seen_urls v)); [discriminate|].
  destruct (dedup_scan _ _ _ _ _ _) as [[v1 dup]|e'] eqn:Es; cbn in Hs.
  { destruct dup; discriminate. }
  injection Hs as <-.
  apply dedup_scan_Raise in Es as (key & a & -> & Hkey & Ha & Hnone); [|done].
  exists key, a. repeat split; [by apply list_elem_of_further| |done].
  apply elem_of_app. apply elem_of_cons in Ha as [->|Ha]; [right; in_list|by left].
Qed.

Lemma dedup_loop_Raise rest v e :
  dedup_loop config rest v = Raise e ->
  exists key a, e = KeyError key /\ key ∈ ["link"; "title"; "description"]
                /\ a ∈ deduplicated v ++ rest /\ a !! key = None.
Proof.
  revert v. induction rest as [|a0 rest IH]; intros v Hl; [discriminate|].
  cbn in Hl. destruct (dedup_step config v a0) as [v1|e1] eqn:Es; cbn in Hl.
  - destruct (IH _ Hl) as (key & a & -> & Hkey & Ha & Hnone).
    exists key, a. repeat split; [done| |done].
    destruct (dedup_loop_shape config [a0] v v1) as (Hsub & _).
    { cbn. by rewrite Es. }
    apply elem_of_app in Ha as [Ha|Ha].
    + pose proof (elem_of_sublist _ _ _ Ha Hsub) as Ha'.
      apply elem_of_app in Ha' as [Ha'|Ha']; apply elem_of_app; [by left|right].
      apply list_elem_of_singleton in Ha' as ->. in_list.
    + apply elem_of_app. right. by apply list_elem_of_further.
  - injection Hl as <-.
    destruct (dedup_step_Raise _ _ _ Es) as (key & a & -> & Hkey & Ha & Hnone).
    exists key, a. repeat split; [done| |done].
    apply elem_of_app in Ha as [Ha|Ha]; apply elem_of_app; [by left|right].
    apply list_elem_of_singleton in Ha as ->. in_list.
Qed.

(** X4.  The deduplicator raises nothing but a [KeyError] for [link],
    [title] or [description], and only when an input article lacks that
    key; in particular [list.remove] never fails. *)
Theorem deduplicate_articles_raises_KeyError articles e :
  _deduplicate_articles config articles = Raise e ->
  exists key a, e = KeyError key /\ key ∈ ["link"; "title"; "description"]
                /\ a ∈ articles /\ a !! key = None.
Proof.
  unfold _deduplicate_articles. intros Hd.
  destruct (dedup_loop config articles dedup_init) as [v|e'] eqn:El; [discriminate|].
  injection Hd as <-. by apply dedup_loop_Raise in El.
Qed.
End DeduplicatorMore.

Section DeduplicatorPair.
Context `{Env} (config : Config).

(** X5.  Two articles.  With the same link the first is kept.  With
    different links and similar titles one is kept: the second when its
    description is strictly longer, counted in characters, the first
    otherwise.  With different links and titles that are not similar
    both are kept. *)
Theorem deduplicate_articles_pair a b ua ub ta tb da db :
  a !! "link" = Some ua -> a !! "title" = Some ta -> a !! "description" = Some da ->
  b !! "link" = Some ub -> b !! "title" = Some tb -> b !! "description" = Some db ->
  _deduplicate_articles config [a; b]
  = Ok (if decide (ua = ub) then [a]
        else if Qgt_bool (title_similarity tb ta) (DEDUPLICATION_THRESHOLD config)
             then [if len da <? len db then b else a]
             else [a; b]).
Proof.
  intros Hua Hta Hda Hub Htb Hdb. unfold _deduplicate_articles. cbn [dedup_loop].
  rewrite (dedup_step_unseen config _ _ ua ta Hua Hta); [|apply not_elem_of_empty].
  cbn [dedup_init deduplicated dedup_scan bind_res seen_urls duplicates_removed app].
  destruct (decide (ua = ub)) as [<-|Hne].
  - rewrite (dedup_step_seen config _ b ua Hub); [done|by eexists|].
    cbn. apply elem_of_union. right. by apply elem_of_singleton.
  - rewrite (dedup_step_unseen config _ _ ub tb Hub Htb).
    2:{ cbn. rewrite elem_of_union, elem_of_singleton.
        intros [Hin|Hin]; [by apply not_elem_of_empty in Hin|congruence]. }
    cbn [deduplicated dedup_scan]. unfold getitem. rewrite Hta. cbn [bind_res].
    destruct (Qgt_bool _ _); [|done].
    rewrite Hdb, Hda. cbn [bind_res].
    destruct (len da <? len db); [|done].
    cbn [deduplicated list_remove]. by destruct (decide (a = a)).
Qed.
End DeduplicatorPair.

Section StringFacts.

Lemma prefix_spec sub s : String.prefix sub s = true <-> exists post, s = sub +:+ post.
Proof.
  revert s. induction sub as [|c sub IH]; intros s.
  - split; [intros _; by exists s|intros _; by destruct s].
  - destruct s as [|c' s]; cbn.
    + split; [discriminate|]. by intros [post ?].
    + destruct (Ascii.ascii_dec c c') as [->|Hne].
      * rewrite IH. split; intros [post Hp]; exists post; [by rewrite Hp|].
        cbn in Hp. by injection Hp.
      * split; [discriminate|]. intros [post Hp]. cbn in Hp. injection Hp as -> _. done.
Qed.

(** [sub in s] holds exactly when [s] is [pre + sub + post]. *)
Lemma contains_spec sub s :
  contains sub s = true <-> exists pre post, s = pre +:+ sub +:+ post.
Proof.
  induction s as [|c s IH]; cbn [contains].
  - rewrite orb_false_r, prefix_spec. split.
    + intros [post Hp]. by exists "", post.
    + intros (pre & post & Hp). destruct pre; [by exists post|discriminate].
  - rewrite orb_true_iff, prefix_spec, IH. split.
    + intros [[post Hp]|(pre & post & Hp)].
      * by exists "", post.
      * exists (String c pre), post. cbn. by rewrite Hp.
    + intros (pre & post & Hp). destruct pre as [|c' pre].
      * left. by exists post.
      * right. cbn in Hp. injection Hp as -> ->. by exists pre, post.
Qed.

Lemma app_assoc_string (a b c : string) : (a +:+ b) +:+ c = a +:+ (b +:+ c).
Proof.
  induction a as [|x a IH]; [done|].
  change (String x ((a +:+ b) +:+ c) = String x (a +:+ b +:+ c)). by rewrite IH.
Qed.

Lemma contains_app_l sub s t : contains sub s = true -> contains sub (s +:+ t) = true.
Proof.
  rewrite !contains_spec. intros (pre & post & ->). exists pre, (post +:+ t).
  by rewrite !app_assoc_string.
Qed.

Lemma contains_app_r sub s t : contains sub t = true -> contains sub (s +:+ t) = true.
Proof.
  rewrite !contains_spec. intros (pre & post & ->). exists (s +:+ pre), post.
  by rewrite !app_assoc_string.
Qed.
End StringFacts.


Section RecencyMore.
Context `{Env} (config : Config).

(** X7.  The recency filter never raises and leaves the world as it is,
    whatever the timestamp and whatever the parser does; and a
    timestamp accepted with one age limit is accepted with every larger
    one. *)
Theorem is_article_recent_never_raises published_date st :
  (forall max_age_days, exists b,
      _is_article_recent config published_date max_age_days st
      = (Ok b, snd (_is_article_recent config published_date max_age_days st))
      /\ world (snd (_is_article_recent config published_date max_age_days st)) = world st)
  /\ (forall n m, n <= m ->
        fst (_is_article_recent config published_date (Some n) st) = Ok true ->
        fst (_is_article_recent config published_date (Some m) st) = Ok true).
Proof.
  split.
  - intros max_age_days.
    destruct (is_article_recent_total config published_date max_age_days st)
      as (b & st' & Hrun & Hw & _).
    exists b. by rewrite Hrun.
  - intros n m Hnm.
    destruct published_date as [s|]; [|done].
    destruct (decide (s = "")) as [->|Hne]; [done|].
    destruct (decide (s = "Unknown date")) as [->|Hns]; [done|].
    destruct (date_parser_parse s (world st)) as [d|e] eqn:Hp.
    + rewrite !(is_article_recent_parsed config s d) by assumption. cbn.
      intros [= Hle]. f_equal. apply Z.leb_le in Hle. apply Z.leb_le. lia.
    + rewrite !(is_article_recent_unparsed config s e) by assumption. done.
Qed.
End RecencyMore.


Section ReplyFacts.

Lemma split_comma_comma_free piece : comma_free piece = true -> split_comma piece = [piece].
Proof.
  induction piece as [|c piece IH]; [done|]. cbn [comma_free split_comma].
  intros [Hc Hp]%andb_true_iff. apply negb_true_iff in Hc. rewrite Hc.
  by rewrite (IH Hp).
Qed.

Lemma split_comma_app piece rest :
  comma_free piece = true ->
  split_comma (piece +:+ "," +:+ rest) = piece :: split_comma rest.
Proof.
  induction piece as [|c piece IH]; [done|]. cbn [comma_free].
  intros [Hc Hp]%andb_true_iff. apply negb_true_iff in Hc.
  change (String c piece +:+ "," +:+ rest) with (String c (piece +:+ "," +:+ rest)).
  cbn [split_comma]. rewrite Hc. by rewrite (IH Hp).
Qed.

Lemma split_comma_join pieces :
  pieces <> [] -> Forall (fun piece => comma_free piece = true) pieces ->
  split_comma (join "," pieces) = pieces.
Proof.
  intros Hne Hall. induction Hall as [|piece pieces Hp Hall IH]; [done|].
  destruct pieces as [|piece' pieces].
  - cbn [join]. by apply split_comma_comma_free.
  - change (join "," (piece :: piece' :: pieces))
      with (piece +:+ "," +:+ join "," (piece' :: pieces)).
    rewrite split_comma_app by done. by rewrite IH.
Qed.

Lemma digits_comma_free s : digits_only s = true -> comma_free s = true.
Proof.
  induction s as [|c s IH]; [done|]. cbn [digits_only comma_free].
  intros [Hc Hs]%andb_true_iff. rewrite (IH Hs), andb_true_r.
  apply bool_decide_eq_true in Hc as [d Hd].
  destruct (Ascii.eqb_spec c ","); [by subst|done].
Qed.

Lemma pretty_Z_shape (n : Z) :
  exists s, digits_only s = true /\ (pretty n = s \/ pretty n = String "-" s).
Proof.
  destruct n as [|p|p].
  - exists "0". split; [done|by left].
  - exists (pretty_N_go (N.pos p) ""). split; [by apply digits_only_pretty_N_go|by left].
  - exists (pretty_N_go (N.pos p) ""). split; [by apply digits_only_pretty_N_go|by right].
Qed.

Lemma comma_free_pretty (n : Z) : comma_free (pretty n) = true.
Proof.
  destruct (pretty_Z_shape n) as (s & Hs & [->| ->]).
  - by apply digits_comma_free.
  - cbn [comma_free]. by rewrite digits_comma_free.
Qed.

Lemma strip_pretty (n : Z) : strip (pretty n) = pretty n.
Proof.
  destruct (pretty_Z_shape n) as (s & Hs & [->| ->]).
  - by apply strip_digits.
  - by apply strip_minus_digits.
Qed.

Lemma strip_leading_blank s : strip (String " " s) = strip s.
Proof.
  unfold strip. rewrite chars_cons_ascii by (by apply Nat.ltb_lt).
  cbn [lstrip_chars]. by change (isspace " ") with true.
Qed.

Lemma split_comma_blank s :
  split_comma (String " " s)
  = match split_comma s with
    | piece :: pieces => String " " piece :: pieces
    | [] => [String " " ""]
    end.
Proof. reflexivity. Qed.

(** The pieces of a text whose parts are joined by a comma and a
    blank. *)
Lemma split_comma_join_blank piece pieces :
  Forall (fun piece => comma_free piece = true) (piece :: pieces) ->
  split_comma (join ", " (piece :: pieces)) = piece :: (String " " <$> pieces).
Proof.
  revert piece. induction pieces as [|piece' pieces IH]; intros piece Hall.
  - cbn [join]. apply split_comma_comma_free. by inversion Hall.
  - change (join ", " (piece :: piece' :: pieces))
      with (piece +:+ "," +:+ String " " (join ", " (piece' :: pieces))).
    inversion Hall as [|? ? Hp Hall']; subst.
    rewrite split_comma_app by done. rewrite split_comma_blank, (IH _ Hall'). done.
Qed.

(** The ints that [str] and [int] accept: at most 4300 digits. *)
Lemma parse_indices_pretty ns :
  Forall printable ns ->
  parse_indices (pretty <$> ns) = Ok ((fun n => n - 1) <$> ns).
Proof.
  induction 1 as [|n ns Hn _ IH]; [done|]. cbn [fmap list_fmap parse_indices].
  rewrite strip_pretty, (int_pretty _ Hn). cbn [bind_res].
  change (list_fmap Z string pretty ns) with (pretty <$> ns). rewrite IH. done.
Qed.

Lemma parse_indices_blank_pretty ns :
  Forall printable ns ->
  parse_indices (String " " <$> (pretty <$> ns)) = Ok ((fun n => n - 1) <$> ns).
Proof.
  induction 1 as [|n ns Hn _ IH]; [done|]. cbn [fmap list_fmap parse_indices].
  rewrite strip_leading_blank, strip_pretty, (int_pretty _ Hn). cbn [bind_res].
  change (list_fmap string string (String " ") (list_fmap Z string pretty ns))
    with (String " " <$> (pretty <$> ns)).
  rewrite IH. done.
Qed.

(** A reply that lists numbers the way the prompt asks for it, with or
    without blanks after the commas, parses to the numbers, each less
    one. *)
Lemma parse_indices_reply ns reply :
  ns <> [] -> Forall printable ns ->
  reply = numbers_reply ns \/ reply = join ", " (pretty <$> ns) ->
  parse_indices (split_comma reply) = Ok ((fun n => n - 1) <$> ns).
Proof.
  intros Hne Hall Hreply.
  assert (Hfree : Forall (fun piece => comma_free piece = true) (pretty <$> ns)).
  { apply Forall_fmap. apply Forall_forall. intros n _. apply comma_free_pretty. }
  destruct Hreply as [-> | ->].
  - unfold numbers_reply. rewrite split_comma_join; [|by destruct ns|done].
    by apply parse_indices_pretty.
  - destruct ns as [|n ns]; [done|]. cbn [fmap list_fmap] in *.
    rewrite split_comma_join_blank by done. cbn [parse_indices].
    inversion Hall as [|? ? Hn Hall']; subst.
    rewrite strip_pretty, (int_pretty _ Hn). cbn [bind_res].
    change (list_fmap Z string pretty ns) with (pretty <$> ns).
    by rewrite (parse_indices_blank_pretty _ Hall').
Qed.

End ReplyFacts.

Section SelectorMore.
Context `{Env} (config : Config).

Lemma slice_to_sublist {A} (l : list A) n : slice_to l n `sublist_of` l.
Proof. unfold slice_to. destruct (0 <=? n); apply sublist_take. Qed.

Lemma elem_of_slice_to {A} (l : list A) n a : a ∈ slice_to l n -> a ∈ l.
Proof. intros Ha. eapply elem_of_sublist; [exact Ha|apply slice_to_sublist]. Qed.

Lemma elem_of_select_indices articles selected_indices a :
  a ∈ select_indices articles selected_indices -> a ∈ articles.
Proof.
  unfold select_indices. rewrite list_elem_of_omap. intros (i & _ & Hi).
  destruct (_ && _); [|discriminate]. by eapply list_elem_of_lookup_2.
Qed.

Lemma select_indices_numbered articles ns :
  select_indices articles ((fun n => n - 1) <$> ns) = omap (numbered articles) ns.
Proof.
  unfold select_indices. induction ns as [|n ns IH]; [done|].
  cbn [fmap list_fmap omap list_omap]. unfold numbered at 1.
  replace ((0 <=? n - 1) && (n - 1 <? llen articles))
    with ((1 <=? n) && (n <=? llen articles)).
  2:{ apply eq_iff_eq_true. rewrite !andb_true_iff, !Z.leb_le, Z.ltb_lt. lia. }
  destruct (_ && _); [|exact IH]. destruct (articles !! _); [|exact IH].
  f_equal. exact IH.
Qed.

Lemma keys_of_snd w articles ks : keys_of w articles = Ok ks -> map snd ks = articles.
Proof.
  revert ks. induction articles as [|x articles IH]; cbn; intros ks Hk.
  - by injection Hk as <-.
  - destruct (key_of w x) as [k|]; [cbn in Hk|discriminate].
    destruct (keys_of w articles) as [ks'|]; [cbn in Hk|discriminate].
    injection Hk as <-. cbn. f_equal. by apply IH.
Qed.

(** Tier 1 returns a slice of a rearrangement of the input. *)
Lemma rank_tier1_Permutation articles target_count st :
  target_count < llen articles -> tier1 config articles target_count = Ok true ->
  exists s, Permutation articles s
            /\ _rank_articles_efficiently config articles target_count st
               = (Ok (slice_to s target_count), st).
Proof.
  intros Hlt Ht1. rewrite (rank_tier1 config _ _ st Hlt Ht1).
  destruct (keys_of (world st) articles) as [ks|] eqn:Ek; cbn [bind_res];
    [|by exists articles].
  destruct (sort_desc ks) as [s|] eqn:Es; cbn [bind_res]; [|by exists articles].
  exists (map snd s). split; [|done].
  destruct (sort_desc_Ok _ _ Es) as (Hperm & _ & _).
  rewrite <- (keys_of_snd _ _ _ Ek). by apply Permutation_map.
Qed.

Lemma ranking_lines_Raise i articles e :
  ranking_lines i articles = Raise e ->
  exists key a, e = KeyError key /\ key ∈ ["source"; "title"]
                /\ a ∈ articles /\ a !! key = None.
Proof.
  revert i. induction articles as [|x articles IH]; intros i Hr; [discriminate|].
  cbn in Hr. unfold getitem in Hr.
  destruct (x !! "source") eqn:Hs; cbn in Hr.
  2:{ injection Hr as <-. exists "source", x. repeat split; [in_list..|done]. }
  destruct (x !! "title") eqn:Ht; cbn in Hr.
  2:{ injection Hr as <-. exists "title", x. repeat split; [in_list..|done]. }
  destruct (ranking_lines (i + 1) articles) as [lines|e'] eqn:El; [discriminate|].
  cbn in Hr. injection Hr as <-.
  destruct (IH _ El) as (key & a & -> & Hkey & Ha & Hnone).
  exists key, a. repeat split; [done|by apply list_elem_of_further|done].
Qed.

Lemma ranking_lines_lookup i articles lines k a :
  ranking_lines i articles = Ok lines -> articles !! k = Some a ->
  exists source title,
    a !! "source" = Some source /\ a !! "title" = Some title
    /\ lines !! k = Some (pretty (i + Z.of_nat k + 1) +:+ ". [" +:+ source +:+ "] " +:+ title).
Proof.
  revert i lines k. induction articles as [|x articles IH]; intros i lines k Hr Hk;
    [done|].
  cbn in Hr. unfold getitem in Hr.
  destruct (x !! "source") as [source|] eqn:Hs; [cbn in Hr|discriminate].
  destruct (x !! "title") as [title|] eqn:Ht; [cbn in Hr|discriminate].
  destruct (ranking_lines (i + 1) articles) as [lines'|] eqn:El; [cbn in Hr|discriminate].
  injection Hr as <-. destruct k as [|k].
  - injection Hk as <-. exists source, title. repeat split; [done..|].
    cbn. by rewrite Z.add_0_r.
  - cbn in Hk. destruct (IH _ _ _ El Hk) as (s & t & ? & ? & Hl).
    exists s, t. repeat split; [done..|]. cbn.
    replace (i + Z.of_nat (S k) + 1) with (i + 1 + Z.of_nat k + 1) by lia. exact Hl.
Qed.

(** Every way in which the selector ends. *)
Lemma rank_outcome articles target_count st r st' :
  _rank_articles_efficiently config articles target_count st = (r, st') ->
  match r with
  | Ok out => forall a, a ∈ out -> a ∈ articles
  | Raise e =>
      st' = st /\ target_count < llen articles
      /\ ((e = OverflowError "int too large to convert to float"
           /\ SMART_RANKING_ENABLED config = true /\ ~ fits_float target_count)
          \/ (tier1 config articles target_count = Ok false
              /\ exists key a, e = KeyError key /\ key ∈ ["source"; "title"]
                               /\ a ∈ articles /\ a !! key = None))
  end.
Proof.
  intros Hrun.
  destruct (Z.le_gt_cases (llen articles) target_count) as [Hle|Hgt].
  { rewrite (rank_tier0 config _ _ st Hle) in Hrun. by injection Hrun as <- <-. }
  destruct (tier1 config articles target_count) as [[]|e] eqn:Ht1.
  { destruct (rank_tier1_Permutation articles target_count st Hgt Ht1) as (s & Hperm & Hr).
    rewrite Hr in Hrun. injection Hrun as <- <-.
    intros a Ha. rewrite Hperm. by eapply elem_of_slice_to. }
  2:{ rewrite (rank_overflow config _ _ st e Hgt Ht1) in Hrun. injection Hrun as <- <-.
      split; [done|]. split; [lia|]. left. by apply (tier1_Raise config articles). }
  destruct (rank_tier2 config articles target_count st Hgt Ht1)
    as [(e & Hlines & Hr)
       |(lines & st1 & response & Hlines & _ & [(sel & _ & Hr)|(e & st2 & _ & Hr & _)])];
    rewrite Hr in Hrun; injection Hrun as <- <-.
  - split; [done|]. split; [lia|]. right. split; [done|]. by eapply ranking_lines_Raise.
  - intros a Ha. eapply elem_of_select_indices. by eapply elem_of_slice_to.
  - intros a Ha. by eapply elem_of_slice_to.
Qed.


End SelectorMore.

Section CollectorMore.
Context `{Env} (config : Config).

Lemma new_article_keys entry published_date source_name now :
  Forall (fun key => is_Some (new_article entry published_date source_name now !! key))
    ARTICLE_KEYS
  /\ new_article entry published_date source_name now !! "published" = Some published_date.
Proof.
  unfold new_article. cbn [list_to_map foldr uncurry]. split.
  - repeat constructor; eexists; by simplify_map_eq.
  - by simplify_map_eq.
Qed.

Lemma is_article_recent_true s max_age_days st st' :
  _is_article_recent config (Some s) max_age_days st = (Ok true, st') ->
  s <> "" /\ s <> "Unknown date".
Proof.
  intros Hr. split; intros ->; cbn in Hr; discriminate.
Qed.

Lemma collect_entries_well_formed source_name entries added v st :
  Forall well_formed (fetched_articles v) ->
  Forall well_formed
    (fetched_articles (snd (fst (collect_entries config source_name entries added v st)))).
Proof.
  revert added v st. induction entries as [|entry entries IH]; intros added v st Hv;
    [done|].
  cbn [collect_entries]. destruct (_ <=? _); [done|].
  destruct (_is_article_recent _ _ _ st) as [[[]|e] st1] eqn:Er; [| |done].
  - apply is_article_recent_true in Er as [Hne Hns].
    destruct (negb _) eqn:Eai; apply IH; cbn [fetched_articles]; [done|].
    apply Forall_app. split; [done|]. apply Forall_singleton.
    destruct (new_article_keys entry
                (get entry "published" (get entry "updated" "Unknown date"))
                source_name (datetime_now (world st1))) as [Hkeys Hpub].
    split; [done|]. split; [by apply negb_false_iff in Eai|]. by eexists.
  - by apply IH.
Qed.

Lemma collect_feed_well_formed feed_url v st :
  Forall well_formed (fetched_articles v) ->
  Forall well_formed (fetched_articles (fst (collect_feed config feed_url v st))).
Proof.
  intros Hv. unfold collect_feed.
  destruct (call (feedparser_parse feed_url) st) as [[parsed|e] st1]; [|done].
  pose proof (collect_entries_well_formed (get (feed parsed) "title" "Unknown Source")
                (entries parsed) 0 v st1 Hv) as Hwf.
  by destruct (collect_entries _ _ _ _ _ _) as [[[e|] v'] st2].
Qed.

Lemma collect_feeds_well_formed feeds v st :
  Forall well_formed (fetched_articles v) ->
  Forall well_formed (fetched_articles (fst (collect_feeds config feeds v st))).
Proof.
  revert v st. induction feeds as [|feed_url feeds IH]; intros v st Hv; [done|].
  cbn [collect_feeds]. pose proof (collect_feed_well_formed feed_url v st Hv) as Hwf.
  destruct (collect_feed _ _ _ _) as [v' st1]. by apply IH.
Qed.

Lemma collect_well_formed st :
  Forall well_formed (fetched_articles (fst (collect config st))).
Proof. unfold collect. apply collect_feeds_well_formed. constructor. Qed.

Lemma well_formed_key a key : well_formed a -> key ∈ ARTICLE_KEYS -> is_Some (a !! key).
Proof. intros [Hk _] Hin. by eapply Forall_forall in Hk. Qed.

Lemma well_formed_dedup_keys a : well_formed a -> has_dedup_keys a.
Proof. intros Ha. repeat split; apply (well_formed_key a _ Ha); in_list. Qed.

Lemma well_formed_prompt_keys a : well_formed a -> has_prompt_keys a.
Proof. intros Ha. repeat split; apply (well_formed_key a _ Ha); in_list. Qed.
End CollectorMore.

Section FetchNews.
Context `{Env} (config : Config).

(** What the selector does for articles that have a source and a
    title. *)
Lemma rank_well_keyed articles target_count st :
  Forall has_prompt_keys articles ->
  exists r st',
    _rank_articles_efficiently config articles target_count st = (r, st')
    /\ match r with
       | Ok out =>
           (forall a, a ∈ out -> a ∈ articles)
           /\ (0 <= target_count -> llen out <= target_count)
           /\ (SMART_RANKING_ENABLED config = false ->
               exists s, Permutation articles s /\ out `sublist_of` s)
       | Raise e =>
           st' = st /\ e = OverflowError "int too large to convert to float"
           /\ SMART_RANKING_ENABLED config = true /\ ~ fits_float target_count
       end.
Proof.
  intros Hkeys.
  destruct (Z.le_gt_cases (llen articles) target_count) as [Hle|Hgt].
  { rewrite (rank_tier0 config _ _ st Hle). eexists _, _. split; [done|].
    split; [done|]. split; [done|]. intros _. by exists articles. }
  destruct (tier1 config articles target_count) as [[]|e] eqn:Ht1.
  { destruct (rank_tier1_Permutation config articles target_count st Hgt Ht1)
      as (s & Hperm & ->).
    eexists _, _. split; [done|]. split; [|split].
    - intros a Ha. rewrite Hperm. by eapply elem_of_slice_to.
    - intros Hn. by apply length_slice_to.
    - intros _. exists s. split; [done|]. apply slice_to_sublist. }
  2:{ rewrite (rank_overflow config _ _ st e Hgt Ht1). eexists _, _. split; [done|].
      split; [done|]. by apply (tier1_Raise config articles). }
  assert (Hsmart : SMART_RANKING_ENABLED config = true).
  { unfold tier1 in Ht1. by destruct (SMART_RANKING_ENABLED config). }
  destruct (rank_tier2 config articles target_count st Hgt Ht1)
    as [(e & Hlines & _)
       |(lines & st1 & response & Hlines & _ & [(sel & _ & ->)|(e & st2 & _ & -> & _)])].
  - destruct (ranking_lines_total 0 articles Hkeys) as [lines Hl]. congruence.
  - eexists _, _. split; [done|]. split; [|split; [|congruence]].
    + intros a Ha. eapply elem_of_select_indices. by eapply elem_of_slice_to.
    + intros Hn. by apply length_slice_to.
  - eexists _, _. split; [done|]. split; [|split; [|congruence]].
    + intros a Ha. by eapply elem_of_slice_to.
    + intros Hn. by apply length_slice_to.
Qed.

Lemma NoDup_links_sublist l1 l2 :
  l1 `sublist_of` l2 -> NoDup (links l2) -> NoDup (links l1).
Proof.
  intros Hsub Hnd. apply (sublist_NoDup _ (links l2)); [exact Hnd|unfold links; by apply fmap_sublist].
Qed.

(** [fetch_news] as a whole. *)
Lemma fetch_news_spec max_articles st :
  exists r st',
    fetch_news config max_articles st = (r, st')
    /\ match r with
       | Ok out =>
           Forall well_formed out
           /\ (forall a, a ∈ out -> a ∈ fetched_articles (fst (collect config st)))
           /\ (0 <= default (MAX_ARTICLES config) max_articles ->
               llen out <= default (MAX_ARTICLES config) max_articles)
           /\ (SMART_RANKING_ENABLED config = false -> NoDup (links out))
       | Raise e =>
           e = OverflowError "int too large to convert to float"
           /\ SMART_RANKING_ENABLED config = true
           /\ ~ fits_float (default (MAX_ARTICLES config) max_articles)
       end.
Proof.
  unfold fetch_news. pose proof (collect_well_formed config st) as Hwf.
  destruct (collect config st) as [v st1]. cbn [fst] in *.
  destruct (fetched_articles v) as [|a0 l] eqn:Ea.
  { exists (Ok []), st1. split; [by destruct max_articles|]. split; [constructor|].
    split; [done|]. split; [unfold llen; cbn; lia|]. intros _. apply NoDup_nil_2. }
  set (articles := a0 :: l) in *.
  set (m := match max_articles with Some n => n | None => MAX_ARTICLES config end).
  assert (Hm : default (MAX_ARTICLES config) max_articles = m) by by destruct max_articles.
  rewrite Hm. rewrite bind_lift. unfold _deduplicate_articles.
  destruct (dedup_loop_total config articles dedup_init) as [v1 Hl].
  { eapply Forall_impl; [exact Hwf|]. apply well_formed_dedup_keys. }
  { constructor. }
  rewrite Hl. cbn [bind_res].
  destruct (dedup_loop_shape config _ _ _ Hl) as (Hsub & _ & _). cbn in Hsub.
  destruct (dedup_loop_inv config _ _ _ dedup_init_inv Hl) as [Hnd _].
  assert (Hwf1 : Forall well_formed (deduplicated v1)).
  { apply Forall_forall. intros a Ha. eapply Forall_forall in Hwf; [exact Hwf|].
    by eapply elem_of_sublist. }
  destruct (Z.ltb_spec m (llen (deduplicated v1))) as [Hlt|Hge].
  - destruct (rank_well_keyed (deduplicated v1) m st1)
      as ([out|e] & st' & Hrun & Hcases).
    { eapply Forall_impl; [exact Hwf1|]. apply well_formed_prompt_keys. }
    + destruct Hcases as (Hin & Hlen & Hperm).
      exists (Ok out), st'. split; [exact Hrun|]. split; [|split; [|split; [done|]]].
      * apply Forall_forall. intros a Ha. eapply Forall_forall in Hwf1; [exact Hwf1|].
        by apply Hin.
      * intros a Ha. eapply elem_of_sublist; [|exact Hsub]. by apply Hin.
      * intros Hsmart. destruct (Hperm Hsmart) as (s & Hs & Hout).
        eapply NoDup_links_sublist; [exact Hout|].
        unfold links. rewrite <- Hs. exact Hnd.
    + destruct Hcases as (_ & -> & Hsmart & Hfit).
      by exists (Raise (OverflowError "int too large to convert to float")), st'.
  - exists (Ok (deduplicated v1)), st1. split; [done|]. split; [done|].
    split; [|split; [done|done]].
    intros a Ha. by eapply elem_of_sublist.
Qed.

(** [fetch_news] returns when the count is within the range of the
    floats, and when ranking is switched off. *)
Lemma fetch_news_Ok max_articles st :
  fits_float (default (MAX_ARTICLES config) max_articles)
  \/ SMART_RANKING_ENABLED config = false ->
  exists out st', fetch_news config max_articles st = (Ok out, st').
Proof.
  intros Hsafe. destruct (fetch_news_spec max_articles st) as ([out|e] & st' & Hrun & Hc).
  - by exists out, st'.
  - destruct Hc as (_ & Hsmart & Hfit). destruct Hsafe; [done|congruence].
Qed.
End FetchNews.

Section FetchNewsTheorems.
Context `{Env} (config : Config).

(** X11.  [fetch_news] raises nothing but [OverflowError], and only when
    ranking is switched on and the count is beyond the range of the
    floats: for a count within that range, and with ranking switched
    off, it returns.  The articles it returns are articles collected in
    its first phase; each has the six keys of an article, passed the
    keyword test and has a timestamp that is neither empty nor the
    sentinel; and there are at most [max_articles] of them when that
    number is not negative. *)
Theorem fetch_news_raises_only_OverflowError max_articles st :
  let count := default (MAX_ARTICLES config) max_articles in
  exists r st',
    fetch_news config max_articles st = (r, st')
    /\ match r with
       | Ok out =>
           Forall well_formed out
           /\ (forall a, a ∈ out -> a ∈ fetched_articles (fst (collect config st)))
           /\ (0 <= count -> llen out <= count)
       | Raise e =>
           e = OverflowError "int too large to convert to float"
           /\ SMART_RANKING_ENABLED config = true /\ ~ fits_float count
       end
    /\ (fits_float count \/ SMART_RANKING_ENABLED config = false ->
        exists out, r = Ok out).
Proof.
  intros count.
  destruct (fetch_news_spec config max_articles st) as (r & st' & Hrun & Hcases).
  exists r, st'. split; [exact Hrun|]. split.
  - destruct r as [out|e]; [|done]. destruct Hcases as (Hwf & Hin & Hlen & _). done.
  - intros Hsafe. destruct (fetch_news_Ok config max_articles st Hsafe) as (out & st1 & Hr).
    exists out. congruence.
Qed.

(** X12.  With the ranking by the chat client switched off, the articles that
    [fetch_news] returns have pairwise distinct links. *)
Theorem fetch_news_distinct_links max_articles st out st' :
  SMART_RANKING_ENABLED config = false ->
  fetch_news config max_articles st = (Ok out, st') ->
  NoDup (links out).
Proof.
  intros Hsmart Hfetch.
  destruct (fetch_news_spec config max_articles st)
    as (r & st1 & Hrun & Hcases).
  rewrite Hfetch in Hrun. injection Hrun as <- <-. by apply Hcases.
Qed.
End FetchNewsTheorems.

Section BaseAgentMore.
Context `{Env} (config : Config).

Lemma execute_outcome instructions task st :
  execute config instructions task st
  = (Ok match fst (client_reply config instructions task (world st)) with
        | Ok content => content
        | Raise e => error_message config e
        end,
     {| world := snd (client_reply config instructions task (world st));
        stdout := stdout st; trace := trace st |}).
Proof.
  unfold execute, try_except, call, client_reply, error_message.
  destruct (chat_completions_create _ _ _ _ _) as [[content|e] w']; cbn [fst snd]; [done|].
  by destruct (contains "timeout" (lower (str_exn e))).
Qed.

Lemma error_message_starts config' e :
  exists rest, error_message config' e = "Error" +:+ rest.
Proof. unfold error_message. destruct (contains _ _); by eexists. Qed.

(** X13.  [execute] never raises and prints nothing.  It returns the content
    that the client returns; when the client raises, it returns a
    message that starts with [Error] (the time-out message when the
    text of the exception mentions a timeout), and such a message never
    parses as a list of numbers. *)
Theorem execute_never_raises instructions task st :
  exists response st',
    execute config instructions task st = (Ok response, st')
    /\ world st' = snd (client_reply config instructions task (world st))
    /\ stdout st' = stdout st
    /\ (forall content,
          fst (client_reply config instructions task (world st)) = Ok content ->
          response = content)
    /\ (forall e,
          fst (client_reply config instructions task (world st)) = Raise e ->
          response = error_message config e
          /\ (exists rest, response = "Error" +:+ rest)
          /\ (exists err, parse_indices (split_comma response) = Raise err)).
Proof.
  eexists _, _. split; [apply execute_outcome|]. cbn [world stdout].
  split; [done|]. split; [done|]. split.
  - by intros content ->.
  - intros e ->. split; [done|]. split; [apply error_message_starts|].
    destruct (error_message_starts config e) as [rest ->]. apply parse_indices_E.
Qed.
End BaseAgentMore.

Section FilterMore.
Context `{Env} (config : Config).

Lemma filter_lines_total i articles :
  Forall has_prompt_keys articles -> exists lines, filter_lines i articles = Ok lines.
Proof.
  intros Hall. revert i. induction Hall as [|a articles ([s Hs] & [t Ht]) _ IH]; intros i.
  - by eexists.
  - cbn. unfold getitem. rewrite Hs, Ht. cbn. destruct (IH (i + 1)) as [lines ->].
    by eexists.
Qed.

Lemma filter_lines_Raise i articles e :
  filter_lines i articles = Raise e ->
  exists key a, e = KeyError key /\ key ∈ ["source"; "title"]
                /\ a ∈ articles /\ a !! key = None.
Proof.
  revert i. induction articles as [|x articles IH]; intros i Hr; [discriminate|].
  cbn in Hr. unfold getitem in Hr.
  destruct (x !! "title") eqn:Ht; cbn in Hr.
  2:{ injection Hr as <-. exists "title", x. repeat split; [in_list..|done]. }
  destruct (x !! "source") eqn:Hs; cbn in Hr.
  2:{ injection Hr as <-. exists "source", x. repeat split; [in_list..|done]. }
  destruct (filter_lines (i + 1) articles) as [lines|e'] eqn:El; [discriminate|].
  cbn in Hr. injection Hr as <-.
  destruct (IH _ El) as (key & a & -> & Hkey & Ha & Hnone).
  exists key, a. repeat split; [done|by apply list_elem_of_further|done].
Qed.

(** When [filter_articles] does nothing. *)
Lemma filter_articles_skip articles criteria st :
  truthy criteria = false \/ llen articles <= MAX_ARTICLES config ->
  filter_articles config articles criteria st = (Ok articles, st).
Proof.
  intros Hskip. unfold filter_articles.
  destruct (truthy criteria); [|done]. destruct Hskip as [?|Hle]; [done|].
  cbn [negb orb]. by destruct (Z.leb_spec (llen articles) (MAX_ARTICLES config)); [|lia].
Qed.

(** When it asks the chat client. *)
Lemma filter_articles_ask articles criteria st lines :
  truthy criteria = true -> MAX_ARTICLES config < llen articles ->
  filter_lines 0 articles = Ok lines ->
  let task := filter_task (default "" criteria) (join nl lines) in
  let response :=
    match fst (client_reply config fetcher_instructions task (world st)) with
    | Ok content => content
    | Raise e => error_message config e
    end in
  filter_articles config articles criteria st
  = (Ok match parse_indices (split_comma response) with
        | Ok selected_indices => select_indices articles selected_indices
        | Raise _ => articles
        end,
     {| world := snd (client_reply config fetcher_instructions task (world st));
        stdout := stdout st; trace := trace st |}).
Proof.
  intros Hc Hlt Hlines task response. unfold filter_articles. rewrite Hc.
  destruct (Z.leb_spec (llen articles) (MAX_ARTICLES config)); [lia|]. cbn [negb orb].
  rewrite bind_lift, Hlines.
  rewrite (bind_Ok _ _ _ _ _ (execute_outcome config fetcher_instructions task st)).
  fold response. unfold try_except. rewrite bind_lift.
  by destruct (parse_indices (split_comma response)).
Qed.

(** X14.  Every article that [filter_articles] returns is an article of its
    input.  Without criteria, or with at most [MAX_ARTICLES] articles,
    it returns the input and calls nothing; when the chat client raises
    it returns the input too.  It raises only a [KeyError] for [source]
    or [title], while it builds the prompt. *)
Theorem filter_articles_selects_from_input articles criteria st r st' :
  filter_articles config articles criteria st = (r, st') ->
  match r with
  | Ok out =>
      (forall a, a ∈ out -> a ∈ articles)
      /\ (truthy criteria = false \/ llen articles <= MAX_ARTICLES config ->
          out = articles /\ st' = st)
      /\ (forall lines e,
            filter_lines 0 articles = Ok lines ->
            fst (client_reply config fetcher_instructions
                   (filter_task (default "" criteria) (join nl lines)) (world st))
            = Raise e ->
            out = articles)
  | Raise e =>
      st' = st
      /\ exists key a, e = KeyError key /\ key ∈ ["source"; "title"]
                       /\ a ∈ articles /\ a !! key = None
  end.
Proof.
  intros Hrun.
  destruct (truthy criteria) eqn:Hc.
  2:{ rewrite filter_articles_skip in Hrun by (by left). injection Hrun as <- <-.
      split; [done|]. split; [done|]. intros lines e _ _. done. }
  destruct (Z.le_gt_cases (llen articles) (MAX_ARTICLES config)) as [Hle|Hgt].
  { rewrite filter_articles_skip in Hrun by (by right). injection Hrun as <- <-.
    split; [done|]. split; [done|]. intros lines e _ _. done. }
  destruct (filter_lines 0 articles) as [lines|e] eqn:Hlines.
  - rewrite (filter_articles_ask articles criteria st lines Hc Hgt Hlines) in Hrun.
    injection Hrun as <- <-. split; [|split].
    + intros a Ha. destruct (parse_indices _); [|done].
      by eapply elem_of_select_indices.
    + intros [?|?]; [done|lia].
    + intros lines' e [= <-] ->.
      destruct (error_message_starts config e) as [rest ->].
      destruct (parse_indices_E ("rror" +:+ rest)) as [err Herr].
      change (String "E" ("rror" +:+ rest)) with ("Error" +:+ rest) in Herr.
      by rewrite Herr.
  - unfold filter_articles in Hrun. rewrite Hc in Hrun.
    destruct (Z.leb_spec (llen articles) (MAX_ARTICLES config)); [lia|].
    cbn [negb orb] in Hrun. rewrite bind_lift, Hlines in Hrun.
    injection Hrun as <- <-. split; [done|]. by eapply filter_lines_Raise.
Qed.

(** X15.  After [fetch_news] with a [max_articles] between 0 and
    [MAX_ARTICLES] (the default is [MAX_ARTICLES]), [filter_articles]
    returns the articles unchanged and calls nothing, whatever the
    criteria: the filtering phase of a run then has no effect. *)
Theorem filter_after_fetch_news_is_identity max_articles criteria st out st' :
  0 <= default (MAX_ARTICLES config) max_articles <= MAX_ARTICLES config ->
  fetch_news config max_articles st = (Ok out, st') ->
  filter_articles config out criteria st' = (Ok out, st').
Proof.
  intros [Hm Hmax] Hfetch.
  destruct (fetch_news_spec config max_articles st) as (r & st1 & Hrun & Hcases).
  rewrite Hfetch in Hrun. injection Hrun as <- <-. destruct Hcases as (_ & _ & Hlen & _).
  apply filter_articles_skip. right. specialize (Hlen Hm). lia.
Qed.
End FilterMore.

Section SummarizerMore.
Context `{Env} (config : Config).

Lemma has_keys_lookup keys a key : has_keys keys a -> key ∈ keys -> is_Some (a !! key).
Proof. intros Hk Hin. by eapply Forall_forall in Hk. Qed.

Lemma has_keys_insert keys a key v : has_keys keys a -> has_keys keys (<[ key := v ]> a).
Proof.
  intros Hk. eapply Forall_impl; [exact Hk|]. intros k [x Hx].
  destruct (decide (key = k)) as [->|Hne].
  - rewrite lookup_insert_eq. by eexists.
  - rewrite lookup_insert_ne by done. by eexists.
Qed.

Lemma has_keys_subseteq keys keys' a :
  has_keys keys a -> (forall key, key ∈ keys' -> key ∈ keys) -> has_keys keys' a.
Proof.
  intros Hk Hsub. apply Forall_forall. intros key Hin. apply (has_keys_lookup keys); auto.
Qed.

(** [summarize_article] on an article that has the keys it reads. *)
Lemma summarize_article_keyed article st :
  has_keys ["title"; "source"; "description"] article ->
  exists summary st',
    summarize_article config article st = (Ok (<[ "ai_summary" := summary ]> article), st')
    /\ stdout st' = stdout st.
Proof.
  intros Hk.
  destruct (has_keys_lookup _ _ "title" Hk ltac:(in_list)) as [title Ht].
  destruct (has_keys_lookup _ _ "source" Hk ltac:(in_list)) as [source Hs].
  destruct (has_keys_lookup _ _ "description" Hk ltac:(in_list)) as [description Hd].
  unfold summarize_article, getitem. rewrite Ht, Hs, Hd. rewrite !bind_lift.
  rewrite (bind_Ok _ _ _ _ _ (execute_outcome config _ _ st)).
  eexists _, _. split; [reflexivity|done].
Qed.

Lemma summarize_loop_keyed articles i total summarized_articles st :
  Forall (has_keys ["title"; "source"; "description"]) articles ->
  exists out st',
    summarize_loop config i total articles summarized_articles st
    = (Ok (summarized_articles ++ out), st')
    /\ Forall2 (fun a o => exists summary, o = <[ "ai_summary" := summary ]> a)
         articles out
    /\ stdout st' = stdout st ++ progress_lines i total articles.
Proof.
  intros Hall. revert i summarized_articles st.
  induction Hall as [|a articles Ha _ IH]; intros i acc st.
  - exists [], st. rewrite !app_nil_r. by repeat split.
  - cbn [summarize_loop progress_lines]. rewrite bind_lift.
    destruct (has_keys_lookup _ _ "title" Ha ltac:(in_list)) as [title Ht].
    unfold getitem, get. rewrite Ht. rewrite bind_print.
    match goal with |- context [bind _ _ ?s] => set (st1 := s) end.
    destruct (summarize_article_keyed a st1 Ha) as (summary & st2 & Hs & Hout).
    erewrite bind_Ok;
      [|apply try_except_Ok; erewrite bind_Ok; [reflexivity|exact Hs]].
    destruct (IH (i + 1) (acc ++ [<[ "ai_summary" := summary ]> a]) st2)
      as (out & st' & -> & Hall2 & Hout').
    exists (<[ "ai_summary" := summary ]> a :: out), st'.
    split; [by rewrite <- app_assoc|]. split; [constructor; [by exists summary|done]|].
    rewrite Hout', Hout. subst st1. cbn [stdout]. by rewrite <- app_assoc.
Qed.

(** [summarize_articles] on articles that have the keys it reads. *)
Lemma summarize_articles_keyed_lines articles st :
  Forall (has_keys ["title"; "source"; "description"]) articles ->
  exists out st',
    summarize_articles config articles st = (Ok out, st')
    /\ Forall2 (fun a o => exists summary, o = <[ "ai_summary" := summary ]> a)
         articles out
    /\ stdout st'
       = stdout st
         ++ [nl +:+ "[" +:+ summarizer_name +:+ "] Summarizing "
               +:+ pretty (llen articles) +:+ " articles..."]
         ++ progress_lines 1 (llen articles) articles
         ++ [nl +:+ "[" +:+ summarizer_name +:+ "] Completed summarization of "
               +:+ pretty (llen articles) +:+ " articles"].
Proof.
  intros Hall.
  destruct (summarize_loop_keyed articles 1 (llen articles) []
              {| world := world st;
                 stdout := stdout st ++ [nl +:+ "[" +:+ summarizer_name +:+ "] Summarizing "
                                           +:+ pretty (llen articles) +:+ " articles..."];
                 trace := trace st |} Hall)
    as (out & st' & Hrun & Hout & Hprint).
  cbn [app] in Hrun. rewrite (summarize_articles_loop _ _ _ _ _ Hrun).
  eexists _, _. split; [reflexivity|]. split; [exact Hout|].
  cbn [stdout] in *. rewrite Hprint. rewrite <- !app_assoc. do 3 f_equal.
  unfold llen. by rewrite (Forall2_length _ _ _ Hout).
Qed.

(** X16.  When every article has a title, a source and a description,
    [summarize_articles] adds a summary to every article, whatever the
    chat client does (a failure of the client becomes the summary), and
    prints its opening line, one progress line per article, no error
    line, and its closing line. *)
Theorem summarize_articles_always_summarizes articles st :
  Forall (has_keys ["title"; "source"; "description"]) articles ->
  exists out st',
    summarize_articles config articles st = (Ok out, st')
    /\ Forall2 (fun a o => exists summary, o = <[ "ai_summary" := summary ]> a)
         articles out
    /\ stdout st'
       = stdout st
         ++ [nl +:+ "[" +:+ summarizer_name +:+ "] Summarizing "
               +:+ pretty (llen articles) +:+ " articles..."]
         ++ progress_lines 1 (llen articles) articles
         ++ [nl +:+ "[" +:+ summarizer_name +:+ "] Completed summarization of "
               +:+ pretty (llen articles) +:+ " articles"].
Proof. apply summarize_articles_keyed_lines. Qed.

Lemma summarize_articles_loop_keyed_aux articles st :
  Forall (has_keys ["title"; "source"; "description"]) articles ->
  exists out st',
    summarize_articles config articles st = (Ok out, st')
    /\ Forall2 (fun a o => exists summary, o = <[ "ai_summary" := summary ]> a)
         articles out.
Proof.
  intros Hall.
  destruct (summarize_articles_keyed_lines articles st Hall)
    as (out & st' & Hrun & Hout & _).
  by exists out, st'.
Qed.

Lemma themes_blocks_total i articles :
  Forall (has_keys ["title"; "description"]) articles ->
  exists blocks, themes_blocks i articles = Ok blocks.
Proof.
  intros Hall. revert i. induction Hall as [|a articles Ha _ IH]; intros i; [by eexists|].
  destruct (has_keys_lookup _ _ "title" Ha ltac:(in_list)) as [title Ht].
  destruct (has_keys_lookup _ _ "description" Ha ltac:(in_list)) as [description Hd].
  cbn. unfold getitem. rewrite Ht, Hd. cbn. destruct (IH (i + 1)) as [blocks ->].
  by eexists.
Qed.

Lemma themes_blocks_Raise i articles a :
  a ∈ articles -> a !! "description" = None ->
  exists key, themes_blocks i articles = Raise (KeyError key)
              /\ key ∈ ["title"; "description"].
Proof.
  revert i. induction articles as [|x articles IH]; intros i Hin Hnone;
    [by apply elem_of_nil in Hin|].
  cbn. unfold getitem.
  destruct (x !! "title") as [title|] eqn:Ht; cbn; [|exists "title"; split; [done|in_list]].
  destruct (x !! "description") as [description|] eqn:Hd; cbn;
    [|exists "description"; split; [done|in_list]].
  apply elem_of_cons in Hin as [->|Hin]; [congruence|].
  destruct (IH (i + 1) Hin Hnone) as (key & -> & Hkey). by exists key.
Qed.

Lemma identify_themes_keyed articles st :
  Forall (has_keys ["title"; "description"]) articles ->
  exists themes st', identify_themes config articles st = (Ok themes, st').
Proof.
  intros Hall. destruct (themes_blocks_total 0 articles Hall) as [blocks Hb].
  unfold identify_themes. rewrite bind_lift, Hb.
  rewrite (bind_Ok _ _ _ _ _ (execute_outcome config _ _ st)). by eexists _, _.
Qed.

(** X17.  [identify_themes] returns when every article has a title and a
    description.  It raises a [KeyError], before the chat client is
    called, as soon as one article lacks its description, also when
    that article has a summary: the default of [get] is evaluated
    first. *)
Theorem identify_themes_reads_description articles st :
  (Forall (has_keys ["title"; "description"]) articles ->
   exists themes st',
     identify_themes config articles st = (Ok themes, st') /\ stdout st' = stdout st)
  /\ (forall a, a ∈ articles -> a !! "description" = None ->
        exists key, identify_themes config articles st = (Raise (KeyError key), st)
                    /\ key ∈ ["title"; "description"]).
Proof.
  split.
  - intros Hall. destruct (themes_blocks_total 0 articles Hall) as [blocks Hb].
    unfold identify_themes. rewrite bind_lift, Hb.
    rewrite (bind_Ok _ _ _ _ _ (execute_outcome config _ _ st)).
    eexists _, _. split; [reflexivity|done].
  - intros a Hin Hnone. destruct (themes_blocks_Raise 0 articles a Hin Hnone)
      as (key & Hb & Hkey).
    exists key. split; [|done]. unfold identify_themes. by rewrite bind_lift, Hb.
Qed.
End SummarizerMore.

Lemma app_nil_r_string (s : string) : s +:+ "" = s.
Proof.
  induction s as [|c s IH]; [done|].
  change (String c (s +:+ "") = String c s). by rewrite IH.
Qed.

Lemma contains_refl s : contains s s = true.
Proof. apply contains_spec. exists "", "". cbn. by rewrite app_nil_r_string. Qed.

(** Finds the part [sub] in a text written with [+:+]; [tac] closes the
    goal at a piece that is known to hold the part. *)
Ltac find_part tac :=
  first [ apply contains_refl
        | tac
        | apply contains_app_l; find_part tac
        | apply contains_app_r; find_part tac ].

Section CompilerMore.
Context `{Env} (config : Config).

Lemma markdown_stories_total i articles :
  Forall (has_keys ["title"; "source"; "link"]) articles ->
  exists stories, markdown_stories i articles = Ok stories.
Proof.
  intros Hall. revert i. induction Hall as [|a articles Ha _ IH]; intros i; [by eexists|].
  destruct (has_keys_lookup _ _ "title" Ha ltac:(in_list)) as [title Ht].
  destruct (has_keys_lookup _ _ "source" Ha ltac:(in_list)) as [source Hs].
  destruct (has_keys_lookup _ _ "link" Ha ltac:(in_list)) as [link Hl].
  cbn [markdown_stories]. unfold getitem. rewrite Ht, Hs, Hl. cbn [bind_res].
  destruct (IH (i + 1)) as [stories ->]. by eexists.
Qed.

Lemma markdown_stories_contains i articles stories a :
  markdown_stories i articles = Ok stories -> a ∈ articles ->
  contains (get a "title" "") stories = true
  /\ contains (get a "source" "") stories = true
  /\ contains (get a "link" "") stories = true
  /\ contains (get a "ai_summary" "") stories = true.
Proof.
  revert i stories. induction articles as [|x articles IH]; intros i stories Hm Hin;
    [by apply elem_of_nil in Hin|].
  cbn [markdown_stories] in Hm. unfold getitem in Hm.
  destruct (x !! "title") as [title|] eqn:Ht; [cbn [bind_res] in Hm|discriminate].
  destruct (x !! "source") as [source|] eqn:Hs; [cbn [bind_res] in Hm|discriminate].
  destruct (x !! "link") as [link|] eqn:Hl; [cbn [bind_res] in Hm|discriminate].
  destruct (markdown_stories (i + 1) articles) as [stories'|] eqn:Em;
    [cbn [bind_res] in Hm|discriminate].
  injection Hm as <-. apply elem_of_cons in Hin as [->|Hin].
  - unfold get. rewrite Ht, Hs, Hl. repeat split; find_part fail.
  - destruct (IH _ _ Em Hin) as (H1 & H2 & H3 & H4).
    repeat split; find_part assumption.
Qed.

Lemma format_digest_markdown_keyed articles themes st :
  Forall (has_keys ["title"; "source"; "link"]) articles ->
  exists digest, format_digest_markdown articles themes st = (Ok digest, st).
Proof.
  intros Hall. destruct (markdown_stories_total 1 articles Hall) as [stories Hs].
  unfold format_digest_markdown, bind, observe, lift, ret. rewrite Hs. by eexists.
Qed.

(** X18.  For articles that have a title, a source and a link, the Markdown
    digest is built without any call or print, and it contains the
    themes and, for every article, its title, its source, its link and
    its summary. *)
Theorem format_digest_markdown_lists_articles articles themes st :
  Forall (has_keys ["title"; "source"; "link"]) articles ->
  exists digest,
    format_digest_markdown articles themes st = (Ok digest, st)
    /\ contains themes digest = true
    /\ forall a, a ∈ articles ->
         contains (get a "title" "") digest = true
         /\ contains (get a "source" "") digest = true
         /\ contains (get a "link" "") digest = true
         /\ contains (get a "ai_summary" "") digest = true.
Proof.
  intros Hall. destruct (markdown_stories_total 1 articles Hall) as [stories Hs].
  unfold format_digest_markdown, bind, observe, lift, ret. rewrite Hs.
  eexists. split; [reflexivity|]. split.
  - destruct (String.eqb_spec themes "") as [->|Hne]; [by destruct (_ +:+ _)|].
    find_part fail.
  - intros a Ha. destruct (markdown_stories_contains _ _ _ a Hs Ha) as (H1 & H2 & H3 & H4).
    repeat split; find_part assumption.
Qed.

Lemma digest_blocks_total i articles :
  Forall (has_keys ["title"; "source"; "link"; "description"]) articles ->
  exists blocks, digest_blocks i articles = Ok blocks.
Proof.
  intros Hall. revert i. induction Hall as [|a articles Ha _ IH]; intros i; [by eexists|].
  destruct (has_keys_lookup _ _ "title" Ha ltac:(in_list)) as [title Ht].
  destruct (has_keys_lookup _ _ "source" Ha ltac:(in_list)) as [source Hs].
  destruct (has_keys_lookup _ _ "link" Ha ltac:(in_list)) as [link Hl].
  destruct (has_keys_lookup _ _ "description" Ha ltac:(in_list)) as [description Hd].
  cbn [digest_blocks]. unfold getitem. rewrite Ht, Hs, Hl, Hd. cbn [bind_res].
  destruct (IH (i + 1)) as [blocks ->]. by eexists.
Qed.

Lemma compile_digest_keyed articles themes st :
  Forall (has_keys ["title"; "source"; "link"; "description"]) articles ->
  exists digest st',
    compile_digest config articles themes st = (Ok digest, st').
Proof.
  intros Hall. destruct (digest_blocks_total 1 articles Hall) as [blocks Hb].
  unfold compile_digest. rewrite bind_lift, Hb.
  rewrite (bind_Ok _ _ _ _ _ (execute_outcome config _ _ st)). by eexists _, _.
Qed.

Lemma save_digest_outcome digest st :
  save_digest config digest st
  = (match fst (write_file (digest_path config (datetime_now (world st))) digest
                  (world st)) with
     | Ok _ => Ok (digest_path config (datetime_now (world st)))
     | Raise e => Raise e
     end,
     {| world := snd (write_file (digest_path config (datetime_now (world st))) digest
                        (world st));
        stdout := stdout st; trace := trace st |}).
Proof.
  unfold save_digest, bind, observe, call, ret, digest_path.
  by destruct (write_file _ _ _) as [[[]|e] w'].
Qed.
End CompilerMore.

Section CoordinatorMore.
Context `{Env} (config : Config).

Lemma well_formed_has_keys a : well_formed a -> has_keys ARTICLE_KEYS a.
Proof. by intros [Hk _]. Qed.

Lemma Forall_has_keys_subseteq keys keys' (l : list dict) :
  Forall (has_keys keys) l -> (forall key, key ∈ keys' -> key ∈ keys) ->
  Forall (has_keys keys') l.
Proof.
  intros Hl Hsub. eapply Forall_impl; [exact Hl|].
  intros a Ha. by eapply has_keys_subseteq.
Qed.

Ltac sub_keys :=
  let key := fresh "key" in
  let Hin := fresh "Hin" in
  intros key Hin; unfold ARTICLE_KEYS;
  repeat (apply elem_of_cons in Hin as [->|Hin]; [in_list|]);
  by apply elem_of_nil in Hin.

Lemma filter_articles_keyed articles criteria st :
  Forall (has_keys ARTICLE_KEYS) articles ->
  exists out st',
    filter_articles config articles criteria st = (Ok out, st')
    /\ Forall (has_keys ARTICLE_KEYS) out.
Proof.
  intros Hall.
  destruct (truthy criteria) eqn:Hc.
  2:{ rewrite (filter_articles_skip config) by (by left). by eexists _, _. }
  destruct (Z.le_gt_cases (llen articles) (MAX_ARTICLES config)) as [Hle|Hgt].
  { rewrite (filter_articles_skip config) by (by right). by eexists _, _. }
  destruct (filter_lines_total 0 articles) as [lines Hlines].
  { eapply Forall_impl; [exact Hall|]. intros a Ha.
    split; apply (has_keys_lookup _ _ _ Ha); in_list. }
  rewrite (filter_articles_ask config articles criteria st lines Hc Hgt Hlines).
  eexists _, _. split; [reflexivity|].
  destruct (parse_indices _) as [sel|]; [|done].
  apply Forall_forall. intros a Ha. apply elem_of_select_indices in Ha.
  by eapply Forall_forall in Hall.
Qed.

Lemma summarize_articles_keyed articles st :
  Forall (has_keys ARTICLE_KEYS) articles ->
  exists out st',
    summarize_articles config articles st = (Ok out, st')
    /\ Forall (has_keys ARTICLE_KEYS) out.
Proof.
  intros Hall.
  destruct (summarize_articles_loop_keyed_aux config articles st) as (out & st' & Hrun & Hout).
  { eapply Forall_has_keys_subseteq; [exact Hall|sub_keys]. }
  exists out, st'. split; [done|].
  clear Hrun. induction Hout as [|a o articles out [summary ->] _ IH]; [constructor|].
  apply Forall_cons in Hall as [Ha Hall]. constructor; [|by apply IH].
  by apply has_keys_insert.
Qed.

Lemma run_from_summarize_outcome start_time articles st r st' :
  Forall (has_keys ARTICLE_KEYS) articles ->
  run_from_summarize config start_time articles st = (r, st') ->
  r = Ok None
  \/ exists digest w,
       r = saved config digest w
       /\ world st' = snd (write_file (digest_path config (datetime_now w)) digest w).
Proof.
  intros Hall Hrun. unfold run_from_summarize in Hrun.
  rewrite (bind_Ok _ _ _ _ _ (time_limit_exceeded_spec config _ _)) in Hrun.
  destruct (exceeded config start_time (world st)); [left; by injection Hrun as <- _|].
  rewrite (bind_Ok _ _ _ _ _ (enter_spec _ _)) in Hrun.
  match type of Hrun with context [bind (summarize_articles _ _) _ ?s] =>
    destruct (summarize_articles_keyed articles s Hall) as (out & st1 & Hsum & Hout)
  end.
  rewrite (bind_Ok _ _ _ _ _ Hsum) in Hrun.
  rewrite (bind_Ok _ _ _ _ _ (time_limit_exceeded_spec config _ _)) in Hrun.
  destruct (exceeded config start_time (world st1)); [left; by injection Hrun as <- _|].
  rewrite (bind_Ok _ _ _ _ _ (enter_spec _ _)) in Hrun.
  match type of Hrun with context [bind (identify_themes _ _) _ ?s] =>
    destruct (identify_themes_keyed config out s) as (themes & st2 & Hthemes)
  end.
  { eapply Forall_has_keys_subseteq; [exact Hout|sub_keys]. }
  rewrite (bind_Ok _ _ _ _ _ Hthemes) in Hrun.
  rewrite (bind_Ok _ _ _ _ _ (time_limit_exceeded_spec config _ _)) in Hrun.
  destruct (exceeded config start_time (world st2)); [left; by injection Hrun as <- _|].
  rewrite (bind_Ok _ _ _ _ _ (enter_spec _ _)) in Hrun.
  match type of Hrun with context [bind (if ?b then _ else _) _ ?s] =>
    assert (exists digest st3,
              (if b then format_digest_markdown out themes
               else compile_digest config out themes) s = (Ok digest, st3))
      as (digest & st3 & Hdigest)
  end.
  { destruct (_ =? _)%string.
    - destruct (format_digest_markdown_keyed out themes
                  {| world := world st2; stdout := stdout st2;
                     trace := (trace st2 ++ [Checked (world st2) false])
                              ++ [Entered Compile (world st2)] |})
        as (digest & Hd).
      { eapply Forall_has_keys_subseteq; [exact Hout|sub_keys]. }
      by eexists _, _.
    - eapply compile_digest_keyed.
      eapply Forall_has_keys_subseteq; [exact Hout|sub_keys]. }
  rewrite (bind_Ok _ _ _ _ _ Hdigest) in Hrun.
  rewrite (bind_Ok _ _ _ _ _ (enter_spec _ _)) in Hrun.
  unfold bind in Hrun. rewrite (save_digest_outcome config) in Hrun. cbn [world] in Hrun.
  right. exists digest, (world st3). unfold saved.
  destruct (fst (write_file _ _ _)); injection Hrun as <- <-; by split.
Qed.

(** A count within the range of the floats has at most 4300 digits. *)
Lemma fits_float_printable n : fits_float n -> printable n.
Proof.
  unfold fits_float, printable. intros Hn. eapply Z.lt_le_trans; [exact Hn|].
  apply Z.leb_le. vm_compute. reflexivity.
Qed.

Lemma counts_in_range_spec max_articles :
  counts_in_range config max_articles ->
  printable (or_default max_articles (MAX_ARTICLES config))
  /\ fits_float (default (MAX_ARTICLES config) max_articles).
Proof.
  intros [Hmax Hn]. destruct max_articles as [n|]; cbn.
  - split; [|by apply Hn]. apply fits_float_printable.
    destruct (n =? 0); [done|by apply Hn].
  - split; [by apply fits_float_printable|done].
Qed.

(** Every way in which a run ends. *)
Lemma run_outcome max_articles filter_criteria st r st' :
  run config max_articles filter_criteria st = (r, st') ->
  r = Ok None
  \/ (exists digest w,
        r = saved config digest w
        /\ world st' = snd (write_file (digest_path config (datetime_now w)) digest w))
  \/ (exists msg, r = Raise (ValueError msg) /\ st' = st
                  /\ ~ printable (or_default max_articles (MAX_ARTICLES config)))
  \/ (r = Raise (OverflowError "int too large to convert to float")
      /\ SMART_RANKING_ENABLED config = true
      /\ ~ fits_float (default (MAX_ARTICLES config) max_articles)).
Proof.
  unfold run. intros Hrun.
  rewrite (bind_Ok (observe time_time) _ st _ st eq_refl) in Hrun.
  rewrite bind_lift in Hrun. unfold str_int in Hrun.
  destruct (Z.leb_spec (10 ^ MAX_STR_DIGITS)
              (Z.abs (or_default max_articles (MAX_ARTICLES config)))) as [Hbig|_].
  { injection Hrun as <- <-. right. right. left. eexists. repeat split.
    unfold printable. lia. }
  rewrite (bind_Ok _ _ _ _ _ (enter_spec _ _)) in Hrun.
  match type of Hrun with context [bind (fetch_news _ _) _ ?s] =>
    destruct (fetch_news_spec config max_articles s)
      as ([articles|e] & st1 & Hfetch & Hcases)
  end.
  2:{ rewrite (bind_Raise _ _ _ _ _ Hfetch) in Hrun. injection Hrun as <- <-.
      destruct Hcases as (-> & Hsmart & Hfit). by do 3 right. }
  destruct Hcases as (Hwf & _).
  rewrite (bind_Ok _ _ _ _ _ Hfetch) in Hrun.
  rewrite (bind_Ok _ _ _ _ _ (time_limit_exceeded_spec config _ _)) in Hrun.
  destruct (exceeded config _ (world st1)); [left; by injection Hrun as <- _|].
  assert (Hkeys : Forall (has_keys ARTICLE_KEYS) articles).
  { eapply Forall_impl; [exact Hwf|]. apply well_formed_has_keys. }
  destruct articles as [|a articles]; [left; by injection Hrun as <- _|].
  assert (Hrest : forall articles st2,
            Forall (has_keys ARTICLE_KEYS) articles ->
            run_from_summarize config (time_time (world st)) articles st2 = (r, st') ->
            r = Ok None
            \/ (exists digest w,
                  r = saved config digest w
                  /\ world st'
                     = snd (write_file (digest_path config (datetime_now w)) digest w))
            \/ (exists msg, r = Raise (ValueError msg) /\ st' = st
                            /\ ~ printable (or_default max_articles (MAX_ARTICLES config)))
            \/ (r = Raise (OverflowError "int too large to convert to float")
                /\ SMART_RANKING_ENABLED config = true
                /\ ~ fits_float (default (MAX_ARTICLES config) max_articles))).
  { intros articles' st2 Hk Hr.
    destruct (run_from_summarize_outcome _ _ _ _ _ Hk Hr) as [?|?]; [by left|by right; left]. }
  destruct (truthy filter_criteria).
  - rewrite (bind_Ok _ _ _ _ _ (time_limit_exceeded_spec config _ _)) in Hrun.
    cbn [world] in Hrun.
    destruct (exceeded config _ (world st1)); [left; by injection Hrun as <- _|].
    rewrite (bind_Ok _ _ _ _ _ (enter_spec _ _)) in Hrun.
    match type of Hrun with context [bind (filter_articles _ _ _) _ ?s] =>
      destruct (filter_articles_keyed (a :: articles) filter_criteria s Hkeys)
        as (out & st2 & Hfilter & Hout)
    end.
    rewrite (bind_Ok _ _ _ _ _ Hfilter) in Hrun.
    by eapply Hrest.
  - by eapply Hrest.
Qed.
End CoordinatorMore.

Section CoordinatorTheoremsMore.
Context `{Env} (config : Config).



Lemma strip_pretty_nonempty (n : Z) : strip (pretty n) <> "".
Proof.
  rewrite strip_pretty. destruct (pretty_Z_shape n) as (s & Hs & [Hn|Hn]); rewrite Hn;
    [|done].
  intros ->. destruct n as [|p|p]; [done| |done].
  by apply (pretty_N_go_nonempty (N.pos p) "").
Qed.

(** The run that follows the first answer. *)
Lemma run_interactive_count answer_max answer_filter :
  run_interactive config answer_max answer_filter
  = run config
      (Some match int (strip answer_max) with
            | Ok n => if String.eqb (strip answer_max) "" then MAX_ARTICLES config else n
            | Raise _ => MAX_ARTICLES config
            end)
      (criteria_of answer_filter).
Proof.
  unfold run_interactive. cbv zeta.
  destruct (String.eqb (strip answer_max) "") eqn:Ee; cbn [negb];
    [by destruct (int _)|].
  destruct (int (strip answer_max)) as [n|e] eqn:Ei; [reflexivity|].
  destruct (int_Raise _ _ Ei) as [msg ->]. reflexivity.
Qed.

(** A run with the default count, given or not. *)
Lemma run_default_count filter_criteria :
  run config (Some (MAX_ARTICLES config)) filter_criteria = run config None filter_criteria.
Proof.
  unfold run, or_default, fetch_news. by destruct (MAX_ARTICLES config =? 0).
Qed.

End CoordinatorTheoremsMore.

Section NameOrder.

Lemma ascii_compare_refl c : Ascii.compare c c = Eq.
Proof. unfold Ascii.compare. apply N.compare_refl. Qed.

Lemma compare_app_same p a b : String.compare (p +:+ a) (p +:+ b) = String.compare a b.
Proof.
  induction p as [|c p IH]; [done|].
  change (String.compare (String c (p +:+ a)) (String c (p +:+ b)) = String.compare a b).
  cbn [String.compare]. by rewrite ascii_compare_refl.
Qed.

Lemma compare_app_same_length a1 a2 b1 b2 :
  String.length a1 = String.length a2 ->
  String.compare (a1 +:+ b1) (a2 +:+ b2)
  = match String.compare a1 a2 with
    | Eq => String.compare b1 b2
    | c => c
    end.
Proof.
  revert a2. induction a1 as [|c1 a1 IH]; intros [|c2 a2] Hlen; try discriminate; [done|].
  change (String.compare (String c1 (a1 +:+ b1)) (String c2 (a2 +:+ b2))
          = match String.compare (String c1 a1) (String c2 a2) with
            | Eq => String.compare b1 b2
            | c => c
            end).
  cbn [String.compare]. destruct (Ascii.compare c1 c2); [|done..].
  apply IH. by injection Hlen.
Qed.

Lemma length_app_string a b :
  String.length (a +:+ b) = (String.length a + String.length b)%nat.
Proof.
  induction a as [|c a IH]; [done|].
  change (S (String.length (a +:+ b)) = S (String.length a + String.length b)).
  by rewrite IH.
Qed.

(** The digits that [pretty_N_go] writes go in front of its second
    argument. *)
Lemma pretty_N_go_app x s : pretty_N_go x s = pretty_N_go x "" +:+ s.
Proof.
  revert s. induction (N.lt_wf_0 x) as [x _ IH]; intros s.
  destruct (decide (x = 0)%N) as [->|Hx]; [by rewrite !pretty_N_go_0|].
  rewrite !(pretty_N_go_step x) by lia.
  rewrite (IH (x `div` 10)%N) by (apply N.div_lt; lia).
  rewrite (IH (x `div` 10)%N ltac:(apply N.div_lt; lia) (String _ "")).
  by rewrite app_assoc_string.
Qed.

Lemma pretty_Z_pos x : 0 < x -> pretty x = pretty_N_go (Z.to_N x) "".
Proof. by destruct x. Qed.

Lemma zfill_2_digits r : 0 <= r < 100 -> zfill 2 r = two_digits r.
Proof.
  intros Hr.
  assert (Hall : Forall (fun r => zfill 2 r = two_digits r) (seqZ 0 100)).
  { apply (bool_decide_eq_true_1 _). vm_compute. reflexivity. }
  eapply Forall_forall in Hall; [exact Hall|]. apply elem_of_seqZ. lia.
Qed.

Lemma pretty_hundreds q r :
  0 < q -> 0 <= r < 100 -> pretty (100 * q + r) = pretty q +:+ two_digits r.
Proof.
  intros Hq Hr. rewrite !pretty_Z_pos by lia.
  assert (H10 : (100 * q + r) / 10 = 10 * q + r / 10).
  { replace (100 * q + r) with (r + (10 * q) * 10) by lia.
    rewrite Z.div_add by lia. lia. }
  assert (Hm10 : (100 * q + r) mod 10 = r mod 10).
  { replace (100 * q + r) with (r + (10 * q) * 10) by lia. by rewrite Z.mod_add by lia. }
  assert (Hr10 : 0 <= r / 10 < 10).
  { split; [apply Z.div_pos; lia|apply Z.div_lt_upper_bound; lia]. }
  assert (H100 : (10 * q + r / 10) / 10 = q).
  { replace (10 * q + r / 10) with (r / 10 + q * 10) by lia.
    rewrite Z.div_add by lia. rewrite (Z.div_small (r / 10)) by lia. lia. }
  assert (Hm100 : (10 * q + r / 10) mod 10 = r / 10).
  { replace (10 * q + r / 10) with (r / 10 + q * 10) by lia.
    rewrite Z.mod_add by lia. apply Z.mod_small. lia. }
  rewrite (pretty_N_go_step (Z.to_N (100 * q + r))) by lia.
  replace (Z.to_N (100 * q + r) `div` 10)%N with (Z.to_N (10 * q + r / 10)).
  2:{ rewrite <- H10. rewrite Z2N.inj_div by lia. done. }
  replace (Z.to_N (100 * q + r) `mod` 10)%N with (Z.to_N (r mod 10)).
  2:{ rewrite <- Hm10. rewrite Z2N.inj_mod by lia. done. }
  rewrite (pretty_N_go_step (Z.to_N (10 * q + r / 10))) by lia.
  replace (Z.to_N (10 * q + r / 10) `div` 10)%N with (Z.to_N q).
  2:{ rewrite <- H100 at 1. rewrite Z2N.inj_div by lia. done. }
  replace (Z.to_N (10 * q + r / 10) `mod` 10)%N with (Z.to_N (r / 10)).
  2:{ rewrite <- Hm100 at 1. rewrite Z2N.inj_mod by lia. done. }
  by rewrite pretty_N_go_app.
Qed.

(** Four digits are two pairs of digits. *)
Lemma zfill_4_split y :
  1000 <= y <= 9999 -> zfill 4 y = zfill 2 (y / 100) +:+ zfill 2 (y mod 100).
Proof.
  intros Hy.
  assert (Hq : 10 <= y / 100 < 100).
  { split; [apply Z.div_le_lower_bound; lia|apply Z.div_lt_upper_bound; lia]. }
  assert (Hr : 0 <= y mod 100 < 100) by (apply Z.mod_pos_bound; lia).
  assert (Hpq : pretty (y / 100) = zfill 2 (y / 100)).
  { assert (Hall : Forall (fun q : Z => pretty q = zfill 2 q) (seqZ 10 90)).
    { apply (bool_decide_eq_true_1 _). vm_compute. reflexivity. }
    eapply Forall_forall in Hall; [exact Hall|]. apply elem_of_seqZ. lia. }
  assert (Hp : pretty y = zfill 2 (y / 100) +:+ zfill 2 (y mod 100)).
  { rewrite (Z.div_mod y 100) at 1 by lia.
    rewrite pretty_hundreds by lia. by rewrite Hpq, (zfill_2_digits (y mod 100)). }
  unfold zfill at 1. rewrite Hp, length_app_string.
  rewrite !zfill_2_digits by lia. done.
Qed.

Lemma pretty_N_char_compare a b :
  (a < 10)%N -> (b < 10)%N ->
  Ascii.compare (pretty_N_char a) (pretty_N_char b) = (a ?= b)%N.
Proof.
  intros Ha Hb.
  assert (Hall : Forall (fun a =>
                   Forall (fun b =>
                     Ascii.compare (pretty_N_char a) (pretty_N_char b) = (a ?= b)%N)
                     (N.of_nat <$> seq 0 10)) (N.of_nat <$> seq 0 10)).
  { apply (bool_decide_eq_true_1 _). vm_compute. reflexivity. }
  assert (Hin : forall x, (x < 10)%N -> x ∈ N.of_nat <$> seq 0 10).
  { intros x Hx. apply list_elem_of_fmap. exists (N.to_nat x).
    split; [by rewrite N2Nat.id|]. apply elem_of_seq. lia. }
  rewrite Forall_forall in Hall. specialize (Hall a (Hin a Ha)).
  rewrite Forall_forall in Hall. exact (Hall b (Hin b Hb)).
Qed.

(** Two digits: the order of the texts is the order of the numbers. *)
Lemma zfill_2_compare n m :
  0 <= n < 100 -> 0 <= m < 100 ->
  String.compare (zfill 2 n) (zfill 2 m) = (n ?= m)
  /\ String.length (zfill 2 n) = 2%nat.
Proof.
  intros Hn Hm. rewrite !zfill_2_digits by done. split; [|done].
  assert (Hn1 : 0 <= n / 10 < 10)
    by (split; [apply Z.div_pos; lia|apply Z.div_lt_upper_bound; lia]).
  assert (Hm1 : 0 <= m / 10 < 10)
    by (split; [apply Z.div_pos; lia|apply Z.div_lt_upper_bound; lia]).
  assert (Hn0 : 0 <= n mod 10 < 10) by (apply Z.mod_pos_bound; lia).
  assert (Hm0 : 0 <= m mod 10 < 10) by (apply Z.mod_pos_bound; lia).
  unfold two_digits. cbn [String.compare].
  rewrite !pretty_N_char_compare by lia. rewrite !Z2N.inj_compare by lia.
  pose proof (Z.div_mod n 10 ltac:(lia)) as En.
  pose proof (Z.div_mod m 10 ltac:(lia)) as Em.
  destruct (Z.compare_spec (n / 10) (m / 10)) as [Hq|Hq|Hq].
  - destruct (Z.compare_spec (n mod 10) (m mod 10)) as [Hr|Hr|Hr]; symmetry.
    + apply Z.compare_eq_iff. lia.
    + apply Z.compare_lt_iff. lia.
    + apply Z.compare_gt_iff. lia.
  - symmetry. apply Z.compare_lt_iff. lia.
  - symmetry. apply Z.compare_gt_iff. lia.
Qed.
Lemma zfill_4_compare y1 y2 :
  1000 <= y1 <= 9999 -> 1000 <= y2 <= 9999 ->
  String.compare (zfill 4 y1) (zfill 4 y2) = (y1 ?= y2)
  /\ String.length (zfill 4 y1) = 4%nat.
Proof.
  intros H1 H2. rewrite !zfill_4_split by done.
  assert (Hq1 : 0 <= y1 / 100 < 100) by (split; [apply Z.div_pos; lia|apply Z.div_lt_upper_bound; lia]).
  assert (Hq2 : 0 <= y2 / 100 < 100) by (split; [apply Z.div_pos; lia|apply Z.div_lt_upper_bound; lia]).
  assert (Hr1 : 0 <= y1 mod 100 < 100) by (apply Z.mod_pos_bound; lia).
  assert (Hr2 : 0 <= y2 mod 100 < 100) by (apply Z.mod_pos_bound; lia).
  destruct (zfill_2_compare _ _ Hq1 Hq2) as [Hcq Hlq].
  destruct (zfill_2_compare _ _ Hq2 Hq1) as [_ Hlq2].
  destruct (zfill_2_compare _ _ Hr1 Hr2) as [Hcr Hlr].
  split.
  - rewrite compare_app_same_length by congruence. rewrite Hcq, Hcr.
    pose proof (Z.div_mod y1 100 ltac:(lia)) as E1.
    pose proof (Z.div_mod y2 100 ltac:(lia)) as E2.
    destruct (Z.compare_spec (y1 / 100) (y2 / 100)) as [Hq|Hq|Hq].
    + destruct (Z.compare_spec (y1 mod 100) (y2 mod 100)) as [Hr|Hr|Hr]; symmetry.
      * apply Z.compare_eq_iff. lia.
      * apply Z.compare_lt_iff. lia.
      * apply Z.compare_gt_iff. lia.
    + symmetry. apply Z.compare_lt_iff. lia.
    + symmetry. apply Z.compare_gt_iff. lia.
  - rewrite length_app_string, Hlq, Hlr. done.
Qed.
End NameOrder.

Section NameOrderTheorems.
Context `{Env} (config : Config).

Lemma string_compare_refl s : String.compare s s = Eq.
Proof. induction s as [|c s IH]; [done|]. cbn. by rewrite ascii_compare_refl. Qed.

Lemma lex_compare_Eq l1 l2 : lex_compare l1 l2 = Eq -> l1 = l2.
Proof.
  revert l2. induction l1 as [|x l1 IH]; intros [|y l2]; cbn; try done.
  destruct (Z.compare_spec x y) as [->|?|?]; [|done..]. intros Hl. f_equal. by apply IH.
Qed.

Lemma strftime_compact_compare d1 d2 :
  on_the_clock d1 -> on_the_clock d2 ->
  String.compare (strftime_compact d1) (strftime_compact d2)
  = lex_compare (clock_fields d1) (clock_fields d2)
  /\ String.length (strftime_compact d1) = 15%nat.
Proof.
  intros (Hy1 & Hmo1 & Hd1 & Hh1 & Hmi1 & Hs1) (Hy2 & Hmo2 & Hd2 & Hh2 & Hmi2 & Hs2).
  destruct (zfill_4_compare _ _ Hy1 Hy2) as [Cy Ly].
  destruct (zfill_4_compare _ _ Hy2 Hy1) as [_ Ly2].
  destruct (zfill_2_compare (month d1) (month d2)) as [Cmo Lmo]; [lia..|].
  destruct (zfill_2_compare (month d2) (month d1)) as [_ Lmo2]; [lia..|].
  destruct (zfill_2_compare (day d1) (day d2)) as [Cd Ld]; [lia..|].
  destruct (zfill_2_compare (day d2) (day d1)) as [_ Ld2]; [lia..|].
  destruct (zfill_2_compare (hour d1) (hour d2)) as [Ch Lh]; [lia..|].
  destruct (zfill_2_compare (hour d2) (hour d1)) as [_ Lh2]; [lia..|].
  destruct (zfill_2_compare (minute d1) (minute d2)) as [Cmi Lmi]; [lia..|].
  destruct (zfill_2_compare (minute d2) (minute d1)) as [_ Lmi2]; [lia..|].
  destruct (zfill_2_compare (second d1) (second d2)) as [Cs Ls]; [lia..|].
  unfold strftime_compact, clock_fields. split.
  - rewrite compare_app_same_length by congruence. rewrite Cy. cbn [lex_compare].
    destruct (year d1 ?= year d2); [|done..].
    rewrite compare_app_same_length by congruence. rewrite Cmo.
    destruct (month d1 ?= month d2); [|done..].
    rewrite compare_app_same_length by congruence. rewrite Cd.
    destruct (day d1 ?= day d2); [|done..].
    rewrite (compare_app_same "_").
    rewrite compare_app_same_length by congruence. rewrite Ch.
    destruct (hour d1 ?= hour d2); [|done..].
    rewrite compare_app_same_length by congruence. rewrite Cmi.
    destruct (minute d1 ?= minute d2); [|done..].
    rewrite Cs. by destruct (second d1 ?= second d2).
  - rewrite !length_app_string, Ly, Lmo, Ld, Lh, Lmi, Ls. done.
Qed.

Lemma strftime_compact_suffix_compare d1 d2 suffix :
  on_the_clock d1 -> on_the_clock d2 ->
  String.compare (strftime_compact d1 +:+ suffix) (strftime_compact d2 +:+ suffix)
  = lex_compare (clock_fields d1) (clock_fields d2).
Proof.
  intros H1 H2.
  destruct (strftime_compact_compare d1 d2 H1 H2) as [Hc Hl1].
  destruct (strftime_compact_compare d2 d1 H2 H1) as [_ Hl2].
  rewrite compare_app_same_length by congruence. rewrite Hc, string_compare_refl.
  by destruct (lex_compare _ _).
Qed.

Lemma digest_filename_compare d1 d2 :
  on_the_clock d1 -> on_the_clock d2 ->
  String.compare (digest_filename config d1) (digest_filename config d2)
  = lex_compare (clock_fields d1) (clock_fields d2).
Proof.
  intros H1 H2. unfold digest_filename. rewrite compare_app_same.
  by apply strftime_compact_suffix_compare.
Qed.

Lemma strftime_compact_fields d1 d2 :
  clock_fields d1 = clock_fields d2 -> strftime_compact d1 = strftime_compact d2.
Proof. unfold clock_fields, strftime_compact. by intros [= -> -> -> -> -> ->]. Qed.

(** X22.  For clock readings with a four-digit year, the paths of
    [save_digest] are ordered like the clock fields (year, month, day,
    hour, minute, second), so that two digests get the same path exactly
    when they are saved in the same second; and the path that
    [save_digest] returns is the one of its clock reading. *)
Theorem save_digest_names_follow_the_clock d1 d2 :
  on_the_clock d1 -> on_the_clock d2 ->
  String.compare (digest_path config d1) (digest_path config d2)
  = lex_compare (clock_fields d1) (clock_fields d2)
  /\ (digest_path config d1 = digest_path config d2 <-> clock_fields d1 = clock_fields d2)
  /\ forall digest st path st',
       save_digest config digest st = (Ok path, st') ->
       path = digest_path config (datetime_now (world st)).
Proof.
  intros H1 H2.
  assert (Hc : String.compare (digest_path config d1) (digest_path config d2)
               = lex_compare (clock_fields d1) (clock_fields d2)).
  { unfold digest_path. rewrite !compare_app_same. by apply digest_filename_compare. }
  split; [exact Hc|]. split; [split|].
  - intros Heq. apply lex_compare_Eq. rewrite <- Hc, Heq. apply string_compare_refl.
  - intros Heq. unfold digest_path, digest_filename.
    by rewrite (strftime_compact_fields _ _ Heq).
  - intros digest st path st' Hsave. rewrite save_digest_outcome in Hsave.
    destruct (fst (write_file _ _ _)); [|discriminate]. by injection Hsave as <- _.
Qed.
End NameOrderTheorems.

Section ExportFacts.

Lemma ascii_compare_spec c1 c2 :
  CompareSpec (c1 = c2) (N_of_ascii c1 < N_of_ascii c2)%N
    (N_of_ascii c2 < N_of_ascii c1)%N (Ascii.compare c1 c2).
Proof.
  unfold Ascii.compare. destruct (N.compare_spec (N_of_ascii c1) (N_of_ascii c2)) as [Heq|?|?];
    constructor; [|done..].
  rewrite <- (ascii_N_embedding c1), <- (ascii_N_embedding c2). by rewrite Heq.
Qed.

Lemma string_compare_trans a b c :
  String.compare a b <> Gt -> String.compare b c <> Gt -> String.compare a c <> Gt.
Proof.
  revert b c. induction a as [|x a IH]; intros [|y b] [|z c]; cbn; try done.
  destruct (ascii_compare_spec x y) as [->|Hxy|Hxy]; [| |done].
  - destruct (ascii_compare_spec y z) as [->|Hyz|Hyz]; [|done..]. apply IH.
  - intros _. destruct (ascii_compare_spec y z) as [->|Hyz|Hyz]; [| |done]; intros _.
    + destruct (ascii_compare_spec x z) as [->|?|?]; [lia|done|lia].
    + destruct (ascii_compare_spec x z) as [->|?|?]; [lia|done|lia].
Qed.

Lemma ltb_false_ge a b : String.ltb a b = false -> String.compare b a <> Gt.
Proof.
  unfold String.ltb. rewrite (String.compare_antisym a b).
  by destruct (String.compare b a).
Qed.

Lemma ltb_true_le a b : String.ltb a b = true -> String.compare a b <> Gt.
Proof. unfold String.ltb. by destruct (String.compare a b). Qed.

Lemma insert_file_head x l :
  (forall latest, head l = Some latest ->
     forall f, f ∈ l -> String.compare (fst f) (fst latest) <> Gt) ->
  exists latest rest,
    insert_file x l = latest :: rest
    /\ latest ∈ x :: l
    /\ forall f, f ∈ x :: l -> String.compare (fst f) (fst latest) <> Gt.
Proof.
  intros Hmax. destruct l as [|y l]; cbn [insert_file].
  { exists x, []. split; [done|]. split; [apply list_elem_of_here|].
    intros f ->%list_elem_of_singleton. by rewrite string_compare_refl. }
  specialize (Hmax y eq_refl).
  destruct (String.ltb (fst x) (fst y)) eqn:Hlt.
  - exists y, (insert_file x l). split; [done|]. split; [in_list|].
    intros f [->|Hf]%elem_of_cons; [by apply ltb_true_le|by apply Hmax].
  - exists x, (y :: l). split; [done|]. split; [in_list|].
    intros f [->|Hf]%elem_of_cons; [by rewrite string_compare_refl|].
    eapply string_compare_trans; [by apply Hmax|by apply ltb_false_ge].
Qed.

Lemma elem_of_insert_file x l f : f ∈ insert_file x l <-> f = x \/ f ∈ l.
Proof.
  induction l as [|y l IH]; cbn [insert_file].
  - rewrite list_elem_of_singleton, elem_of_nil. tauto.
  - destruct (String.ltb (fst x) (fst y)); rewrite !elem_of_cons, ?IH; tauto.
Qed.

Lemma elem_of_sorted_reverse l f : f ∈ sorted_reverse l <-> f ∈ l.
Proof.
  induction l as [|x l IH]; [done|]. cbn [sorted_reverse].
  by rewrite elem_of_insert_file, elem_of_cons, IH.
Qed.

(** The first file of the sorted list is one with the greatest name. *)
Lemma sorted_reverse_head l latest rest :
  sorted_reverse l = latest :: rest ->
  latest ∈ l /\ forall f, f ∈ l -> String.compare (fst f) (fst latest) <> Gt.
Proof.
  revert latest rest. induction l as [|x l IH]; [done|]. cbn [sorted_reverse].
  intros latest rest Hs.
  destruct (insert_file_head x (sorted_reverse l)) as (latest' & rest' & Hi & Hin & Hmax).
  { intros y Hhead f Hf. destruct (sorted_reverse l) as [|y' s] eqn:Es; [done|].
    injection Hhead as ->. apply (IH y s eq_refl).
    apply elem_of_sorted_reverse. by rewrite Es. }
  rewrite Hi in Hs. injection Hs as -> ->. split.
  - apply elem_of_cons in Hin as [->|Hin]; [in_list|].
    apply list_elem_of_further. by apply elem_of_sorted_reverse.
  - intros f Hf. apply Hmax. apply elem_of_cons in Hf as [->|Hf]; [in_list|].
    apply list_elem_of_further. by apply elem_of_sorted_reverse.
Qed.

Lemma after_prefix_app prefix rest : after_prefix prefix (prefix +:+ rest) = Some rest.
Proof.
  induction prefix as [|c prefix IH]; [by destruct rest|].
  change (after_prefix (String c prefix) (String c (prefix +:+ rest)) = Some rest).
  cbn [after_prefix]. by rewrite Ascii.eqb_refl.
Qed.

Lemma ends_with_app a suffix : ends_with suffix (a +:+ suffix) = true.
Proof.
  induction a as [|c a IH].
  - change (ends_with suffix suffix = true).
    destruct suffix; cbn [ends_with]; by rewrite String.eqb_refl.
  - change (ends_with suffix (String c (a +:+ suffix)) = true).
    cbn [ends_with]. rewrite IH. apply orb_true_r.
Qed.

Lemma export_payload_outcome files now :
  match export_payload files now with
  | inl message =>
      message = "No digest files found in ai_news_digests/"
      /\ forall f, f ∈ files -> is_digest_name (fst f) = false
  | inr payload =>
      exists latest,
        latest ∈ files /\ is_digest_name (fst latest) = true
        /\ payload = [ ("filename", fst latest);
                       ("generated_at", isoformat now);
                       ("markdown", snd latest) ]
        /\ forall f, f ∈ files -> is_digest_name (fst f) = true ->
             String.compare (fst f) (fst latest) <> Gt
  end.
Proof.
  unfold export_payload.
  destruct (sorted_reverse _) as [|latest rest] eqn:Es.
  - split; [done|]. intros f Hf.
    destruct (is_digest_name (fst f)) eqn:Hn; [|done]. exfalso.
    assert (Hin : f ∈ sorted_reverse (filter (fun f => is_digest_name (fst f) = true) files)).
    { apply elem_of_sorted_reverse. by apply list_elem_of_filter. }
    rewrite Es in Hin. by apply elem_of_nil in Hin.
  - destruct (sorted_reverse_head _ _ _ Es) as [Hin Hmax].
    apply list_elem_of_filter in Hin as [Hn Hin].
    exists latest. split; [done|]. split; [done|]. split; [done|].
    intros f Hf Hfn. apply Hmax. by apply list_elem_of_filter.
Qed.
End ExportFacts.

Section ExportTheorems.
Context `{Env} (config : Config).

(** X23.  The export script stops with its message exactly when no file name
    matches the pattern; otherwise the payload holds the name and the
    text of a matching file whose name is not less than any other
    matching name. *)
Theorem export_payload_picks_greatest_name files now :
  match export_payload files now with
  | inl message =>
      message = "No digest files found in ai_news_digests/"
      /\ forall f, f ∈ files -> is_digest_name (fst f) = false
  | inr payload =>
      exists latest,
        latest ∈ files /\ is_digest_name (fst latest) = true
        /\ payload = [ ("filename", fst latest);
                       ("generated_at", isoformat now);
                       ("markdown", snd latest) ]
        /\ forall f, f ∈ files -> is_digest_name (fst f) = true ->
             String.compare (fst f) (fst latest) <> Gt
  end.
Proof. apply export_payload_outcome. Qed.

(** X24.  When the directory holds the files that [save_digest] wrote at
    clock readings with four-digit years, with the file name prefix of
    the repository, the export script picks the file of a latest clock
    reading. *)
Theorem export_payload_after_saves (saves : list (datetime * string)) now :
  OUTPUT_FILENAME_PREFIX config = "ai_news_digest_" ->
  saves <> [] ->
  Forall (fun s => on_the_clock (fst s)) saves ->
  exists d text,
    (d, text) ∈ saves
    /\ export_payload ((fun s => (digest_filename config (fst s), snd s)) <$> saves) now
       = inr [ ("filename", digest_filename config d);
               ("generated_at", isoformat now);
               ("markdown", text) ]
    /\ forall s, s ∈ saves -> lex_compare (clock_fields (fst s)) (clock_fields d) <> Gt.
Proof.
  intros Hprefix Hne Hclock.
  set (files := (fun s => (digest_filename config (fst s), snd s)) <$> saves).
  assert (Hnames : forall f, f ∈ files -> is_digest_name (fst f) = true).
  { intros f (s & -> & Hs)%list_elem_of_fmap. cbn [fst].
    unfold is_digest_name, digest_filename. rewrite Hprefix, after_prefix_app.
    apply ends_with_app. }
  pose proof (export_payload_outcome files now) as Hout.
  destruct (export_payload files now) as [message|payload].
  { destruct Hout as [_ Hnone]. destruct saves as [|s saves]; [done|]. exfalso.
    assert (Hin : (digest_filename config (fst s), snd s) ∈ files) by apply list_elem_of_here.
    specialize (Hnone _ Hin). by rewrite (Hnames _ Hin) in Hnone. }
  destruct Hout as (latest & Hin & _ & -> & Hmax).
  apply list_elem_of_fmap in Hin as ([d text] & -> & Hs). cbn [fst snd] in *.
  exists d, text. split; [done|]. split; [done|].
  intros s Hs'.
  assert (Hf : (digest_filename config (fst s), snd s) ∈ files).
  { apply list_elem_of_fmap. by exists s. }
  specialize (Hmax _ Hf (Hnames _ Hf)). cbn [fst] in Hmax.
  rewrite digest_filename_compare in Hmax; [done| |].
  - by eapply Forall_forall in Hclock; [|exact Hs'].
  - by eapply Forall_forall in Hclock; [|exact Hs].
Qed.
End ExportTheorems.

(** * More concrete runs in the scripted world *)

Section MoreConcreteRuns.
#[local] Existing Instance script_env.

(** A closed equation between values without dicts, by evaluation. *)
Ltac evaluate := vm_compute; reflexivity.

(** A closed equation between values with dicts, by evaluating the test of
    equality. *)
Ltac decide_equal := apply (bool_decide_eq_true_1 _); vm_compute; reflexivity.

Ltac has_key := eexists; evaluate.

Ltac clock := unfold on_the_clock; cbn; lia.

(** A closed bound on an integer, by evaluation. *)
Ltac small := unfold printable, fits_float; apply Z.ltb_lt; vm_compute; reflexivity.

(** Three articles of which the third repeats the link of the first: the
    two others are left, in their order. *)
Lemma deduplicate_articles_subsequence_witness :
  _deduplicate_articles config_py [news_nov1; news_nov2; news_nov1]
  = Ok [news_nov1; news_nov2]
  /\ [news_nov1; news_nov2] `sublist_of` [news_nov1; news_nov2; news_nov1].
Proof.
  assert (Hrun : _deduplicate_articles config_py [news_nov1; news_nov2; news_nov1]
                 = Ok [news_nov1; news_nov2]) by decide_equal.
  split; [exact Hrun|].
  exact (proj1 (deduplicate_articles_subsequence config_py _ _ Hrun)).
Defined.

(** The same three articles: one counted as removed and two kept. *)
Lemma dedup_loop_counts_witness :
  exists v,
    dedup_loop config_py [news_nov1; news_nov2; news_nov1] dedup_init = Ok v
    /\ duplicates_removed v + llen (deduplicated v) = 3.
Proof.
  destruct (dedup_loop config_py [news_nov1; news_nov2; news_nov1] dedup_init)
    as [v|e] eqn:Hrun.
  - exists v. split; [done|].
    exact (proj2 (dedup_loop_counts config_py _ v Hrun)).
  - exfalso.
    assert (Hc : _deduplicate_articles config_py [news_nov1; news_nov2; news_nov1]
                 = Ok [news_nov1; news_nov2]) by decide_equal.
    unfold _deduplicate_articles in Hc. rewrite Hrun in Hc. discriminate.
Defined.

(** Two articles with different links and unlike titles come back
    unchanged. *)
Lemma deduplicate_articles_keeps_distinct_stories_witness :
  _deduplicate_articles config_py [news_nov1; news_nov2] = Ok [news_nov1; news_nov2].
Proof.
  apply deduplicate_articles_keeps_distinct_stories. split; [|split].
  - repeat constructor; has_key.
  - assert (links [news_nov1; news_nov2]
            = [Some "https://a.example/2"; Some "https://a.example/3"]) as -> by evaluate.
    apply (bool_decide_unpack _). evaluate.
  - intros l1 a l2 b l3 Heq (t1 & t2 & Hb & Ha & Hsim).
    destruct l1 as [|x1 [|x2 l1]]; [| |destruct l1; discriminate].
    + injection Heq as <- Heq. destruct l2 as [|y l2]; [|destruct l2; discriminate].
      injection Heq as <- _.
      assert (t1 = "Chatbot for schools") as ->
        by (assert (news_nov2 !! "title" = Some "Chatbot for schools") by evaluate;
            congruence).
      assert (t2 = "LLM benchmark results") as ->
        by (assert (news_nov1 !! "title" = Some "LLM benchmark results") by evaluate;
            congruence).
      vm_compute in Hsim. discriminate.
    + injection Heq as _ <- Heq. destruct l2; discriminate.
Defined.

(** An article without the key [link] makes the deduplicator raise. *)
Lemma deduplicate_articles_raises_KeyError_witness :
  _deduplicate_articles config_py [news_nov1; delete "link" news_nov2]
  = Raise (KeyError "link")
  /\ exists a, a ∈ [news_nov1; delete "link" news_nov2] /\ a !! "link" = None.
Proof.
  assert (Hrun : _deduplicate_articles config_py [news_nov1; delete "link" news_nov2]
                 = Raise (KeyError "link")) by decide_equal.
  split; [exact Hrun|].
  destruct (deduplicate_articles_raises_KeyError config_py _ _ Hrun)
    as (key & a & [= <-] & _ & Ha & Hnone).
  by exists a.
Defined.

(** Two articles whose titles differ in case only: the second, with the
    longer description, replaces the first.  And two articles with the
    same title, whose descriptions have two characters in four bytes and
    three characters in three bytes: the second replaces the first. *)
Lemma deduplicate_articles_pair_witness :
  _deduplicate_articles config_py
    [ news "https://a.example/1" "Chatbot For Schools" "Short." "2026-11-02 08:00:00";
      news "https://b.example/1" "Chatbot for schools" "A longer text." "2026-11-02 08:00:00" ]
  = Ok [ news "https://b.example/1" "Chatbot for schools" "A longer text."
           "2026-11-02 08:00:00" ]
  /\ _deduplicate_articles config_py
       [ news "https://a.example/1" "Chatbot" e_acute_twice "2026-11-02 08:00:00";
         news "https://b.example/1" "Chatbot" "abc" "2026-11-02 08:00:00" ]
     = Ok [ news "https://b.example/1" "Chatbot" "abc" "2026-11-02 08:00:00" ].
Proof.
  split.
  - rewrite (deduplicate_articles_pair config_py _ _
               "https://a.example/1" "https://b.example/1"
               "Chatbot For Schools" "Chatbot for schools" "Short." "A longer text.");
      [|evaluate..].
    destruct (decide _) as [Heq|_]; [discriminate|].
    assert (Qgt_bool (title_similarity "Chatbot for schools" "Chatbot For Schools")
              (DEDUPLICATION_THRESHOLD config_py) = true) as -> by evaluate.
    reflexivity.
  - rewrite (deduplicate_articles_pair config_py _ _
               "https://a.example/1" "https://b.example/1"
               "Chatbot" "Chatbot" e_acute_twice "abc");
      [|evaluate..].
    destruct (decide _) as [Heq|_]; [discriminate|].
    assert (Qgt_bool (title_similarity "Chatbot" "Chatbot")
              (DEDUPLICATION_THRESHOLD config_py) = true) as -> by evaluate.
    assert ((len e_acute_twice <? len "abc") = true) as -> by evaluate.
    reflexivity.
Defined.




(** A collection in the scripted world returns articles with distinct
    links. *)
Lemma fetch_news_distinct_links_witness :
  exists out st',
    fetch_news frugal_config None (start []) = (Ok out, st') /\ NoDup (links out).
Proof.
  destruct (fetch_news_Ok frugal_config None (start [])) as (out & st' & Hrun);
    [by right|].
  exists out, st'. split; [exact Hrun|].
  exact (fetch_news_distinct_links frugal_config None (start []) out st' eq_refl Hrun).
Defined.

(** Three articles with a limit of two and the reply [3, 1]: the third
    and the first article, in the order of the reply. *)
Lemma filter_articles_selects_from_input_witness :
  exists out st',
    filter_articles frugal_config [news_garbled; news_nov1; news_nov2] (Some "LLM")
      (start [(Ok "3, 1", 5)])
    = (Ok out, st')
    /\ out = [news_nov2; news_garbled]
    /\ forall a, a ∈ out -> a ∈ [news_garbled; news_nov1; news_nov2].
Proof.
  destruct (filter_articles frugal_config [news_garbled; news_nov1; news_nov2] (Some "LLM")
              (start [(Ok "3, 1", 5)])) as [r st'] eqn:Hrun.
  assert (Hc : fst (filter_articles frugal_config [news_garbled; news_nov1; news_nov2]
                      (Some "LLM") (start [(Ok "3, 1", 5)]))
               = Ok [news_nov2; news_garbled]) by decide_equal.
  rewrite Hrun in Hc. cbn [fst] in Hc. subst r.
  exists [news_nov2; news_garbled], st'. split; [done|]. split; [done|].
  exact (proj1 (filter_articles_selects_from_input frugal_config _ _ _ _ _ Hrun)).
Defined.

(** In the example configuration the filter returns the collected
    articles as they are and asks no model. *)
Lemma filter_after_fetch_news_is_identity_witness :
  exists out st',
    fetch_news example_config None (start []) = (Ok out, st')
    /\ filter_articles example_config out (Some "LLM") st' = (Ok out, st').
Proof.
  destruct (fetch_news_Ok example_config None (start [])) as (out & st' & Hrun);
    [left; small|].
  exists out, st'. split; [exact Hrun|].
  apply (filter_after_fetch_news_is_identity example_config None (Some "LLM") (start []));
    [|exact Hrun].
  split; vm_compute; discriminate.
Defined.

(** Two articles, one scripted reply: both are summarised, and the
    opening line, both progress lines and the closing line are
    printed. *)
Lemma summarize_articles_always_summarizes_witness :
  exists out st',
    summarize_articles config_py [news_nov1; news_garbled] (start [(Ok "summary", 5)])
    = (Ok out, st')
    /\ stdout st'
       = [ nl +:+ "[AI News Summarizer] Summarizing 2 articles...";
           "  Processing article 1/2: LLM benchmark results...";
           "  Processing article 2/2: New AI model released...";
           nl +:+ "[AI News Summarizer] Completed summarization of 2 articles" ].
Proof.
  destruct (summarize_articles_always_summarizes config_py [news_nov1; news_garbled]
              (start [(Ok "summary", 5)])) as (out & st' & Hrun & _ & Hout).
  { repeat constructor; has_key. }
  exists out, st'. split; [exact Hrun|]. rewrite Hout. evaluate.
Defined.

(** The Markdown text of one summarised article shows its title and its
    summary. *)
Lemma format_digest_markdown_lists_articles_witness :
  exists digest,
    format_digest_markdown [<[ "ai_summary" := "A summary." ]> news_nov1] "themes" (start [])
    = (Ok digest, start [])
    /\ contains "LLM benchmark results" digest = true
    /\ contains "A summary." digest = true.
Proof.
  destruct (format_digest_markdown_lists_articles
              [<[ "ai_summary" := "A summary." ]> news_nov1] "themes" (start []))
    as (digest & Hrun & _ & Hparts).
  { repeat constructor; has_key. }
  exists digest. split; [exact Hrun|].
  destruct (Hparts (<[ "ai_summary" := "A summary." ]> news_nov1))
    as (Htitle & _ & _ & Hsummary); [apply list_elem_of_here|].
  assert (get (<[ "ai_summary" := "A summary." ]> news_nov1) "title" ""
          = "LLM benchmark results") as Ht by evaluate.
  assert (get (<[ "ai_summary" := "A summary." ]> news_nov1) "ai_summary" ""
          = "A summary.") as Hs by evaluate.
  rewrite Ht in Htitle. rewrite Hs in Hsummary. by split.
Defined.


(** Recency filter: accepted with a limit of 7 days, so with 30. *)
Lemma is_article_recent_never_raises_witness :
  fst (_is_article_recent config_py (Some "2026-11-02 08:00:00") (Some 30) (start []))
  = Ok true.
Proof.
  apply (proj2 (is_article_recent_never_raises config_py (Some "2026-11-02 08:00:00")
                  (start [])) 7 30); [lia|evaluate].
Defined.

(** Collector and selector: the scripted feeds give four articles; with
    a count of minus ten to the power 309 the test of Tier 1 raises. *)
Lemma fetch_news_raises_only_OverflowError_witness :
  (exists out st',
      fetch_news example_config None (start []) = (Ok out, st') /\ llen out <= 10)
  /\ fst (fetch_news example_config (Some (- 10 ^ 309)) (start []))
     = Raise (OverflowError "int too large to convert to float").
Proof.
  split; [|evaluate].
  destruct (fetch_news_raises_only_OverflowError example_config None (start []))
    as (r & st' & Hrun & Hcases & Hok).
  destruct Hok as [out ->]; [left; small|].
  exists out, st'. split; [exact Hrun|].
  destruct Hcases as (_ & _ & Hlen). apply Hlen. vm_compute. discriminate.
Defined.

(** Base agent: the client has no reply and raises. *)
Lemma execute_never_raises_witness :
  fst (execute config_py "instructions" "task" (start []))
  = Ok "Error executing task: Connection error.".
Proof.
  destruct (execute_never_raises config_py "instructions" "task" (start []))
    as (response & st' & Hrun & _ & _ & _ & Hfail).
  rewrite Hrun. cbn [fst].
  destruct (Hfail (Exception "Connection error.")) as [-> _]; [reflexivity|].
  reflexivity.
Defined.

(** Themes: an article with a summary and no description. *)
Lemma identify_themes_reads_description_witness :
  delete "description" (<[ "ai_summary" := "A summary." ]> news_nov1) !! "ai_summary"
  = Some "A summary."
  /\ exists key,
       identify_themes config_py
         [delete "description" (<[ "ai_summary" := "A summary." ]> news_nov1)] (start [])
       = (Raise (KeyError key), start []).
Proof.
  split; [evaluate|].
  destruct (proj2 (identify_themes_reads_description config_py
                     [delete "description" (<[ "ai_summary" := "A summary." ]> news_nov1)]
                     (start []))
              (delete "description" (<[ "ai_summary" := "A summary." ]> news_nov1)))
    as (key & Hrun & _); [apply list_elem_of_here|evaluate|].
  by exists key.
Defined.


(** File names: a digest saved a day later has the greater path. *)
Lemma save_digest_names_follow_the_clock_witness :
  String.compare (digest_path config_py nov3_noon) (digest_path config_py nov4_morning) = Lt.
Proof.
  rewrite (proj1 (save_digest_names_follow_the_clock config_py nov3_noon nov4_morning
                    ltac:(clock) ltac:(clock))).
  reflexivity.
Defined.

(** Export: of two digests and a file of another kind, the digest with
    the greater name. *)
Lemma export_payload_picks_greatest_name_witness :
  export_payload
    [ ("notes.txt", "notes");
      ("ai_news_digest_20261103_120733.md", "old");
      ("ai_news_digest_20261104_090000.md", "new") ] nov4_morning
  = inr [ ("filename", "ai_news_digest_20261104_090000.md");
          ("generated_at", "2026-11-04T09:00:00");
          ("markdown", "new") ]
  /\ is_digest_name "notes.txt" = false.
Proof.
  pose proof (export_payload_picks_greatest_name
                [ ("notes.txt", "notes");
                  ("ai_news_digest_20261103_120733.md", "old");
                  ("ai_news_digest_20261104_090000.md", "new") ] nov4_morning) as Hout.
  destruct (export_payload _ _) as [message|payload] eqn:Hrun.
  - vm_compute in Hrun. discriminate.
  - split; [|reflexivity]. vm_compute in Hrun. injection Hrun as <-. reflexivity.
Defined.

(** Export after two saves: the digest of the later clock reading. *)
Lemma export_payload_after_saves_witness :
  exists d text,
    (d, text) ∈ [(nov3_noon, "old"); (nov4_morning, "new")]
    /\ export_payload
         [ (digest_filename config_py nov3_noon, "old");
           (digest_filename config_py nov4_morning, "new") ] nov4_morning
       = inr [ ("filename", digest_filename config_py d);
               ("generated_at", isoformat nov4_morning);
               ("markdown", text) ]
    /\ d = nov4_morning.
Proof.
  destruct (export_payload_after_saves config_py
              [(nov3_noon, "old"); (nov4_morning, "new")] nov4_morning)
    as (d & text & Hin & Hrun & Hmax); [reflexivity|discriminate| |].
  { repeat constructor; clock. }
  exists d, text. split; [exact Hin|]. split; [exact Hrun|].
  apply elem_of_cons in Hin as [[= -> ->]|Hin].
  - exfalso. apply (Hmax (nov4_morning, "new")); [in_list|reflexivity].
  - apply list_elem_of_singleton in Hin. by injection Hin as -> _.
Defined.
End MoreConcreteRuns.
